(** * Pangolin Ingress Controller: the reconciliation core, embedded in Rocq

    This development embeds the Go sources
    [internal/util/naming.go] and [internal/controller/ingress_controller.go]
    and states the properties of the reconciliation engine over them.

    Conventions of the embedding:
    - a Go [string] is a byte string, here [string] (a list of 8-bit [ascii]);
      [len] is [String.length];
    - [strings.ToLower] is modelled on ASCII (bytes 'A'..'Z'); bytes above 127
      are left alone by it, and [sanitizeName] then turns each into a hyphen.
      On ASCII input this is exactly what the Go code does;
    - Go [int] is a 64-bit and [int32] a 32-bit two's complement integer,
      modelled as [Z] with the wrap-around written out;
    - a Go [map] is a [gmap]; the order in which [range] visits a map is
      chosen by the Go runtime, and is a parameter of the functions that
      range over one;
    - the Kubernetes API server is an in-memory object store, threaded
      through the reconciler together with the list of the write calls
      issued and of the events recorded. *)

From Stdlib Require Import ZArith Ascii String List Lia Permutation.
From stdpp Require Import gmap strings list fin_maps.

Local Open Scope string_scope.
Local Open Scope list_scope.

(* ===================================================================== *)
(** ** crypto/sha256 and encoding/hex, as used by [GenerateName]          *)
(* ===================================================================== *)

Module SHA256.
Local Open Scope Z_scope.

Definition mask32 : Z := 0xffffffff.

Definition add32 (x y : Z) : Z := Z.land (x + y) mask32.

Definition rotr (n x : Z) : Z :=
  Z.lor (Z.shiftr x n) (Z.land (Z.shiftl x (32 - n)) mask32).

Definition not32 (x : Z) : Z := Z.lxor x mask32.

Definition Ch (e f g : Z) : Z := Z.lxor (Z.land e f) (Z.land (not32 e) g).

Definition Maj (a b c : Z) : Z :=
  Z.lxor (Z.lxor (Z.land a b) (Z.land a c)) (Z.land b c).

Definition bsig0 (a : Z) : Z := Z.lxor (Z.lxor (rotr 2 a) (rotr 13 a)) (rotr 22 a).
Definition bsig1 (e : Z) : Z := Z.lxor (Z.lxor (rotr 6 e) (rotr 11 e)) (rotr 25 e).
Definition ssig0 (x : Z) : Z := Z.lxor (Z.lxor (rotr 7 x) (rotr 18 x)) (Z.shiftr x 3).
Definition ssig1 (x : Z) : Z := Z.lxor (Z.lxor (rotr 17 x) (rotr 19 x)) (Z.shiftr x 10).

(** The round constants: the first 32 bits of the fractional parts of the
    cube roots of the first 64 primes. *)
Definition K : list Z :=
  [
    1116352408; 1899447441; 3049323471; 3921009573;
    961987163; 1508970993; 2453635748; 2870763221;
    3624381080; 310598401; 607225278; 1426881987;
    1925078388; 2162078206; 2614888103; 3248222580;
    3835390401; 4022224774; 264347078; 604807628;
    770255983; 1249150122; 1555081692; 1996064986;
    2554220882; 2821834349; 2952996808; 3210313671;
    3336571891; 3584528711; 113926993; 338241895;
    666307205; 773529912; 1294757372; 1396182291;
    1695183700; 1986661051; 2177026350; 2456956037;
    2730485921; 2820302411; 3259730800; 3345764771;
    3516065817; 3600352804; 4094571909; 275423344;
    430227734; 506948616; 659060556; 883997877;
    958139571; 1322822218; 1537002063; 1747873779;
    1955562222; 2024104815; 2227730452; 2361852424;
    2428436474; 2756734187; 3204031479; 3329325298
  ].

(** The eight working registers. *)
Record regs := Regs { ra : Z; rb : Z; rc : Z; rd : Z; re : Z; rf : Z; rg : Z; rh : Z }.

Definition init : regs :=
  Regs 0x6a09e667 0xbb67ae85 0x3c6ef372 0xa54ff53a
       0x510e527f 0x9b05688c 0x1f83d9ab 0x5be0cd19.

Definition round (s : regs) (kw : Z * Z) : regs :=
  let t1 := add32 (add32 (add32 (add32 (rh s) (bsig1 (re s))) (Ch (re s) (rf s) (rg s))) (fst kw)) (snd kw) in
  let t2 := add32 (bsig0 (ra s)) (Maj (ra s) (rb s) (rc s)) in
  Regs (add32 t1 t2) (ra s) (rb s) (rc s) (add32 (rd s) t1) (re s) (rf s) (rg s).

(** Message schedule: [n] more words after the words [w] already there. *)
Fixpoint schedule (n : nat) (w : list Z) : list Z :=
  match n with
  | O => w
  | S n' =>
      let i := length w in
      let x := add32 (add32 (add32 (ssig1 (nth (i - 2) w 0)) (nth (i - 7) w 0))
                            (ssig0 (nth (i - 15) w 0))) (nth (i - 16) w 0) in
      schedule n' (w ++ [x])
  end.

Fixpoint words (bs : list Z) : list Z :=
  match bs with
  | b0 :: b1 :: b2 :: b3 :: rest =>
      (Z.shiftl b0 24 + Z.shiftl b1 16 + Z.shiftl b2 8 + b3) :: words rest
  | _ => []
  end.

Definition compress (s : regs) (block : list Z) : regs :=
  let w := schedule 48 (words block) in
  let t := fold_left round (combine K w) s in
  Regs (add32 (ra s) (ra t)) (add32 (rb s) (rb t)) (add32 (rc s) (rc t)) (add32 (rd s) (rd t))
       (add32 (re s) (re t)) (add32 (rf s) (rf t)) (add32 (rg s) (rg t)) (add32 (rh s) (rh t)).

Fixpoint blocks (n : nat) (s : regs) (bs : list Z) : regs :=
  match n with
  | O => s
  | S n' => blocks n' (compress s (firstn 64 bs)) (skipn 64 bs)
  end.

Definition be_bytes (n : nat) (x : Z) : list Z :=
  map (fun i => Z.land (Z.shiftr x (8 * Z.of_nat i)) 0xff) (rev (seq 0 n)).

Definition pad (msg : list Z) : list Z :=
  let l := Z.of_nat (length msg) in
  let zeros := Z.to_nat ((55 - l) mod 64) in
  msg ++ [0x80] ++ repeat 0 zeros ++ be_bytes 8 (8 * l).

Definition digest (s : regs) : list Z :=
  flat_map (be_bytes 4) [ra s; rb s; rc s; rd s; re s; rf s; rg s; rh s].

(** [sha256.Sum256]: the 32 bytes of the digest of [msg]. *)
Definition Sum256 (msg : list Z) : list Z :=
  let p := pad msg in
  digest (blocks (length p / 64) init p).

Definition bytes_of_string (s : string) : list Z :=
  map (fun c => Z.of_N (N_of_ascii c)) (list_ascii_of_string s).

Definition hexdigit (n : Z) : ascii :=
  nth (Z.to_nat n) (list_ascii_of_string "0123456789abcdef") "0"%char.

(** [hex.EncodeToString]: two lower-case digits per byte. *)
Fixpoint EncodeToString (bs : list Z) : string :=
  match bs with
  | [] => EmptyString
  | b :: rest =>
      String (hexdigit (Z.land (Z.shiftr b 4) 0xf))
        (String (hexdigit (Z.land b 0xf)) (EncodeToString rest))
  end.

End SHA256.

(* ===================================================================== *)
(** ** internal/util/naming.go                                            *)
(* ===================================================================== *)

(** [len(s)]: the number of bytes of [s], a Go [int]. *)
Definition len (s : string) : Z := Z.of_nat (String.length s).

Fixpoint map_bytes (f : ascii -> ascii) (s : string) : string :=
  match s with
  | EmptyString => EmptyString
  | String c r => String (f c) (map_bytes f r)
  end.

Definition byte_in (lo hi c : ascii) : bool :=
  ((N_of_ascii lo <=? N_of_ascii c) && (N_of_ascii c <=? N_of_ascii hi))%N.

Definition lower_byte (c : ascii) : ascii :=
  if byte_in "A" "Z" c then ascii_of_N (N_of_ascii c + 32) else c.

(** [strings.ToLower], on ASCII. *)
Definition ToLower (s : string) : string := map_bytes lower_byte s.

(** [strings.HasPrefix]. *)
Definition HasPrefix (s pre : string) : bool := String.prefix pre s.

(** [strings.Contains]. *)
Fixpoint Contains (s sub : string) : bool :=
  String.prefix sub s ||
  match s with
  | EmptyString => false
  | String _ r => Contains r sub
  end.

(** [strings.ReplaceAll(s, old, new)] for a non-empty [old]: the
    non-overlapping occurrences of [old], found from the left, are replaced.
    [skip] counts the bytes of a match that are still to be dropped. *)
Fixpoint replace_from (old new s : string) (skip : nat) : string :=
  match s with
  | EmptyString => EmptyString
  | String c r =>
      match skip with
      | S k => replace_from old new r k
      | O =>
          if String.prefix old s
          then new +:+ replace_from old new r (String.length old - 1)
          else String c (replace_from old new r 0)
      end
  end.

Definition ReplaceAll (s old new : string) : string := replace_from old new s 0.

(** [strings.Trim(s, "-")]: leading and trailing hyphens removed. *)
Fixpoint trim_left_hyphen (s : string) : string :=
  match s with
  | String "-" r => trim_left_hyphen r
  | _ => s
  end.

Fixpoint trim_right_hyphen (s : string) : string :=
  match s with
  | EmptyString => EmptyString
  | String c r =>
      match trim_right_hyphen r with
      | EmptyString => if Ascii.eqb c "-" then EmptyString else String c EmptyString
      | r' => String c r'
      end
  end.

Definition TrimHyphen (s : string) : string := trim_right_hyphen (trim_left_hyphen s).

Definition name_byte_ok (c : ascii) : bool :=
  byte_in "a" "z" c || byte_in "0" "9" c || Ascii.eqb c "-".

(** The loop [for strings.Contains(name, "--") { name = ReplaceAll(name, "--", "-") }].
    Every turn of the loop shortens the name, so [String.length name] turns
    are enough. *)
Fixpoint collapse_hyphens (fuel : nat) (name : string) : string :=
  match fuel with
  | O => name
  | S fuel' =>
      if Contains name "--"
      then collapse_hyphens fuel' (ReplaceAll name "--" "-")
      else name
  end.

Definition sanitizeName (name : string) : string :=
  let name := ToLower name in
  let name := map_bytes (fun r => if name_byte_ok r then r else "-"%char) name in
  let name := TrimHyphen name in
  collapse_hyphens (String.length name) name.

Definition NamePrefix : string := "pic".
Definition MaxNameLength : Z := 63.

(** [hex.EncodeToString(hash[:4])] for [hash = sha256.Sum256(ns/ingress/host)]. *)
Definition shortHash (namespace ingressName host : string) : string :=
  let hashInput := namespace +:+ "/" +:+ ingressName +:+ "/" +:+ host in
  let hash := SHA256.Sum256 (SHA256.bytes_of_string hashInput) in
  SHA256.EncodeToString (firstn 4 hash).

Definition GenerateName (namespace ingressName host : string) : string :=
  let shortHash := shortHash namespace ingressName host in
  let name := NamePrefix +:+ "-" +:+ namespace +:+ "-" +:+ ingressName +:+ "-" +:+ shortHash in
  let name := sanitizeName name in
  if (len name >? MaxNameLength)%Z then
    let prefixLen := (len NamePrefix + 1 + len namespace + 1)%Z in
    let suffixLen := (len shortHash + 1)%Z in
    let availableLen := (MaxNameLength - prefixLen - suffixLen)%Z in
    if (availableLen >? 0)%Z then
      let truncatedIngress :=
        if (len ingressName >? availableLen)%Z
        then substring 0 (Z.to_nat availableLen) ingressName
        else ingressName in
      NamePrefix +:+ "-" +:+ namespace +:+ "-" +:+ truncatedIngress +:+ "-" +:+ shortHash
    else
      NamePrefix +:+ "-" +:+ shortHash
  else name.

(* ===================================================================== *)
(** ** The objects: k8s.io/api/networking/v1 and internal/pangolincrd      *)
(* ===================================================================== *)

(** The part of [networkingv1.Ingress] that the controller reads. A Go
    pointer that may be nil is an [option]; [PathType] is a Go string type. *)
Record ServiceBackendPort := { Port_Name : string; Port_Number : Z }.

Record IngressServiceBackend :=
  { Service_Name : string; Service_Port : ServiceBackendPort }.

Record IngressBackend := { Backend_Service : option IngressServiceBackend }.

Record HTTPIngressPath :=
  { Path_Path : string; Path_PathType : option string; Path_Backend : IngressBackend }.

Record HTTPIngressRuleValue := { HTTP_Paths : list HTTPIngressPath }.

Record IngressRule := { Rule_Host : string; Rule_HTTP : option HTTPIngressRuleValue }.

Record Ingress :=
  { Ingress_Name : string;
    Ingress_Namespace : string;
    Ingress_UID : string;
    Ingress_Annotations : gmap string string;
    Ingress_ClassName : option string;
    Ingress_Rules : list IngressRule }.

Definition PathTypeExact : string := "Exact".
Definition PathTypePrefix : string := "Prefix".
Definition PathTypeImplementationSpecific : string := "ImplementationSpecific".

(** Modelled from the spec: the struct declarations of [internal/pangolincrd]
    are not part of the sources at hand; the records below have the fields
    that [ingress_controller.go] reads and writes. *)
Record Target :=
  { Target_IP : string;
    Target_Port : Z;
    Target_Method : string;
    Target_Path : string;
    Target_PathMatchType : string;
    Target_Priority : Z }.

Record HTTPConfig :=
  { HTTPConfig_DomainName : string;
    HTTPConfig_Subdomain : string;
    HTTPConfig_SSO : bool;
    HTTPConfig_BlockAccess : bool }.

Record TunnelRef := { TunnelRef_Name : string; TunnelRef_Namespace : string }.

Record PangolinResourceSpec :=
  { Spec_Name : string;
    Spec_Enabled : bool;
    Spec_Protocol : string;
    Spec_TunnelRef : TunnelRef;
    Spec_HTTPConfig : option HTTPConfig;
    Spec_Targets : list Target }.

(** The controller reference that [ctrl.SetControllerReference] writes. *)
Record OwnerReference :=
  { Owner_Kind : string; Owner_Name : string; Owner_UID : string; Owner_Controller : bool }.

Record PangolinResource :=
  { Resource_Name : string;
    Resource_Namespace : string;
    Resource_Labels : gmap string string;
    Resource_OwnerReferences : list OwnerReference;
    Resource_Spec : PangolinResourceSpec }.

Record PangolinTunnel := { Tunnel_Name : string; Tunnel_Namespace : string }.

(** Modelled from the spec: [internal/config] is not part of the sources at
    hand either; of [config.Config], the fields that the reconciler reads. *)
Record Config :=
  { DefaultTunnelName : string;
    TunnelMapping : gmap string string;
    BackendScheme : string }.

Record IngressReconciler := { r_Config : Config }.

Definition AnnotationEnabled : string := "pangolin.ingress.k8s.io/enabled".
Definition AnnotationTunnelName : string := "pangolin.ingress.k8s.io/tunnel-name".
Definition AnnotationDomainName : string := "pangolin.ingress.k8s.io/domain-name".
Definition AnnotationSubdomain : string := "pangolin.ingress.k8s.io/subdomain".
Definition AnnotationSSO : string := "pangolin.ingress.k8s.io/sso".
Definition AnnotationBlockAccess : string := "pangolin.ingress.k8s.io/block-access".
Definition LabelIngressUID : string := "pic.ingress.k8s.io/uid".
Definition LabelIngressName : string := "pic.ingress.k8s.io/name".
Definition LabelIngressNamespace : string := "pic.ingress.k8s.io/namespace".
Definition IngressClassPangolin : string := "pangolin".
Definition IngressClassPrefix : string := "pangolin-".

(** [m[k]] on a Go [map[string]string] or [map[string]bool]: the zero value
    when the key is absent. *)
Definition index_string (m : gmap string string) (k : string) : string :=
  default "" (m !! k).

Definition index_bool (m : gmap string bool) (k : string) : bool :=
  default false (m !! k).

Record HostPathGroup := { Group_Host : string; Group_Paths : list HTTPIngressPath }.

(* ===================================================================== *)
(** ** The cluster: object store, call log, event log                     *)
(* ===================================================================== *)

Inductive error :=
| ErrNotFound
| ErrAlreadyExists
| ErrInvalidHost (host cause : string)
| ErrNoValidBackends
| ErrCannotResolveTunnel (className : string)
| ErrTunnelNotFound (tunnelName : string).

Definition IsNotFound (e : error) : bool :=
  match e with ErrNotFound => true | _ => false end.

(** The [%q] verb, for a string in which nothing has to be escaped. *)
Definition quote (s : string) : string :=
  String (ascii_of_nat 34) (s +:+ String (ascii_of_nat 34) EmptyString).

(** [err.Error()]. *)
Definition Error (e : error) : string :=
  match e with
  | ErrNotFound => "not found"
  | ErrAlreadyExists => "already exists"
  | ErrInvalidHost host cause => "invalid host " +:+ quote host +:+ ": " +:+ cause
  | ErrNoValidBackends => "no valid backends found in Ingress paths"
  | ErrCannotResolveTunnel className =>
      "cannot resolve tunnel for ingressClassName " +:+ quote className
  | ErrTunnelNotFound tunnelName => "tunnel " +:+ quote tunnelName +:+ " not found"
  end.

Inductive EventType := EventTypeNormal | EventTypeWarning.

(** One [Recorder.Event(ingress, type, reason, message)] call. *)
Record Event :=
  { Event_Namespace : string;
    Event_Ingress : string;
    Event_Type : EventType;
    Event_Reason : string;
    Event_Message : string }.

(** A write issued to the API server. *)
Inductive Call :=
| CallCreate (namespace name : string)
| CallUpdate (namespace name : string)
| CallDelete (namespace name : string).

Record Cluster :=
  { ingresses : list Ingress;
    tunnels : list PangolinTunnel;
    resources : list PangolinResource;
    calls : list Call;
    events : list Event }.

(** The reconciler runs in a state monad over the cluster; like the Go code
    every function returns its error, if any, as a value. *)
Definition M (A : Type) : Type := Cluster -> A * Cluster.

Definition ret {A} (a : A) : M A := fun c => (a, c).

Definition bind {A B} (m : M A) (k : A -> M B) : M B :=
  fun c => let (a, c') := m c in k a c'.

Notation "'let*' x ':=' m 'in' k" := (bind m (fun x => k))
  (at level 10, x name, m at level 100, k at level 200).

Definition same_object (namespace name : string) (x : PangolinResource) : bool :=
  String.eqb (Resource_Namespace x) namespace && String.eqb (Resource_Name x) name.

Definition record_call (k : Call) : M unit :=
  fun c => (tt, {| ingresses := ingresses c; tunnels := tunnels c;
                   resources := resources c; calls := calls c ++ [k];
                   events := events c |}).

Definition set_resources (f : list PangolinResource -> list PangolinResource) : M unit :=
  fun c => (tt, {| ingresses := ingresses c; tunnels := tunnels c;
                   resources := f (resources c); calls := calls c;
                   events := events c |}).

(** [r.Recorder.Event]. *)
Definition RecordEvent (ing : Ingress) (t : EventType) (reason message : string) : M unit :=
  fun c => (tt, {| ingresses := ingresses c; tunnels := tunnels c;
                   resources := resources c; calls := calls c;
                   events := events c ++
                     [ {| Event_Namespace := Ingress_Namespace ing;
                          Event_Ingress := Ingress_Name ing;
                          Event_Type := t; Event_Reason := reason;
                          Event_Message := message |} ] |}).

(** [r.Get] of an Ingress: [inl ErrNotFound] when there is none. *)
Definition GetIngress (namespace name : string) : M (error + Ingress) :=
  fun c =>
    (match List.find (fun i => String.eqb (Ingress_Namespace i) namespace
                          && String.eqb (Ingress_Name i) name) (ingresses c) with
     | Some i => inr i
     | None => inl ErrNotFound
     end, c).

Definition lookup_resource (namespace name : string) (l : list PangolinResource)
  : option PangolinResource := List.find (same_object namespace name) l.

(** [r.Get] of a PangolinResource. *)
Definition GetResource (namespace name : string) : M (error + PangolinResource) :=
  fun c =>
    (match lookup_resource namespace name (resources c) with
     | Some x => inr x
     | None => inl ErrNotFound
     end, c).

(** [r.Create]. *)
Definition Create (x : PangolinResource) : M (option error) :=
  let* _ := record_call (CallCreate (Resource_Namespace x) (Resource_Name x)) in
  let* found := GetResource (Resource_Namespace x) (Resource_Name x) in
  match found with
  | inr _ => ret (Some ErrAlreadyExists)
  | inl _ => let* _ := set_resources (fun l => l ++ [x]) in ret None
  end.

(** [r.Update]: the stored object of that namespace and name is replaced. *)
Definition Update (x : PangolinResource) : M (option error) :=
  let* _ := record_call (CallUpdate (Resource_Namespace x) (Resource_Name x)) in
  let* found := GetResource (Resource_Namespace x) (Resource_Name x) in
  match found with
  | inl e => ret (Some e)
  | inr _ =>
      let* _ := set_resources
        (map (fun y => if same_object (Resource_Namespace x) (Resource_Name x) y
                       then x else y)) in
      ret None
  end.

(** [r.Delete]. *)
Definition Delete (x : PangolinResource) : M (option error) :=
  let* _ := record_call (CallDelete (Resource_Namespace x) (Resource_Name x)) in
  let* found := GetResource (Resource_Namespace x) (Resource_Name x) in
  match found with
  | inl e => ret (Some e)
  | inr _ =>
      let* _ := set_resources
        (List.filter (fun y => negb (same_object (Resource_Namespace x) (Resource_Name x) y))) in
      ret None
  end.

(** [r.List(&resourceList, InNamespace(ns), MatchingLabels{LabelIngressUID: uid})]. *)
Definition owned_by (namespace uid : string) (x : PangolinResource) : bool :=
  String.eqb (Resource_Namespace x) namespace &&
  match Resource_Labels x !! LabelIngressUID with
  | Some v => String.eqb v uid
  | None => false
  end.

Definition ListResources (namespace uid : string) : M (list PangolinResource) :=
  fun c => (List.filter (owned_by namespace uid) (resources c), c).

(** [r.List(&tunnelList)]. *)
Definition ListTunnels : M (list PangolinTunnel) := fun c => (tunnels c, c).

(* ===================================================================== *)
(** ** internal/controller/ingress_controller.go                          *)
(* ===================================================================== *)

(** [strings.TrimPrefix]. *)
Definition TrimPrefix (s pre : string) : string :=
  if HasPrefix s pre
  then substring (String.length pre) (String.length s - String.length pre) s
  else s.

(** Go [int] (64 bits) and [int32]: two's complement wrap-around. *)
Definition wrap (bits z : Z) : Z := ((z + 2 ^ (bits - 1)) mod 2 ^ bits - 2 ^ (bits - 1))%Z.
Definition int (z : Z) : Z := wrap 64 z.
Definition int32 (z : Z) : Z := wrap 32 z.

(** [specChanged]. *)
Definition targetDiffers (ct dt : Target) : bool :=
  negb (String.eqb (Target_IP ct) (Target_IP dt))
  || negb (Z.eqb (Target_Port ct) (Target_Port dt))
  || negb (String.eqb (Target_Method ct) (Target_Method dt))
  || negb (String.eqb (Target_Path ct) (Target_Path dt))
  || negb (String.eqb (Target_PathMatchType ct) (Target_PathMatchType dt))
  || negb (Z.eqb (Target_Priority ct) (Target_Priority dt)).

(** The loop [for i := range current.Targets] over both slices. *)
Fixpoint targetsChanged (current desired : list Target) : bool :=
  match current with
  | [] => false
  | ct :: current' =>
      match desired with
      | [] => true
      | dt :: desired' =>
          if targetDiffers ct dt then true else targetsChanged current' desired'
      end
  end.

Definition httpConfigChanged (current desired : option HTTPConfig) : bool :=
  match current, desired with
  | Some c, Some d =>
      if negb (String.eqb (HTTPConfig_DomainName c) (HTTPConfig_DomainName d)) then true
      else if negb (String.eqb (HTTPConfig_Subdomain c) (HTTPConfig_Subdomain d)) then true
      else if negb (Bool.eqb (HTTPConfig_SSO c) (HTTPConfig_SSO d)) then true
      else if negb (Bool.eqb (HTTPConfig_BlockAccess c) (HTTPConfig_BlockAccess d)) then true
      else false
  | _, _ => false
  end.

Definition specChanged (current desired : PangolinResourceSpec) : bool :=
  if negb (String.eqb (Spec_Name current) (Spec_Name desired)) then true
  else if negb (Bool.eqb (Spec_Enabled current) (Spec_Enabled desired)) then true
  else if negb (String.eqb (Spec_Protocol current) (Spec_Protocol desired)) then true
  else if negb (String.eqb (TunnelRef_Name (Spec_TunnelRef current))
                           (TunnelRef_Name (Spec_TunnelRef desired))) then true
  else if negb (String.eqb (TunnelRef_Namespace (Spec_TunnelRef current))
                           (TunnelRef_Namespace (Spec_TunnelRef desired))) then true
  else if httpConfigChanged (Spec_HTTPConfig current) (Spec_HTTPConfig desired) then true
  else if negb (Nat.eqb (length (Spec_Targets current)) (length (Spec_Targets desired))) then true
  else targetsChanged (Spec_Targets current) (Spec_Targets desired).

(** [isManaged]. *)
Definition isManaged (ingress : Ingress) : bool :=
  if match Ingress_Annotations ingress !! AnnotationEnabled with
     | Some enabled => String.eqb (ToLower enabled) "false"
     | None => false
     end
  then false
  else
    let className := match Ingress_ClassName ingress with Some c => c | None => "" end in
    String.eqb className IngressClassPangolin || HasPrefix className IngressClassPrefix.

(** [resolveTunnel]. *)
Definition resolveTunnel (r : IngressReconciler) (ingress : Ingress) : error + string :=
  match Ingress_Annotations ingress !! AnnotationTunnelName with
  | Some (String c rest) => inr (String c rest)
  | _ =>
      let className := match Ingress_ClassName ingress with Some c => c | None => "" end in
      if String.eqb className IngressClassPangolin then inr (DefaultTunnelName (r_Config r))
      else if HasPrefix className IngressClassPrefix then
        let suffix := TrimPrefix className IngressClassPrefix in
        match TunnelMapping (r_Config r) !! suffix with
        | Some tunnelName => inr tunnelName
        | None => inr suffix
        end
      else inl (ErrCannotResolveTunnel className)
  end.

(** [validateTunnel]: the namespace of the first tunnel of that name. *)
Definition validateTunnel (tunnelName : string) : M (error + string) :=
  let* tunnelList := ListTunnels in
  ret match List.find (fun t => String.eqb (Tunnel_Name t) tunnelName) tunnelList with
      | Some t => inr (Tunnel_Namespace t)
      | None => inl (ErrTunnelNotFound tunnelName)
      end.

(** The priority of a path, [int32(100 + len(path.Path)*10)] capped at 1000. *)
Definition pathPriority (path : string) : Z :=
  let priority := int32 (int (100 + int (len path * 10))) in
  if (priority >? 1000)%Z then 1000%Z else priority.

(** The body of the loop over [paths] in [buildDesiredPangolinResource],
    for a path that has a service backend. *)
Definition buildTarget (r : IngressReconciler) (ingress : Ingress)
    (path : HTTPIngressPath) (service : IngressServiceBackend) : Target :=
  let backendHost := Service_Name service +:+ "." +:+ Ingress_Namespace ingress
                     +:+ ".svc.cluster.local" in
  let backendPort :=
    if negb (Z.eqb (Port_Number (Service_Port service)) 0)
    then Port_Number (Service_Port service) else 0%Z in
  let pathMatchType :=
    match Path_PathType path with
    | Some t =>
        if String.eqb t PathTypeExact then "exact"
        else if String.eqb t PathTypePrefix then "prefix"
        else if String.eqb t PathTypeImplementationSpecific then "prefix"
        else "prefix"
    | None => "prefix"
    end in
  {| Target_IP := backendHost;
     Target_Port := backendPort;
     Target_Method := BackendScheme (r_Config r);
     Target_Path := Path_Path path;
     Target_PathMatchType := pathMatchType;
     Target_Priority := pathPriority (Path_Path path) |}.

Fixpoint buildTargets (r : IngressReconciler) (ingress : Ingress)
    (paths : list HTTPIngressPath) : list Target :=
  match paths with
  | [] => []
  | path :: rest =>
      match Backend_Service (Path_Backend path) with
      | None => buildTargets r ingress rest
      | Some service => buildTarget r ingress path service :: buildTargets r ingress rest
      end
  end.

(** [ctrl.SetControllerReference(ingress, desired, r.Scheme)]. The library
    call fails for an owner of another namespace or an object that already
    has a controller; the object it is given here is freshly built in the
    namespace of the Ingress, so the call is embedded as the update it makes. *)
Definition SetControllerReference (ingress : Ingress) (x : PangolinResource)
  : PangolinResource :=
  {| Resource_Name := Resource_Name x;
     Resource_Namespace := Resource_Namespace x;
     Resource_Labels := Resource_Labels x;
     Resource_OwnerReferences :=
       Resource_OwnerReferences x ++
       [ {| Owner_Kind := "Ingress"; Owner_Name := Ingress_Name ingress;
            Owner_UID := Ingress_UID ingress; Owner_Controller := true |} ];
     Resource_Spec := Resource_Spec x |}.

Definition withSpec (x : PangolinResource) (spec : PangolinResourceSpec) : PangolinResource :=
  {| Resource_Name := Resource_Name x;
     Resource_Namespace := Resource_Namespace x;
     Resource_Labels := Resource_Labels x;
     Resource_OwnerReferences := Resource_OwnerReferences x;
     Resource_Spec := spec |}.

(** [reconcilePangolinResource]. *)
Definition reconcilePangolinResource (ingress : Ingress) (desired : PangolinResource)
  : M (option error) :=
  let* got := GetResource (Resource_Namespace desired) (Resource_Name desired) in
  match got with
  | inl err =>
      if IsNotFound err then
        let* err := Create desired in
        match err with
        | Some err => ret (Some err)
        | None =>
            let* _ := RecordEvent ingress EventTypeNormal "Created"
                        ("Created PangolinResource " +:+ Resource_Name desired) in
            ret None
        end
      else ret (Some err)
  | inr existing =>
      if specChanged (Resource_Spec existing) (Resource_Spec desired) then
        let existing := withSpec existing (Resource_Spec desired) in
        let* err := Update existing in
        match err with
        | Some err => ret (Some err)
        | None =>
            let* _ := RecordEvent ingress EventTypeNormal "Updated"
                        ("Updated PangolinResource " +:+ Resource_Name desired) in
            ret None
        end
      else ret None
  end.

(** The loop of [cleanupOrphanedResources] over [resourceList.Items]. *)
Fixpoint deleteOrphans (ingress : Ingress) (desiredNames : gmap string bool)
    (items : list PangolinResource) : M (option error) :=
  match items with
  | [] => ret None
  | resource :: rest =>
      if negb (index_bool desiredNames (Resource_Name resource)) then
        let* err := Delete resource in
        match err with
        | Some e =>
            if negb (IsNotFound e) then ret (Some e)
            else
              let* _ := RecordEvent ingress EventTypeNormal "Deleted"
                          ("Deleted PangolinResource " +:+ Resource_Name resource
                           +:+ " (host removed)") in
              deleteOrphans ingress desiredNames rest
        | None =>
            let* _ := RecordEvent ingress EventTypeNormal "Deleted"
                        ("Deleted PangolinResource " +:+ Resource_Name resource
                         +:+ " (host removed)") in
            deleteOrphans ingress desiredNames rest
        end
      else deleteOrphans ingress desiredNames rest
  end.

(** [cleanupOrphanedResources]. *)
Definition cleanupOrphanedResources (ingress : Ingress) (desiredNames : gmap string bool)
  : M (option error) :=
  let* items := ListResources (Ingress_Namespace ingress) (Ingress_UID ingress) in
  deleteOrphans ingress desiredNames items.

(** The loop of [handleUnmanaged]. *)
Fixpoint deleteAll (ingress : Ingress) (items : list PangolinResource) : M (option error) :=
  match items with
  | [] => ret None
  | resource :: rest =>
      let* err := Delete resource in
      match err with
      | Some e =>
          if negb (IsNotFound e) then ret (Some e)
          else
            let* _ := RecordEvent ingress EventTypeNormal "Deleted"
                        ("Deleted PangolinResource " +:+ Resource_Name resource
                         +:+ " (Ingress no longer managed)") in
            deleteAll ingress rest
      | None =>
          let* _ := RecordEvent ingress EventTypeNormal "Deleted"
                      ("Deleted PangolinResource " +:+ Resource_Name resource
                       +:+ " (Ingress no longer managed)") in
          deleteAll ingress rest
      end
  end.

(** [ctrl.Result]. *)
Record Result := { Requeue : bool }.

(** [handleUnmanaged]. *)
Definition handleUnmanaged (ingress : Ingress) : M (Result * option error) :=
  let* items := ListResources (Ingress_Namespace ingress) (Ingress_UID ingress) in
  let* err := deleteAll ingress items in
  ret ({| Requeue := false |}, err).

(** The first loop of [collectHostPaths], over [ingress.Spec.Rules]. *)
Fixpoint collectRules (ingress : Ingress) (rules : list IngressRule)
    (hostMap : gmap string (list HTTPIngressPath))
  : M (gmap string (list HTTPIngressPath)) :=
  match rules with
  | [] => ret hostMap
  | rule :: rest =>
      if String.eqb (Rule_Host rule) "" then
        let* _ := RecordEvent ingress EventTypeWarning "EmptyHost"
                    "Rule with empty host skipped" in
        collectRules ingress rest hostMap
      else
        match Rule_HTTP rule with
        | Some http =>
            collectRules ingress rest
              (<[Rule_Host rule :=
                   default [] (hostMap !! Rule_Host rule) ++ HTTP_Paths http]> hostMap)
        | None => collectRules ingress rest hostMap
        end
  end.

(** The order in which [range] visits the entries of [hostMap]: the Go
    runtime picks one, here it is a parameter. Every entry is visited once. *)
Definition RangeOrder : Type :=
  gmap string (list HTTPIngressPath) -> list (string * list HTTPIngressPath).

Definition range_ok (order : RangeOrder) : Prop :=
  forall m, Permutation (order m) (map_to_list m).

(** [collectHostPaths]. *)
Definition collectHostPaths (order : RangeOrder) (ingress : Ingress)
  : M (list HostPathGroup) :=
  let* hostMap := collectRules ingress (Ingress_Rules ingress) ∅ in
  ret (map (fun hp => {| Group_Host := fst hp; Group_Paths := snd hp |}) (order hostMap)).

Section Controller.

(** [util.SplitHost] lives in a file of the repository that is not among the
    sources at hand. The controller is embedded over any such function;
    [inl cause] is its error result, [inr (subdomain, domain)] its success. *)
Variable SplitHost : string -> string + (string * string).

(** [buildDesiredPangolinResource]. *)
Definition buildDesiredPangolinResource (r : IngressReconciler) (ingress : Ingress)
    (host : string) (paths : list HTTPIngressPath) (tunnelName tunnelNamespace : string)
  : error + PangolinResource :=
  match SplitHost host with
  | inl cause => inl (ErrInvalidHost host cause)
  | inr (subdomain, domain) =>
      let domain :=
        match Ingress_Annotations ingress !! AnnotationDomainName with
        | Some override => if negb (String.eqb override "") then override else domain
        | None => domain
        end in
      let subdomain :=
        match Ingress_Annotations ingress !! AnnotationSubdomain with
        | Some override => if negb (String.eqb override "") then override else subdomain
        | None => subdomain
        end in
      let targets := buildTargets r ingress paths in
      if Nat.eqb (length targets) 0 then inl ErrNoValidBackends
      else
        let name := GenerateName (Ingress_Namespace ingress) (Ingress_Name ingress) host in
        let displayName := Ingress_Namespace ingress +:+ "/" +:+ Ingress_Name ingress
                           +:+ "/" +:+ host in
        let protocol := "http" in
        let ssoEnabled := String.eqb (index_string (Ingress_Annotations ingress) AnnotationSSO) "true" in
        let blockAccess :=
          String.eqb (index_string (Ingress_Annotations ingress) AnnotationBlockAccess) "true" in
        inr {| Resource_Name := name;
               Resource_Namespace := Ingress_Namespace ingress;
               Resource_Labels :=
                 <[LabelIngressUID := Ingress_UID ingress]>
                   (<[LabelIngressName := Ingress_Name ingress]>
                      (<[LabelIngressNamespace := Ingress_Namespace ingress]> ∅));
               Resource_OwnerReferences := [];
               Resource_Spec :=
                 {| Spec_Name := displayName;
                    Spec_Enabled := true;
                    Spec_Protocol := protocol;
                    Spec_TunnelRef := {| TunnelRef_Name := tunnelName;
                                         TunnelRef_Namespace := tunnelNamespace |};
                    Spec_HTTPConfig :=
                      Some {| HTTPConfig_DomainName := domain;
                              HTTPConfig_Subdomain := subdomain;
                              HTTPConfig_SSO := ssoEnabled;
                              HTTPConfig_BlockAccess := blockAccess |};
                    Spec_Targets := targets |} |}
  end.

(** The loop of [processHosts] over [hostGroups]. *)
Fixpoint processGroups (r : IngressReconciler) (ingress : Ingress)
    (tunnelName tunnelNamespace : string) (hostGroups : list HostPathGroup)
    (desiredNames : gmap string bool) : M (gmap string bool * option error) :=
  match hostGroups with
  | [] => ret (desiredNames, None)
  | group :: rest =>
      match buildDesiredPangolinResource r ingress (Group_Host group) (Group_Paths group)
              tunnelName tunnelNamespace with
      | inl err =>
          let* _ := RecordEvent ingress EventTypeWarning "InvalidHost"
                      ("Host " +:+ quote (Group_Host group) +:+ ": " +:+ Error err) in
          processGroups r ingress tunnelName tunnelNamespace rest desiredNames
      | inr desired =>
          let desired := SetControllerReference ingress desired in
          let desiredNames := <[Resource_Name desired := true]> desiredNames in
          let* err := reconcilePangolinResource ingress desired in
          match err with
          | Some err => ret (desiredNames, Some err)
          | None => processGroups r ingress tunnelName tunnelNamespace rest desiredNames
          end
      end
  end.

(** [processHosts]. *)
Definition processHosts (order : RangeOrder) (r : IngressReconciler) (ingress : Ingress)
    (tunnelName tunnelNamespace : string) : M (Result * option error) :=
  if Nat.eqb (length (Ingress_Rules ingress)) 0 then
    let* _ := RecordEvent ingress EventTypeWarning "NoRules" "Ingress has no rules defined" in
    ret ({| Requeue := false |}, None)
  else
    let* hostGroups := collectHostPaths order ingress in
    if Nat.eqb (length hostGroups) 0 then ret ({| Requeue := false |}, None)
    else
      let* done := processGroups r ingress tunnelName tunnelNamespace hostGroups ∅ in
      match snd done with
      | Some err => ret ({| Requeue := false |}, Some err)
      | None =>
          let* err := cleanupOrphanedResources ingress (fst done) in
          match err with
          | Some err => ret ({| Requeue := false |}, Some err)
          | None => ret ({| Requeue := false |}, None)
          end
      end.

(** [Reconcile], for the request [(namespace, name)]. *)
Definition Reconcile (order : RangeOrder) (r : IngressReconciler)
    (namespace name : string) : M (Result * option error) :=
  let* got := GetIngress namespace name in
  match got with
  | inl err =>
      if IsNotFound err then ret ({| Requeue := false |}, None)
      else ret ({| Requeue := false |}, Some err)
  | inr ingress =>
      if negb (isManaged ingress) then handleUnmanaged ingress
      else
        match resolveTunnel r ingress with
        | inl err =>
            let* _ := RecordEvent ingress EventTypeWarning "TunnelResolutionFailed"
                        (Error err) in
            ret ({| Requeue := false |}, Some err)
        | inr tunnelName =>
            let* found := validateTunnel tunnelName in
            match found with
            | inl _ =>
                let* _ := RecordEvent ingress EventTypeWarning "TunnelNotFound"
                            ("Tunnel " +:+ quote tunnelName +:+ " not found") in
                ret ({| Requeue := true |}, None)
            | inr tunnelNamespace =>
                processHosts order r ingress tunnelName tunnelNamespace
            end
        end
  end.

End Controller.

(* ===================================================================== *)
(** ** The vocabulary of the properties                                   *)
(* ===================================================================== *)

Fixpoint all_bytes (f : ascii -> bool) (s : string) : bool :=
  match s with
  | EmptyString => true
  | String c r => f c && all_bytes f r
  end.

(** A name component made of lower-case alphanumerics and single interior
    hyphens: not empty, no hyphen at either end, no two hyphens in a row.
    [after_hyphen] says that the byte before was a hyphen (or that there
    was none). *)
Definition lower_alnum (c : ascii) : bool := byte_in "a" "z" c || byte_in "0" "9" c.

Fixpoint label_from (after_hyphen : bool) (s : string) : bool :=
  match s with
  | EmptyString => negb after_hyphen
  | String c r =>
      if lower_alnum c then label_from false r
      else if Ascii.eqb c "-" then negb after_hyphen && label_from true r
      else false
  end.

Definition is_label (s : string) : bool := label_from true s.

(** A string of 7-bit bytes. On such a string [strings.ToLower] and the
    [range] over the runes of a Go string act byte by byte, as [ToLower] and
    [map_bytes] do here. *)
Definition is_ascii (s : string) : bool :=
  all_bytes (fun c => (N_of_ascii c <? 128)%N) s.

(** The first byte is a hyphen; the string is not empty and its last byte
    is no hyphen. *)
Definition head_hyphen (s : string) : bool :=
  match s with
  | String c _ => Ascii.eqb c "-"
  | EmptyString => false
  end.

Fixpoint ends_well (s : string) : bool :=
  match s with
  | EmptyString => false
  | String c EmptyString => negb (Ascii.eqb c "-")
  | String _ r => ends_well r
  end.

Fixpoint repeat_byte (n : nat) (c : ascii) : string :=
  match n with
  | O => EmptyString
  | S n' => String c (repeat_byte n' c)
  end.

(** What the host grouper is to compute, said directly on the rule list:
    the paths that the rules of host [h] bring, in rule order. *)
Definition rule_paths (rule : IngressRule) : list HTTPIngressPath :=
  match Rule_HTTP rule with
  | Some http => HTTP_Paths http
  | None => []
  end.

(** Every HTTP section of the rules lists at least one path, as the API
    server requires of an Ingress. *)
Definition sections_have_paths (rules : list IngressRule) : bool :=
  forallb (fun rule => match Rule_HTTP rule with
                       | Some http => negb (Nat.eqb (length (HTTP_Paths http)) 0)
                       | None => true
                       end) rules.

Definition paths_of_host (h : string) (rules : list IngressRule) : list HTTPIngressPath :=
  flat_map rule_paths (List.filter (fun rule => String.eqb (Rule_Host rule) h) rules).

Definition EmptyHostEvent (ing : Ingress) : Event :=
  {| Event_Namespace := Ingress_Namespace ing; Event_Ingress := Ingress_Name ing;
     Event_Type := EventTypeWarning; Event_Reason := "EmptyHost";
     Event_Message := "Rule with empty host skipped" |}.

Definition add_events (evs : list Event) (c : Cluster) : Cluster :=
  {| ingresses := ingresses c; tunnels := tunnels c; resources := resources c;
     calls := calls c; events := events c ++ evs |}.

Definition TunnelNotFoundEvent (ing : Ingress) (tunnelName : string) : Event :=
  {| Event_Namespace := Ingress_Namespace ing; Event_Ingress := Ingress_Name ing;
     Event_Type := EventTypeWarning; Event_Reason := "TunnelNotFound";
     Event_Message := "Tunnel " +:+ quote tunnelName +:+ " not found" |}.

Definition NoRulesEvent (ing : Ingress) : Event :=
  {| Event_Namespace := Ingress_Namespace ing; Event_Ingress := Ingress_Name ing;
     Event_Type := EventTypeWarning; Event_Reason := "NoRules";
     Event_Message := "Ingress has no rules defined" |}.

(** The map that the first loop of [collectHostPaths] builds, as a function
    of the rules alone. *)
Fixpoint hostMapOf (rules : list IngressRule) (hostMap : gmap string (list HTTPIngressPath))
  : gmap string (list HTTPIngressPath) :=
  match rules with
  | [] => hostMap
  | rule :: rest =>
      if String.eqb (Rule_Host rule) "" then hostMapOf rest hostMap
      else
        match Rule_HTTP rule with
        | Some http =>
            hostMapOf rest
              (<[Rule_Host rule :=
                   default [] (hostMap !! Rule_Host rule) ++ HTTP_Paths http]> hostMap)
        | None => hostMapOf rest hostMap
        end
  end.

Definition emptyHostRules (rules : list IngressRule) : list IngressRule :=
  List.filter (fun rule => String.eqb (Rule_Host rule) "") rules.

Definition contributes (h : string) (rule : IngressRule) : bool :=
  String.eqb (Rule_Host rule) h &&
  match Rule_HTTP rule with Some _ => true | None => false end.

(** What [r.Delete] does to the cluster: the call is logged and every stored
    object of that namespace and name is gone; the error is [nil] or NotFound. *)
Definition CallDeleteOf (x : PangolinResource) : Call :=
  CallDelete (Resource_Namespace x) (Resource_Name x).

Definition after_delete (x : PangolinResource) (c : Cluster) : Cluster :=
  {| ingresses := ingresses c; tunnels := tunnels c;
     resources := List.filter (fun y => negb (same_object (Resource_Namespace x)
                                                          (Resource_Name x) y))
                              (resources c);
     calls := calls c ++ [CallDeleteOf x];
     events := events c |}.

Definition is_orphan (desiredNames : gmap string bool) (x : PangolinResource) : bool :=
  negb (index_bool desiredNames (Resource_Name x)).

Definition DeletedEvent (ing : Ingress) (x : PangolinResource) : Event :=
  {| Event_Namespace := Ingress_Namespace ing; Event_Ingress := Ingress_Name ing;
     Event_Type := EventTypeNormal; Event_Reason := "Deleted";
     Event_Message := "Deleted PangolinResource " +:+ Resource_Name x
                      +:+ " (host removed)" |}.

(** The cluster after the loop of [cleanupOrphanedResources] over [items]:
    one Delete call and one [Deleted] event per listed object whose name is
    not desired, and no stored object of the namespace and name of such an
    object is left. *)
Definition after_cleanup (ing : Ingress) (desiredNames : gmap string bool)
    (items : list PangolinResource) (c : Cluster) : Cluster :=
  {| ingresses := ingresses c; tunnels := tunnels c;
     resources :=
       List.filter
         (fun y => negb (existsb (fun x => is_orphan desiredNames x
                                           && same_object (Resource_Namespace x)
                                                          (Resource_Name x) y) items))
         (resources c);
     calls := calls c ++ map CallDeleteOf (List.filter (is_orphan desiredNames) items);
     events := events c ++ map (DeletedEvent ing) (List.filter (is_orphan desiredNames) items) |}.

Section GroupLoop.

Variable SplitHost : string -> string + (string * string).
Variable r : IngressReconciler.
Variable ing : Ingress.
Variables tunnelName tunnelNamespace : string.

(** The object that [processHosts] reconciles for a group, if the build
    succeeds. *)
Definition built (g : HostPathGroup) : option PangolinResource :=
  match buildDesiredPangolinResource SplitHost r ing (Group_Host g) (Group_Paths g)
          tunnelName tunnelNamespace with
  | inr d => Some (SetControllerReference ing d)
  | inl _ => None
  end.

Fixpoint builtOf (gs : list HostPathGroup) : list PangolinResource :=
  match gs with
  | [] => []
  | g :: rest =>
      match built g with
      | Some d => d :: builtOf rest
      | None => builtOf rest
      end
  end.

(** The [desiredNames] map once the loop is over. *)
Fixpoint desiredNamesOf (gs : list HostPathGroup) (desiredNames : gmap string bool)
  : gmap string bool :=
  match gs with
  | [] => desiredNames
  | g :: rest =>
      match built g with
      | Some d => desiredNamesOf rest (<[Resource_Name d := true]> desiredNames)
      | None => desiredNamesOf rest desiredNames
      end
  end.

End GroupLoop.

Definition groups_of (l : list (string * list HTTPIngressPath)) : list HostPathGroup :=
  map (fun hp => {| Group_Host := fst hp; Group_Paths := snd hp |}) l.

(** The host groups of an Ingress, in the order of the keys of the map. *)
Definition hostGroupsOf (ing : Ingress) : list HostPathGroup :=
  groups_of (map_to_list (hostMapOf (Ingress_Rules ing) ∅)).

(** The names of the objects that a pass over the Ingress reconciles: the
    tunnel reference plays no part in them. *)
Definition desired_names (SplitHost : string -> string + (string * string))
    (r : IngressReconciler) (ing : Ingress) : list string :=
  map Resource_Name (builtOf SplitHost r ing "" "" (hostGroupsOf ing)).

(** The cluster has what the Ingress asks for, and nothing more of its own. *)
Definition settled (SplitHost : string -> string + (string * string))
    (r : IngressReconciler) (ing : Ingress) (tunnelName tunnelNamespace : string)
    (c : Cluster) : Prop :=
  (forall d, In d (builtOf SplitHost r ing tunnelName tunnelNamespace (hostGroupsOf ing)) ->
     exists x, lookup_resource (Resource_Namespace d) (Resource_Name d) (resources c) = Some x
               /\ specChanged (Resource_Spec x) (Resource_Spec d) = false)
  /\ (forall y, In y (resources c) ->
        owned_by (Ingress_Namespace ing) (Ingress_UID ing) y = true ->
        In (Resource_Name y)
           (map Resource_Name
              (builtOf SplitHost r ing tunnelName tunnelNamespace (hostGroupsOf ing)))).

(** The path has a service backend. *)
Definition has_service (path : HTTPIngressPath) : bool :=
  match Backend_Service (Path_Backend path) with
  | Some _ => true
  | None => false
  end.

(** The target [t] is the one of [path]: the in-cluster DNS name of the
    service, its port number, the configured scheme, the path, the match
    type ([exact] for [Exact], [prefix] for everything else) and the
    priority of the path. *)
Definition target_of (r : IngressReconciler) (ing : Ingress)
    (path : HTTPIngressPath) (t : Target) : Prop :=
  exists service,
    Backend_Service (Path_Backend path) = Some service
    /\ Target_IP t = Service_Name service +:+ "." +:+ Ingress_Namespace ing
                     +:+ ".svc.cluster.local"
    /\ Target_Port t = Port_Number (Service_Port service)
    /\ Target_Method t = BackendScheme (r_Config r)
    /\ Target_Path t = Path_Path path
    /\ Target_PathMatchType t
       = (if match Path_PathType path with
             | Some ty => String.eqb ty PathTypeExact
             | None => false
             end
          then "exact" else "prefix")
    /\ Target_Priority t = pathPriority (Path_Path path).

(** The value of an annotation, or [fallback] when it is absent or empty. *)
Definition annotation_or (ing : Ingress) (key fallback : string) : string :=
  if String.eqb (index_string (Ingress_Annotations ing) key) ""
  then fallback else index_string (Ingress_Annotations ing) key.

Definition ControllerRef (ing : Ingress) : OwnerReference :=
  {| Owner_Kind := "Ingress"; Owner_Name := Ingress_Name ing;
     Owner_UID := Ingress_UID ing; Owner_Controller := true |}.

(** What [handleUnmanaged] leaves behind after its loop over [items]: one
    Delete call and one [Deleted] event per listed object, and no stored
    object of the namespace and name of a listed one. *)
Definition UnmanagedEvent (ing : Ingress) (x : PangolinResource) : Event :=
  {| Event_Namespace := Ingress_Namespace ing; Event_Ingress := Ingress_Name ing;
     Event_Type := EventTypeNormal; Event_Reason := "Deleted";
     Event_Message := "Deleted PangolinResource " +:+ Resource_Name x
                      +:+ " (Ingress no longer managed)" |}.

Definition listed_in (items : list PangolinResource) (y : PangolinResource) : bool :=
  existsb (fun x => same_object (Resource_Namespace x) (Resource_Name x) y) items.

Definition after_unmanaged (ing : Ingress) (items : list PangolinResource) (c : Cluster)
  : Cluster :=
  {| ingresses := ingresses c; tunnels := tunnels c;
     resources := List.filter (fun y => negb (listed_in items y)) (resources c);
     calls := calls c ++ map CallDeleteOf items;
     events := events c ++ map (UnmanagedEvent ing) items |}.

Definition CallCreateOf (x : PangolinResource) : Call :=
  CallCreate (Resource_Namespace x) (Resource_Name x).

(** The cluster after one write: the new list of objects, the call, the
    event. *)
Definition after_write (rs : list PangolinResource) (k : Call) (ev : Event) (c : Cluster)
  : Cluster :=
  {| ingresses := ingresses c; tunnels := tunnels c; resources := rs;
     calls := calls c ++ [k]; events := events c ++ [ev] |}.

Definition WriteEvent (ing : Ingress) (reason : string) (d : PangolinResource) : Event :=
  {| Event_Namespace := Ingress_Namespace ing; Event_Ingress := Ingress_Name ing;
     Event_Type := EventTypeNormal; Event_Reason := reason;
     Event_Message := reason +:+ " PangolinResource " +:+ Resource_Name d |}.

(* ===================================================================== *)
(** ** A stand-in for [util.SplitHost], and concrete clusters              *)
(* ===================================================================== *)

(** The labels of a host name, split at the dots. *)
Fixpoint labels_from (acc : string) (s : string) : list string :=
  match s with
  | EmptyString => [acc]
  | String c r =>
      if Ascii.eqb c "." then acc :: labels_from EmptyString r
      else labels_from (acc +:+ String c EmptyString) r
  end.

Definition join_dots (l : list string) : string := String.concat "." l.

(** Modelled from the spec: [util.SplitHost] is not among the sources at hand.
    The spec has it fail on a host with a wildcard marker and on a bare IP
    literal, and otherwise split the host into the subdomain and the
    registrable domain (apex domain: empty subdomain; a multi-level subdomain
    is kept in full). The public-suffix table is not available either: the
    stand-in takes the last label as the public suffix, and takes a host made
    of digits and dots, or one with a colon, as an IP literal. It is used for
    the concrete runs below; the theorems hold for every [SplitHost]. *)
Definition SplitHost_model (host : string) : string + (string * string) :=
  if Contains host "*" then inl "wildcard hosts are not supported"
  else if all_bytes (fun c => byte_in "0" "9" c || Ascii.eqb c ".") host
          || Contains host ":"
  then inl "IP addresses are not supported"
  else
    match rev (labels_from EmptyString host) with
    | tld :: sld :: sub => inr (join_dots (rev sub), sld +:+ "." +:+ tld)
    | _ => inl "cannot derive the registrable domain"
    end.

Definition reconciler0 : IngressReconciler :=
  {| r_Config := {| DefaultTunnelName := "default"; TunnelMapping := ∅;
                    BackendScheme := "http" |} |}.

Definition order_fwd : RangeOrder := fun m => map_to_list m.
Definition order_rev : RangeOrder := fun m => rev (map_to_list m).

Definition service_path (path svc : string) (port : Z) : HTTPIngressPath :=
  {| Path_Path := path; Path_PathType := Some PathTypePrefix;
     Path_Backend := {| Backend_Service :=
       Some {| Service_Name := svc;
               Service_Port := {| Port_Name := ""; Port_Number := port |} |} |} |}.

Definition rule_of (host : string) (paths : list HTTPIngressPath) : IngressRule :=
  {| Rule_Host := host; Rule_HTTP := Some {| HTTP_Paths := paths |} |}.

Definition ingress_of (rules : list IngressRule) : Ingress :=
  {| Ingress_Name := "myapp"; Ingress_Namespace := "default"; Ingress_UID := "uid-1";
     Ingress_Annotations := ∅; Ingress_ClassName := Some "pangolin";
     Ingress_Rules := rules |}.

Definition cluster_of (ing : Ingress) (rs : list PangolinResource) : Cluster :=
  {| ingresses := [ing];
     tunnels := [ {| Tunnel_Name := "default"; Tunnel_Namespace := "pangolin-system" |} ];
     resources := rs; calls := []; events := [] |}.

(** Two hosts whose fingerprints coincide:
    the first four bytes of SHA-256 of [default/myapp/h16510.example.com] and of
    [default/myapp/h158137.example.com] are both 74 20 81 92. *)
Definition ingress_collision : Ingress :=
  ingress_of [ rule_of "h16510.example.com" [service_path "/" "svc-a" 80];
               rule_of "h158137.example.com" [service_path "/" "svc-b" 80] ].

Definition ingress_two_hosts : Ingress :=
  ingress_of [ rule_of "app.example.com" [service_path "/" "svc-a" 80];
               rule_of "api.example.com" [service_path "/v1" "svc-b" 8080] ].

(** The resource built for [app.example.com] of [ingress_two_hosts]. *)
Definition resource_app : PangolinResource :=
  {| Resource_Name := "pic-default-myapp-a03c4624";
     Resource_Namespace := "default";
     Resource_Labels :=
       <[LabelIngressUID := "uid-1"]>
         (<[LabelIngressName := "myapp"]> (<[LabelIngressNamespace := "default"]> ∅));
     Resource_OwnerReferences := [];
     Resource_Spec :=
       {| Spec_Name := "default/myapp/app.example.com";
          Spec_Enabled := true;
          Spec_Protocol := "http";
          Spec_TunnelRef := {| TunnelRef_Name := "default";
                               TunnelRef_Namespace := "pangolin-system" |};
          Spec_HTTPConfig := Some {| HTTPConfig_DomainName := "example.com";
                                     HTTPConfig_Subdomain := "app";
                                     HTTPConfig_SSO := false;
                                     HTTPConfig_BlockAccess := false |};
          Spec_Targets :=
            [ {| Target_IP := "svc-a.default.svc.cluster.local"; Target_Port := 80;
                 Target_Method := "http"; Target_Path := "/";
                 Target_PathMatchType := "prefix"; Target_Priority := 110 |} ] |} |}.

(** What a pass over an Ingress with the one host [app.example.com] creates. *)
Definition ingress_one_host : Ingress :=
  ingress_of [ rule_of "app.example.com" [service_path "/" "svc-a" 80] ].

Definition owned_app : PangolinResource := SetControllerReference ingress_one_host resource_app.

(** The same Ingress once its rules are gone, with only a rule without host,
    and with only a wildcard host. *)
Definition ingress_no_rules : Ingress := ingress_of [].

Definition ingress_empty_hosts : Ingress :=
  ingress_of [ rule_of "" [service_path "/" "svc-a" 80] ].

Definition ingress_wildcard : Ingress :=
  ingress_of [ rule_of "*.example.com" [service_path "/" "svc-a" 80] ].

(** The cluster after a first pass over the Ingress with the colliding hosts. *)
Definition cluster_collision : Cluster :=
  snd (Reconcile SplitHost_model order_fwd reconciler0 "default" "myapp"
         (cluster_of ingress_collision [])).

(** An Ingress of another class that asks to be enabled. *)
Definition ingress_nginx_enabled : Ingress :=
  {| Ingress_Name := "web"; Ingress_Namespace := "default"; Ingress_UID := "uid-2";
     Ingress_Annotations := <[AnnotationEnabled := "true"]> ∅;
     Ingress_ClassName := Some "nginx";
     Ingress_Rules := [ rule_of "web.example.com" [service_path "/" "web" 80] ] |}.

(** The host [a.example.com] in two rules, a rule without host in between,
    and a rule that has a host and no HTTP section. *)
Definition ingress_merge : Ingress :=
  ingress_of [ rule_of "a.example.com" [service_path "/" "svc-a" 80];
               rule_of "" [service_path "/" "svc-0" 80];
               rule_of "a.example.com" [service_path "/x" "svc-x" 80;
                                        service_path "/y" "svc-y" 80];
               {| Rule_Host := "b.example.com"; Rule_HTTP := None |} ].

(** A value of the Go type that no API server holds: the second rule has an
    HTTP section without any path. *)
Definition ingress_empty_section : Ingress :=
  ingress_of [ rule_of "a.example.com" [service_path "/" "svc-a" 80];
               rule_of "b.example.com" [] ].

(** An Ingress name of 62 bytes with a dot, and one of 60 bytes, hyphen at
    offset 47; both are valid names of Kubernetes objects. *)
Definition dotted_ingress_name : string := "x." +:+ repeat_byte 60 "a".
Definition hyphen_ingress_name : string :=
  repeat_byte 47 "a" +:+ "-" +:+ repeat_byte 12 "a".

(** A path of 214748355 bytes. *)
Definition long_path : string := repeat_byte (Z.to_nat 214748355) "a".

Definition spec_with_http (http : option HTTPConfig) : PangolinResourceSpec :=
  {| Spec_Name := "default/myapp/app.example.com";
     Spec_Enabled := true;
     Spec_Protocol := "http";
     Spec_TunnelRef := {| TunnelRef_Name := "default"; TunnelRef_Namespace := "pangolin-system" |};
     Spec_HTTPConfig := http;
     Spec_Targets := [] |}.

Definition http_app : HTTPConfig :=
  {| HTTPConfig_DomainName := "example.com"; HTTPConfig_Subdomain := "app";
     HTTPConfig_SSO := false; HTTPConfig_BlockAccess := false |}.

(** An Ingress of the class [pangolin-edge], and one whose annotations
    override the domain, leave the subdomain override empty and spell the
    SSO switch with a capital. *)
Definition ingress_edge : Ingress :=
  {| Ingress_Name := "myapp"; Ingress_Namespace := "default"; Ingress_UID := "uid-1";
     Ingress_Annotations := ∅; Ingress_ClassName := Some "pangolin-edge";
     Ingress_Rules := [ rule_of "app.example.com" [service_path "/" "svc-a" 80] ] |}.

Definition ingress_overrides : Ingress :=
  {| Ingress_Name := "myapp"; Ingress_Namespace := "default"; Ingress_UID := "uid-1";
     Ingress_Annotations :=
       <[AnnotationDomainName := "corp.example.org"]>
         (<[AnnotationSubdomain := ""]> (<[AnnotationSSO := "True"]> ∅));
     Ingress_ClassName := Some "pangolin";
     Ingress_Rules := [ rule_of "app.example.com" [service_path "/" "svc-a" 80] ] |}.

(** The Ingress with one host, switched off by its annotation. *)
Definition ingress_disabled : Ingress :=
  {| Ingress_Name := "myapp"; Ingress_Namespace := "default"; Ingress_UID := "uid-1";
     Ingress_Annotations := <[AnnotationEnabled := "False"]> ∅;
     Ingress_ClassName := Some "pangolin";
     Ingress_Rules := [ rule_of "app.example.com" [service_path "/" "svc-a" 80] ] |}.

(* ===================================================================== *)
(** * Properties                                                          *)
(* ===================================================================== *)

(** ** The digest on the standard test vectors *)

Example sha256_abc :
  SHA256.EncodeToString (SHA256.Sum256 (SHA256.bytes_of_string "abc"))
  = "ba7816bf8f01cfea414140de5dae2223b00361a396177a9cb410ff61f20015ad".
Proof. vm_compute. reflexivity. Qed.

Example sha256_two_blocks :
  SHA256.EncodeToString (SHA256.Sum256 (SHA256.bytes_of_string
    "abcdbcdecdefdefgefghfghighijhijkijkljklmklmnlmnomnopnopq"))
  = "248d6a61d20638b8e5c026930c3e6039a33ce45964ff2167f6ecedd419db06c1".
Proof. vm_compute. reflexivity. Qed.

(** ** Strings *)

Lemma prefix_app (p s : string) :
  String.prefix p s = true <-> exists rest, s = p +:+ rest.
Proof.
  revert s. induction p as [|c p IH]; intros [|d s]; simpl.
  - split; [intros _; exists EmptyString; reflexivity | reflexivity].
  - split; [intros _; eexists; reflexivity | reflexivity].
  - split; [discriminate | intros [rest H]; discriminate].
  - destruct (ascii_dec c d) as [->|Hne].
    + rewrite IH. split; intros [rest H]; exists rest.
      * now rewrite H.
      * now inversion H.
    + split; [discriminate | intros [rest H]; inversion H; congruence].
Qed.

Lemma len_nonneg (s : string) : (0 <= len s)%Z.
Proof. unfold len. lia. Qed.

Lemma length_append (a b : string) :
  String.length (a +:+ b) = (String.length a + String.length b)%nat.
Proof. induction a; simpl; [reflexivity | now rewrite IHa]. Qed.

Lemma len_repeat_byte (n : nat) (c : ascii) : len (repeat_byte n c) = Z.of_nat n.
Proof.
  unfold len. f_equal. induction n; simpl; [reflexivity | now rewrite IHn].
Qed.

(** ** Machine integers *)

Lemma wrap_small (bits z : Z) :
  (0 < bits)%Z -> (- 2 ^ (bits - 1) <= z < 2 ^ (bits - 1))%Z -> wrap bits z = z.
Proof.
  intros Hb Hz. unfold wrap.
  replace (2 ^ bits)%Z with (2 * 2 ^ (bits - 1))%Z.
  - rewrite Z.mod_small; lia.
  - rewrite <- Z.pow_succ_r by lia. f_equal. lia.
Qed.

(** For every path that an Ingress can hold in practice (up to 214748354
    bytes) the priority is [min(1000, 100 + 10 * len(path))]. *)
Lemma pathPriority_formula (path : string) :
  (len path <= 214748354)%Z ->
  pathPriority path = Z.min 1000 (100 + 10 * len path).
Proof.
  intros Hlen. pose proof (len_nonneg path) as H0.
  unfold pathPriority, int, int32.
  rewrite (wrap_small 64 (len path * 10)) by (simpl; lia).
  rewrite (wrap_small 64) by (simpl; lia).
  rewrite (wrap_small 32) by (simpl; lia).
  destruct (Z.gtb_spec (100 + len path * 10) 1000); lia.
Qed.

(** C8. For every path that the controller can be given (a path comes from
    an Ingress read from the API server, so it is far shorter than 214748354
    bytes) the priority of the target built from it is
    [min(1000, 100 + 10 * len(path))], a value between 100 and 1000. *)
Theorem buildTarget_priority (r : IngressReconciler) (ing : Ingress)
    (path : HTTPIngressPath) (svc : IngressServiceBackend) :
  (len (Path_Path path) <= 214748354)%Z ->
  Target_Priority (buildTarget r ing path svc)
  = Z.min 1000 (100 + 10 * len (Path_Path path))
  /\ (100 <= Target_Priority (buildTarget r ing path svc) <= 1000)%Z.
Proof.
  intros Hlen. pose proof (len_nonneg (Path_Path path)) as H0.
  unfold buildTarget. cbn [Target_Priority].
  rewrite (pathPriority_formula (Path_Path path) Hlen). lia.
Qed.

Lemma buildTarget_priority_witness :
  Target_Priority
    (buildTarget reconciler0 ingress_one_host (service_path "/api/v1" "svc-a" 80)
       {| Service_Name := "svc-a";
          Service_Port := {| Port_Name := ""; Port_Number := 80 |} |})
  = 170%Z.
Proof.
  exact (proj1 (buildTarget_priority reconciler0 ingress_one_host
                  (service_path "/api/v1" "svc-a" 80)
                  {| Service_Name := "svc-a";
                     Service_Port := {| Port_Name := ""; Port_Number := 80 |} |}
                  ltac:(vm_compute; discriminate))).
Defined.

(** Beyond that bound the Go expression no longer follows the formula: on a
    string of 214748355 bytes, which no Ingress of an API server can carry,
    the conversion to [int32] wraps before the cap is applied. *)
Example priority_wraps_on_long_path (r : IngressReconciler) (ing : Ingress)
    (svc : IngressServiceBackend) :
  len long_path = 214748355%Z /\
  Target_Priority
    (buildTarget r ing
       {| Path_Path := long_path; Path_PathType := None;
          Path_Backend := {| Backend_Service := Some svc |} |} svc)
  = (-2147483646)%Z.
Proof.
  assert (Hlen : len long_path = 214748355%Z).
  { unfold long_path. rewrite len_repeat_byte. apply Z2Nat.id. lia. }
  split; [exact Hlen|].
  unfold buildTarget, Target_Priority, Path_Path, pathPriority.
  rewrite Hlen. reflexivity.
Qed.

(** ** The spec differ *)

Lemma targetDiffers_refl (t : Target) : targetDiffers t t = false.
Proof.
  unfold targetDiffers. now rewrite !String.eqb_refl, !Z.eqb_refl.
Qed.

Lemma targetsChanged_refl (l : list Target) : targetsChanged l l = false.
Proof.
  induction l as [|t l IH]; simpl; [reflexivity|]. now rewrite targetDiffers_refl.
Qed.

Lemma httpConfigChanged_refl (h : option HTTPConfig) : httpConfigChanged h h = false.
Proof.
  destruct h as [h|]; simpl; [|reflexivity].
  now rewrite !String.eqb_refl, !Bool.eqb_reflx.
Qed.

Lemma specChanged_refl (d : PangolinResourceSpec) : specChanged d d = false.
Proof.
  unfold specChanged.
  rewrite !String.eqb_refl, !Bool.eqb_reflx, httpConfigChanged_refl, Nat.eqb_refl.
  simpl. apply targetsChanged_refl.
Qed.

Lemma targetDiffers_false (ct dt : Target) : targetDiffers ct dt = false <-> ct = dt.
Proof.
  split; [|intros ->; apply targetDiffers_refl].
  unfold targetDiffers. intros H.
  repeat (apply orb_false_elim in H; destruct H as [H ?]).
  repeat match goal with
         | X : negb _ = false |- _ => apply negb_false_iff in X
         end.
  repeat match goal with
         | X : String.eqb _ _ = true |- _ => apply String.eqb_eq in X
         | X : Z.eqb _ _ = true |- _ => apply Z.eqb_eq in X
         end.
  destruct ct, dt; simpl in *; congruence.
Qed.

Lemma targetsChanged_false (current desired : list Target) :
  length current = length desired ->
  (targetsChanged current desired = false <-> current = desired).
Proof.
  revert desired. induction current as [|ct current IH]; intros [|dt desired] Hlen;
    simpl in *; try discriminate.
  - split; reflexivity.
  - destruct (targetDiffers ct dt) eqn:Hd.
    + split; [discriminate|]. intros H. inversion H; subst.
      now rewrite targetDiffers_refl in Hd.
    + apply targetDiffers_false in Hd as ->.
      rewrite IH by lia. split; [now intros ->|]. now inversion 1.
Qed.

(** What [specChanged] decides: it answers [false] exactly when all the
    scalar fields and the target lists agree and the two HTTPConfig agree
    whenever both are present. *)
Lemma specChanged_false (current desired : PangolinResourceSpec) :
  specChanged current desired = false <->
  Spec_Name current = Spec_Name desired /\
  Spec_Enabled current = Spec_Enabled desired /\
  Spec_Protocol current = Spec_Protocol desired /\
  Spec_TunnelRef current = Spec_TunnelRef desired /\
  (forall c d, Spec_HTTPConfig current = Some c -> Spec_HTTPConfig desired = Some d -> c = d) /\
  Spec_Targets current = Spec_Targets desired.
Proof.
  unfold specChanged.
  destruct (String.eqb_spec (Spec_Name current) (Spec_Name desired)) as [E1|N1]; simpl;
    [|split; [discriminate | tauto]].
  destruct (Bool.eqb_spec (Spec_Enabled current) (Spec_Enabled desired)) as [E2|N2]; simpl;
    [|split; [discriminate | tauto]].
  destruct (String.eqb_spec (Spec_Protocol current) (Spec_Protocol desired)) as [E3|N3]; simpl;
    [|split; [discriminate | tauto]].
  destruct (Spec_TunnelRef current) as [cn cns], (Spec_TunnelRef desired) as [dn dns]; simpl.
  destruct (String.eqb_spec cn dn) as [E4|N4]; simpl;
    [|split; [discriminate | intros (_ & _ & _ & H & _); congruence]].
  destruct (String.eqb_spec cns dns) as [E5|N5]; simpl;
    [|split; [discriminate | intros (_ & _ & _ & H & _); congruence]].
  subst dn dns.
  destruct (httpConfigChanged (Spec_HTTPConfig current) (Spec_HTTPConfig desired)) eqn:Hh.
  - split; [discriminate|]. intros (_ & _ & _ & _ & H & _).
    unfold httpConfigChanged in Hh.
    destruct (Spec_HTTPConfig current) as [c|], (Spec_HTTPConfig desired) as [d|];
      try discriminate.
    rewrite (H c d eq_refl eq_refl) in Hh.
    now rewrite !String.eqb_refl, !Bool.eqb_reflx in Hh.
  - assert (Hcfg : forall c d, Spec_HTTPConfig current = Some c ->
                               Spec_HTTPConfig desired = Some d -> c = d).
    { intros c d Hc Hd. rewrite Hc, Hd in Hh. simpl in Hh.
      destruct c as [c1 c2 c3 c4], d as [d1 d2 d3 d4]; simpl in Hh.
      destruct (String.eqb_spec c1 d1); [|discriminate].
      destruct (String.eqb_spec c2 d2); [|discriminate].
      destruct (Bool.eqb_spec c3 d3); [|discriminate].
      destruct (Bool.eqb_spec c4 d4); [|discriminate].
      congruence. }
    destruct (Nat.eqb_spec (length (Spec_Targets current)) (length (Spec_Targets desired)))
      as [El|Nl]; simpl.
    + rewrite (targetsChanged_false _ _ El). tauto.
    + split; [discriminate|]. intros (_ & _ & _ & _ & _ & H). now rewrite H in Nl.
Qed.

(** C5 (code defect). A stored spec without HTTPConfig and a desired spec with
    one differ, yet [specChanged] answers [false]: the HTTPConfig fields are
    compared only when both structs are present. *)
Theorem specChanged_misses_absent_HTTPConfig :
  spec_with_http None <> spec_with_http (Some http_app) /\
  specChanged (spec_with_http None) (spec_with_http (Some http_app)) = false /\
  specChanged (spec_with_http (Some http_app)) (spec_with_http None) = false.
Proof. split; [discriminate | split; reflexivity]. Qed.

(** ** The management decision *)

Lemma ToLower_empty : ToLower "" = "".
Proof. reflexivity. Qed.

(** C10. [isManaged] answers [true] exactly when the class name is
    [pangolin] or starts with [pangolin-] and the lower-cased [enabled]
    annotation is not [false]; an Ingress of another class, or of none, is
    not managed whatever the annotation says. *)
Theorem isManaged_decision (ing : Ingress) :
  (isManaged ing = true <->
     (Ingress_ClassName ing = Some "pangolin"
      \/ exists rest, Ingress_ClassName ing = Some ("pangolin-" +:+ rest))
     /\ ToLower (index_string (Ingress_Annotations ing) AnnotationEnabled) <> "false")
  /\ (~ (Ingress_ClassName ing = Some "pangolin"
         \/ exists rest, Ingress_ClassName ing = Some ("pangolin-" +:+ rest)) ->
      isManaged ing = false).
Proof.
  assert (Hclass :
    (let className := match Ingress_ClassName ing with Some c => c | None => "" end in
     String.eqb className IngressClassPangolin || HasPrefix className IngressClassPrefix) = true
    <-> (Ingress_ClassName ing = Some "pangolin"
         \/ exists rest, Ingress_ClassName ing = Some ("pangolin-" +:+ rest))).
  { cbv zeta. rewrite orb_true_iff. unfold HasPrefix. rewrite prefix_app, String.eqb_eq.
    unfold IngressClassPangolin, IngressClassPrefix.
    destruct (Ingress_ClassName ing) as [c|].
    - split; (intros [H|[rest H]]; [left | right; exists rest]); congruence.
    - split; intros [H|[rest H]]; discriminate. }
  unfold isManaged, index_string.
  destruct (Ingress_Annotations ing !! AnnotationEnabled) as [enabled|]; simpl.
  - destruct (String.eqb_spec (ToLower enabled) "false") as [E|N].
    + split; [split; [discriminate | tauto] | reflexivity].
    + rewrite Hclass. split; [tauto|]. intros H. apply not_true_is_false.
      now rewrite Hclass.
  - rewrite Hclass. split; [split; [intros H; split; [exact H | discriminate] | tauto]|].
    intros H. apply not_true_is_false. now rewrite Hclass.
Qed.

Lemma isManaged_decision_witness :
  ~ (Ingress_ClassName ingress_nginx_enabled = Some "pangolin"
     \/ exists rest, Ingress_ClassName ingress_nginx_enabled = Some ("pangolin-" +:+ rest))
  /\ Ingress_Annotations ingress_nginx_enabled !! AnnotationEnabled = Some "true"
  /\ isManaged ingress_nginx_enabled = false.
Proof.
  assert (H : ~ (Ingress_ClassName ingress_nginx_enabled = Some "pangolin"
                 \/ exists rest, Ingress_ClassName ingress_nginx_enabled
                                  = Some ("pangolin-" +:+ rest))).
  { intros [H|[rest H]]; discriminate H. }
  split; [exact H|]. split; [reflexivity|].
  exact (proj2 (isManaged_decision ingress_nginx_enabled) H).
Defined.

(** ** The name generator *)

Lemma name_byte_ok_lower (c : ascii) : name_byte_ok c = true -> lower_byte c = c.
Proof.
  destruct c as [[] [] [] [] [] [] [] []]; intros H; try reflexivity; discriminate H.
Qed.

Lemma lower_alnum_ok (c : ascii) : lower_alnum c = true -> name_byte_ok c = true.
Proof. unfold name_byte_ok, lower_alnum. intros ->. reflexivity. Qed.

Lemma label_bytes_ok (b : bool) (s : string) :
  label_from b s = true -> all_bytes name_byte_ok s = true.
Proof.
  revert b. induction s as [|c r IH]; intros b H; simpl in *; [reflexivity|].
  destruct (lower_alnum c) eqn:Hc.
  - rewrite (lower_alnum_ok _ Hc). simpl. eauto.
  - destruct (Ascii.eqb_spec c "-") as [->|]; [|discriminate].
    apply andb_true_iff in H as [_ H]. simpl. eauto.
Qed.

Lemma map_bytes_id (f : ascii -> ascii) (s : string) :
  all_bytes name_byte_ok s = true ->
  (forall c, name_byte_ok c = true -> f c = c) ->
  map_bytes f s = s.
Proof.
  intros H Hf. induction s as [|c r IH]; simpl in *; [reflexivity|].
  apply andb_true_iff in H as [Hc Hr]. now rewrite Hf, IH.
Qed.

Lemma label_trim_left (s : string) : is_label s = true -> trim_left_hyphen s = s.
Proof.
  unfold is_label. destruct s as [|c r]; simpl; [reflexivity|].
  destruct (lower_alnum c) eqn:Hc.
  - intros _. destruct c as [[] [] [] [] [] [] [] []]; try reflexivity; discriminate Hc.
  - destruct (Ascii.eqb c "-"); discriminate.
Qed.

Lemma label_not_empty (b : bool) (s : string) :
  label_from b s = true -> b = true -> s <> EmptyString.
Proof. intros H -> ->. discriminate H. Qed.

Lemma label_trim_right (b : bool) (s : string) :
  label_from b s = true -> trim_right_hyphen s = s.
Proof.
  revert b. induction s as [|c r IH]; intros b H; simpl in *; [reflexivity|].
  destruct (lower_alnum c) eqn:Hc.
  - rewrite (IH _ H). destruct r; [|reflexivity].
    destruct (Ascii.eqb_spec c "-") as [->|]; [discriminate Hc | reflexivity].
  - destruct (Ascii.eqb_spec c "-") as [->|]; [|discriminate].
    apply andb_true_iff in H as [_ H]. rewrite (IH _ H).
    destruct r; [discriminate H | reflexivity].
Qed.

Lemma prefix_cons (a b : ascii) (p s : string) :
  String.prefix (String a p) (String b s) = Ascii.eqb a b && String.prefix p s.
Proof.
  cbn [String.prefix]. destruct (ascii_dec a b) as [->|Hne].
  - now rewrite Ascii.eqb_refl.
  - apply Ascii.eqb_neq in Hne. now rewrite Hne.
Qed.

Lemma Contains_cons (c : ascii) (r sub : string) :
  Contains (String c r) sub = String.prefix sub (String c r) || Contains r sub.
Proof. reflexivity. Qed.

Lemma label_no_double_hyphen (b : bool) (s : string) :
  label_from b s = true -> Contains s "--" = false.
Proof.
  revert b. induction s as [|c r IH]; intros b H; [reflexivity|].
  rewrite Contains_cons, prefix_cons. cbn [label_from] in H.
  destruct (lower_alnum c) eqn:Hc.
  - rewrite (IH _ H).
    destruct (Ascii.eqb_spec "-" c) as [<-|]; [discriminate Hc | reflexivity].
  - destruct (Ascii.eqb_spec c "-") as [->|]; [|discriminate].
    apply andb_true_iff in H as [_ H]. rewrite (IH _ H).
    destruct r as [|d r]; [reflexivity|].
    rewrite prefix_cons. cbn [label_from] in H.
    destruct (Ascii.eqb_spec "-" d) as [<-|]; [discriminate H | reflexivity].
Qed.

Lemma collapse_nothing (fuel : nat) (s : string) :
  Contains s "--" = false -> collapse_hyphens fuel s = s.
Proof. intros H. destruct fuel; simpl; [reflexivity | now rewrite H]. Qed.

Lemma replace_from_length (s : string) (skip : nat) :
  (String.length (replace_from "--" "-" s skip) <= String.length s)%nat.
Proof.
  revert skip. induction s as [|c r IH]; intros skip; [simpl; lia|].
  cbn [replace_from]. destruct skip as [|k].
  - destruct (String.prefix "--" (String c r)).
    + change (String.length "--" - 1)%nat with 1%nat.
      change ("-" +:+ replace_from "--" "-" r 1)
        with (String "-" (replace_from "--" "-" r 1)).
      cbn [String.length]. specialize (IH 1%nat). lia.
    + cbn [String.length]. specialize (IH 0%nat). lia.
  - cbn [String.length]. specialize (IH k). lia.
Qed.

Lemma ReplaceAll_shortens (s : string) :
  Contains s "--" = true ->
  (String.length (ReplaceAll s "--" "-") < String.length s)%nat.
Proof.
  unfold ReplaceAll. induction s as [|c r IH]; [discriminate|].
  rewrite Contains_cons. cbn [replace_from].
  destruct (String.prefix "--" (String c r)) eqn:Hp.
  - intros _. rewrite prefix_cons in Hp. apply andb_true_iff in Hp as [_ Hp].
    destruct r as [|d r']; [discriminate Hp|].
    change (String.length "--" - 1)%nat with 1%nat.
    change ("-" +:+ replace_from "--" "-" (String d r') 1)
      with (String "-" (replace_from "--" "-" r' 0)).
    cbn [String.length]. pose proof (replace_from_length r' 0). lia.
  - simpl. intros H. apply IH in H. lia.
Qed.

(** The fuel of [collapse_hyphens] is enough: the loop ends before it runs
    out, with a name that has no two hyphens in a row. *)
Lemma collapse_hyphens_done (fuel : nat) (s : string) :
  (String.length s <= fuel)%nat -> Contains (collapse_hyphens fuel s) "--" = false.
Proof.
  revert s. induction fuel as [|fuel IH]; intros s Hlen.
  - destruct s; [reflexivity | simpl in Hlen; lia].
  - cbn [collapse_hyphens]. destruct (Contains s "--") eqn:Hc; [|exact Hc].
    apply IH. pose proof (ReplaceAll_shortens s Hc). lia.
Qed.

(** A well-formed label is left alone by [sanitizeName]. *)
Lemma sanitizeName_label (s : string) : is_label s = true -> sanitizeName s = s.
Proof.
  intros H. pose proof (label_bytes_ok _ _ H) as Hok. unfold sanitizeName, ToLower, TrimHyphen.
  rewrite (map_bytes_id lower_byte s Hok name_byte_ok_lower).
  rewrite (map_bytes_id _ s Hok) by (intros c ->; reflexivity).
  rewrite (label_trim_left _ H), (label_trim_right _ _ H).
  apply collapse_nothing, (label_no_double_hyphen _ _ H).
Qed.

Lemma label_from_app (b : bool) (s1 s2 : string) :
  label_from b s1 = true -> label_from b (s1 +:+ s2) = label_from false s2.
Proof.
  revert b. induction s1 as [|c r IH]; intros b H; simpl in *.
  - now destruct b.
  - destruct (lower_alnum c); [eauto|].
    destruct (Ascii.eqb c "-"); [|discriminate].
    apply andb_true_iff in H as [-> H]. simpl. eauto.
Qed.

Lemma hexdigit_lower_alnum (x : Z) : lower_alnum (SHA256.hexdigit (Z.land x 0xf)) = true.
Proof.
  change 0xf%Z with (Z.ones 4). rewrite Z.land_ones by lia.
  pose proof (Z.mod_pos_bound x (2 ^ 4) ltac:(lia)) as Hb.
  unfold SHA256.hexdigit. remember (Z.to_nat (x mod 2 ^ 4)) as k eqn:Hk.
  assert (Hlt : (k < 16)%nat) by (subst k; change (2 ^ 4)%Z with 16%Z in *; lia).
  clear Hk Hb. do 16 (destruct k as [|k]; [reflexivity|]). lia.
Qed.

Lemma hex_label (b : bool) (bs : list Z) :
  bs <> [] -> label_from b (SHA256.EncodeToString bs) = true.
Proof.
  intros Hne. revert b. induction bs as [|x bs IH]; intros b; [contradiction|].
  simpl. rewrite !hexdigit_lower_alnum.
  destruct bs as [|y bs]; [reflexivity|]. apply IH. discriminate.
Qed.

Lemma hex_length (bs : list Z) :
  String.length (SHA256.EncodeToString bs) = (2 * length bs)%nat.
Proof. induction bs as [|x bs IH]; simpl; [reflexivity | rewrite IH; lia]. Qed.

Lemma Sum256_length (msg : list Z) : length (SHA256.Sum256 msg) = 32%nat.
Proof. reflexivity. Qed.

Lemma shortHash_length (ns ing host : string) : String.length (shortHash ns ing host) = 8%nat.
Proof.
  unfold shortHash. rewrite hex_length, length_take, Sum256_length. reflexivity.
Qed.

Lemma shortHash_label (b : bool) (ns ing host : string) :
  label_from b (shortHash ns ing host) = true.
Proof.
  apply hex_label. intros H. apply (f_equal (@length Z)) in H.
  rewrite length_take, Sum256_length in H. discriminate H.
Qed.

Lemma full_name_label (ns ing host : string) :
  is_label ns = true -> is_label ing = true ->
  is_label ("pic-" +:+ ns +:+ "-" +:+ ing +:+ "-" +:+ shortHash ns ing host) = true.
Proof.
  unfold is_label. intros Hns Hing.
  change (label_from true (ns +:+ "-" +:+ ing +:+ "-" +:+ shortHash ns ing host) = true).
  rewrite (label_from_app _ _ _ Hns).
  change (label_from true (ing +:+ "-" +:+ shortHash ns ing host) = true).
  rewrite (label_from_app _ _ _ Hing).
  apply shortHash_label.
Qed.

(** C2. For a namespace and an Ingress name that are well-formed labels and
    a host of any form, when [pic-<namespace>-<ingressName>-<fingerprint>]
    fits in 63 bytes [GenerateName] returns exactly that string, the
    fingerprint being the 8 hex digits of the first 4 bytes of the SHA-256
    digest of [<namespace>/<ingressName>/<host>]; and on every triple two
    calls with the same arguments return the same string. *)
Theorem GenerateName_format :
  (forall ns ing host : string,
     is_label ns = true -> is_label ing = true ->
     (len ("pic-" +:+ ns +:+ "-" +:+ ing +:+ "-" +:+ shortHash ns ing host) <= 63)%Z ->
     GenerateName ns ing host
       = "pic-" +:+ ns +:+ "-" +:+ ing +:+ "-" +:+ shortHash ns ing host
     /\ shortHash ns ing host
        = SHA256.EncodeToString
            (firstn 4 (SHA256.Sum256
               (SHA256.bytes_of_string (ns +:+ "/" +:+ ing +:+ "/" +:+ host))))
     /\ String.length (shortHash ns ing host) = 8%nat)
  /\ (forall ns ing host ns' ing' host' : string,
        ns = ns' -> ing = ing' -> host = host' ->
        GenerateName ns ing host = GenerateName ns' ing' host').
Proof.
  split.
  - intros ns ing host Hns Hing Hlen. split; [|split].
    + unfold GenerateName, NamePrefix, MaxNameLength.
      change ("pic" +:+ "-" +:+ ns +:+ "-" +:+ ing +:+ "-" +:+ shortHash ns ing host)
        with ("pic-" +:+ ns +:+ "-" +:+ ing +:+ "-" +:+ shortHash ns ing host).
      rewrite (sanitizeName_label _ (full_name_label ns ing host Hns Hing)).
      destruct (Z.gtb_spec (len ("pic-" +:+ ns +:+ "-" +:+ ing +:+ "-" +:+ shortHash ns ing host)) 63);
        [lia | reflexivity].
    + reflexivity.
    + apply shortHash_length.
  - intros; subst; reflexivity.
Qed.

Lemma GenerateName_format_witness :
  is_label "default" = true /\ is_label "myapp" = true /\
  GenerateName "default" "myapp" "app.example.com" = "pic-default-myapp-a03c4624".
Proof.
  split; [reflexivity | split; [reflexivity|]].
  exact (proj1 (proj1 GenerateName_format "default" "myapp" "app.example.com"
                  eq_refl eq_refl ltac:(vm_compute; discriminate))).
Defined.

Lemma substring_length (n : nat) (s : string) :
  (n <= String.length s)%nat -> String.length (substring 0 n s) = n.
Proof.
  revert s. induction n as [|n IH]; intros [|c s] H; simpl in *; try reflexivity; try lia.
  rewrite IH; lia.
Qed.

(** The length bound holds on every input, truncated or not. *)
Lemma GenerateName_length (ns ing host : string) :
  (len (GenerateName ns ing host) <= 63)%Z.
Proof.
  unfold GenerateName, MaxNameLength, NamePrefix.
  destruct (Z.gtb_spec (len (sanitizeName
             ("pic" +:+ "-" +:+ ns +:+ "-" +:+ ing +:+ "-" +:+ shortHash ns ing host))) 63)
    as [_|Hle]; [|exact Hle].
  assert (Hh : len (shortHash ns ing host) = 8%Z)
    by (unfold len; now rewrite shortHash_length).
  rewrite Hh.
  destruct (Z.gtb_spec (63 - (len "pic" + 1 + len ns + 1) - (8 + 1)) 0) as [Hav|Hav].
  - unfold len in *. rewrite !length_append, shortHash_length.
    destruct (Z.gtb_spec (Z.of_nat (String.length ing))
                (63 - (Z.of_nat (String.length "pic") + 1 + Z.of_nat (String.length ns) + 1) - (8 + 1)))
      as [Hlong|Hshort].
    + rewrite substring_length by (simpl in *; lia). simpl in *. lia.
    + simpl in *. lia.
  - unfold len. rewrite !length_append, shortHash_length. simpl. lia.
Qed.

(** *** What does hold on every input *)

Lemma append_assoc (a b c : string) : (a +:+ b) +:+ c = a +:+ (b +:+ c).
Proof.
  induction a as [|x a IH]; [reflexivity|].
  change (String x ((a +:+ b) +:+ c) = String x (a +:+ (b +:+ c))). now rewrite IH.
Qed.

Lemma map_bytes_app (f : ascii -> ascii) (a b : string) :
  map_bytes f (a +:+ b) = map_bytes f a +:+ map_bytes f b.
Proof.
  induction a as [|x a IH]; [reflexivity|].
  change (String (f x) (map_bytes f (a +:+ b))
          = String (f x) (map_bytes f a +:+ map_bytes f b)).
  now rewrite IH.
Qed.

Lemma alnum_bytes_ok (s : string) :
  all_bytes lower_alnum s = true -> all_bytes name_byte_ok s = true.
Proof.
  induction s as [|c r IH]; simpl; [reflexivity|]. intros H.
  apply andb_true_iff in H as [Hc Hr]. now rewrite (lower_alnum_ok _ Hc), IH.
Qed.

Lemma hex_alnum (bs : list Z) : all_bytes lower_alnum (SHA256.EncodeToString bs) = true.
Proof.
  induction bs as [|x bs IH]; [reflexivity|].
  cbn [SHA256.EncodeToString all_bytes]. now rewrite !hexdigit_lower_alnum, IH.
Qed.

Lemma alnum_not_hyphen (c : ascii) : lower_alnum c = true -> Ascii.eqb c "-" = false.
Proof. destruct (Ascii.eqb_spec c "-") as [->|]; [discriminate | reflexivity]. Qed.

Lemma trim_right_alnum (h : string) :
  all_bytes lower_alnum h = true -> trim_right_hyphen h = h.
Proof.
  induction h as [|c r IH]; [reflexivity|]. cbn [all_bytes trim_right_hyphen]. intros H.
  apply andb_true_iff in H as [Hc Hr]. rewrite (IH Hr).
  destruct r; [now rewrite (alnum_not_hyphen _ Hc) | reflexivity].
Qed.

Lemma trim_right_keeps_suffix (a h : string) :
  all_bytes lower_alnum h = true -> h <> EmptyString ->
  trim_right_hyphen (a +:+ h) = a +:+ h.
Proof.
  intros Hh Hne. induction a as [|c a IH]; [now apply trim_right_alnum|].
  change (String c a +:+ h) with (String c (a +:+ h)).
  cbn [trim_right_hyphen]. rewrite IH.
  destruct (a +:+ h) eqn:E; [|reflexivity].
  destruct a; [simpl in E; contradiction | discriminate E].
Qed.

Lemma replace_alnum (h : string) :
  all_bytes lower_alnum h = true -> replace_from "--" "-" h 0 = h.
Proof.
  induction h as [|c r IH]; [reflexivity|]. cbn [all_bytes]. intros H.
  apply andb_true_iff in H as [Hc Hr]. cbn [replace_from]. rewrite prefix_cons.
  rewrite Ascii.eqb_sym, (alnum_not_hyphen _ Hc). cbn [andb]. now rewrite (IH Hr).
Qed.

Lemma prefix_hyphens_app (c : ascii) (a h : string) :
  all_bytes lower_alnum h = true ->
  String.prefix "--" (String c (a +:+ h)) = String.prefix "--" (String c a).
Proof.
  intros Hh. rewrite !prefix_cons. f_equal. destruct a as [|d a].
  - destruct h as [|x h]; [reflexivity|].
    change ("" +:+ String x h) with (String x h). rewrite prefix_cons.
    cbn [all_bytes] in Hh. apply andb_true_iff in Hh as [Hx _].
    now rewrite Ascii.eqb_sym, (alnum_not_hyphen _ Hx).
  - change (String d a +:+ h) with (String d (a +:+ h)).
    rewrite !prefix_cons. f_equal. now destruct a, h.
Qed.

Lemma replace_keeps_suffix (a h : string) (skip : nat) :
  all_bytes lower_alnum h = true -> (skip <= String.length a)%nat ->
  replace_from "--" "-" (a +:+ h) skip = replace_from "--" "-" a skip +:+ h.
Proof.
  intros Hh. revert skip. induction a as [|c a IH]; intros skip Hskip.
  - cbn [String.length] in Hskip. replace skip with 0%nat by lia. now apply replace_alnum.
  - change (String c a +:+ h) with (String c (a +:+ h)).
    cbn [replace_from]. destruct skip as [|k].
    + rewrite (prefix_hyphens_app c a h Hh).
      destruct (String.prefix "--" (String c a)) eqn:Hp.
      * rewrite prefix_cons in Hp. apply andb_true_iff in Hp as [_ Hp].
        destruct a as [|d a]; [discriminate Hp|].
        rewrite IH by (simpl; lia). reflexivity.
      * now rewrite IH by lia.
    + apply IH. cbn [String.length] in Hskip. lia.
Qed.

Lemma ReplaceAll_pic (t : string) :
  ReplaceAll ("pic" +:+ t) "--" "-" = "pic" +:+ ReplaceAll t "--" "-".
Proof.
  unfold ReplaceAll.
  change ("pic" +:+ t) with (String "p" (String "i" (String "c" t))).
  cbn [replace_from]. now rewrite !prefix_cons.
Qed.

Lemma collapse_keeps_shape (fuel : nat) (t h : string) :
  all_bytes lower_alnum h = true ->
  exists t', collapse_hyphens fuel ("pic" +:+ t +:+ h) = "pic" +:+ t' +:+ h.
Proof.
  intros Hh. revert t. induction fuel as [|fuel IH]; intros t; [now exists t|].
  cbn [collapse_hyphens]. destruct (Contains ("pic" +:+ t +:+ h) "--"); [|now exists t].
  rewrite ReplaceAll_pic. unfold ReplaceAll.
  rewrite (replace_keeps_suffix t h 0 Hh) by lia. apply IH.
Qed.

(** Whatever the input, the sanitized name of [pic-...-<fingerprint>] still
    starts with [pic] and ends with the fingerprint. *)
Lemma sanitizeName_keeps_shape (x h : string) :
  all_bytes lower_alnum h = true -> h <> EmptyString ->
  exists t, sanitizeName ("pic-" +:+ x +:+ "-" +:+ h) = "pic" +:+ t +:+ h.
Proof.
  intros Hh Hne. unfold sanitizeName, ToLower, TrimHyphen.
  rewrite !map_bytes_app.
  rewrite (map_bytes_id lower_byte h (alnum_bytes_ok h Hh) name_byte_ok_lower).
  rewrite (map_bytes_id _ h (alnum_bytes_ok h Hh)) by (intros c ->; reflexivity).
  set (x' := map_bytes _ (map_bytes lower_byte x)).
  change (map_bytes _ (map_bytes lower_byte "pic-")) with "pic-".
  change (map_bytes _ (map_bytes lower_byte "-")) with "-".
  change ("pic-" +:+ x' +:+ "-" +:+ h) with (String "p" ("ic-" +:+ x' +:+ "-" +:+ h)).
  cbn [trim_left_hyphen].
  change (String "p" ("ic-" +:+ x' +:+ "-" +:+ h)) with ("pic-" +:+ x' +:+ "-" +:+ h).
  replace ("pic-" +:+ x' +:+ "-" +:+ h) with (("pic-" +:+ x' +:+ "-") +:+ h)
    by (now rewrite !append_assoc).
  rewrite (trim_right_keeps_suffix _ h Hh Hne).
  replace (("pic-" +:+ x' +:+ "-") +:+ h) with ("pic" +:+ ("-" +:+ x' +:+ "-") +:+ h)
    by (now rewrite !append_assoc).
  apply collapse_keeps_shape, Hh.
Qed.

Lemma shortHash_alnum (ns ing host : string) :
  all_bytes lower_alnum (shortHash ns ing host) = true.
Proof. apply hex_alnum. Qed.

Lemma shortHash_not_empty (ns ing host : string) : shortHash ns ing host <> EmptyString.
Proof.
  intros H. apply (f_equal String.length) in H. rewrite shortHash_length in H. discriminate H.
Qed.

(** On every input the name is at most 63 bytes long, starts with the
    [pic] prefix and ends with the whole fingerprint. *)
Lemma GenerateName_shape (ns ing host : string) :
  (len (GenerateName ns ing host) <= 63)%Z
  /\ exists middle, GenerateName ns ing host = "pic" +:+ middle +:+ shortHash ns ing host.
Proof.
  split; [apply GenerateName_length|].
  unfold GenerateName, NamePrefix.
  destruct (len (sanitizeName _) >? MaxNameLength)%Z.
  - destruct (_ >? 0)%Z.
    + match goal with
      | |- exists m, _ +:+ _ +:+ _ +:+ _ +:+ ?t +:+ _ +:+ _ = _ =>
          exists ("-" +:+ ns +:+ "-" +:+ t +:+ "-")
      end.
      now rewrite !append_assoc.
    + now exists "-".
  - replace ("pic" +:+ "-" +:+ ns +:+ "-" +:+ ing +:+ "-" +:+ shortHash ns ing host)
      with ("pic-" +:+ (ns +:+ "-" +:+ ing) +:+ "-" +:+ shortHash ns ing host)
      by (rewrite !append_assoc; reflexivity).
    apply sanitizeName_keeps_shape; [apply shortHash_alnum | apply shortHash_not_empty].
Qed.

(** C3 (code defect). When the sanitized name is longer than 63 bytes the
    name is put together again from the raw namespace and the cut Ingress
    name, and is not sanitized again. For the Ingress [x.aaa...a] (62 bytes)
    of namespace [default] the result has a dot in it; for the Ingress
    [aaa...a-aaa...a] of namespace [a], cut right after its hyphen, it has
    two hyphens in a row. *)
Theorem GenerateName_truncated_not_sanitized :
  GenerateName "default" dotted_ingress_name "h"
    = "pic-default-x.aaaaaaaaaaaaaaaaaaaaaaaaaaaaaaaaaaaaaaaa-79438204"
  /\ all_bytes name_byte_ok (GenerateName "default" dotted_ingress_name "h") = false
  /\ is_label "a" = true /\ is_label hyphen_ingress_name = true
  /\ GenerateName "a" hyphen_ingress_name "h"
     = "pic-a-aaaaaaaaaaaaaaaaaaaaaaaaaaaaaaaaaaaaaaaaaaaaaaa--bb1e4136"
  /\ Contains (GenerateName "a" hyphen_ingress_name "h") "--" = true.
Proof. vm_compute. repeat split. Qed.

(** ** The host grouper *)

Lemma add_events_nil (c : Cluster) : add_events [] c = c.
Proof. destruct c. unfold add_events. simpl. now rewrite app_nil_r. Qed.

Lemma add_events_app (e1 e2 : list Event) (c : Cluster) :
  add_events e2 (add_events e1 c) = add_events (e1 ++ e2) c.
Proof. unfold add_events. simpl. now rewrite app_assoc. Qed.

Lemma RecordEvent_add (ing : Ingress) (t : EventType) (reason message : string) (c : Cluster) :
  RecordEvent ing t reason message c
  = (tt, add_events [ {| Event_Namespace := Ingress_Namespace ing;
                         Event_Ingress := Ingress_Name ing; Event_Type := t;
                         Event_Reason := reason; Event_Message := message |} ] c).
Proof. reflexivity. Qed.

Lemma collectRules_run (ing : Ingress) (rules : list IngressRule)
    (hostMap : gmap string (list HTTPIngressPath)) (c : Cluster) :
  collectRules ing rules hostMap c
  = (hostMapOf rules hostMap,
     add_events (map (fun _ => EmptyHostEvent ing) (emptyHostRules rules)) c).
Proof.
  revert hostMap c. induction rules as [|rule rest IH]; intros hostMap c.
  - simpl. now rewrite add_events_nil.
  - cbn [collectRules hostMapOf emptyHostRules List.filter].
    destruct (String.eqb (Rule_Host rule) "") eqn:Hhost.
    + unfold bind. rewrite RecordEvent_add, IH, add_events_app. reflexivity.
    + destruct (Rule_HTTP rule); apply IH.
Qed.

Lemma paths_of_host_cons (h : string) (rule : IngressRule) (rest : list IngressRule) :
  paths_of_host h (rule :: rest)
  = (if String.eqb (Rule_Host rule) h then rule_paths rule else []) ++ paths_of_host h rest.
Proof.
  unfold paths_of_host. simpl. destruct (String.eqb (Rule_Host rule) h); reflexivity.
Qed.

Lemma paths_of_host_none (h : string) (rules : list IngressRule) :
  existsb (contributes h) rules = false -> paths_of_host h rules = [].
Proof.
  induction rules as [|rule rest IH]; [reflexivity|].
  simpl. intros H. apply orb_false_elim in H as [Hr Hrest].
  rewrite paths_of_host_cons, (IH Hrest). unfold contributes, rule_paths in *.
  destruct (String.eqb (Rule_Host rule) h); [|reflexivity].
  destruct (Rule_HTTP rule); [discriminate Hr | reflexivity].
Qed.

Lemma hostMapOf_lookup_empty (rules : list IngressRule)
    (hostMap : gmap string (list HTTPIngressPath)) :
  hostMapOf rules hostMap !! "" = hostMap !! "".
Proof.
  revert hostMap. induction rules as [|rule rest IH]; intros hostMap; [reflexivity|].
  cbn [hostMapOf]. destruct (String.eqb_spec (Rule_Host rule) "") as [E|N]; [apply IH|].
  destruct (Rule_HTTP rule); rewrite IH; [|reflexivity].
  now rewrite lookup_insert_ne.
Qed.

Lemma hostMapOf_lookup (rules : list IngressRule)
    (hostMap : gmap string (list HTTPIngressPath)) (h : string) :
  h <> "" ->
  hostMapOf rules hostMap !! h
  = if existsb (contributes h) rules
    then Some (default [] (hostMap !! h) ++ paths_of_host h rules)
    else hostMap !! h.
Proof.
  intros Hne. revert hostMap. induction rules as [|rule rest IH]; intros hostMap.
  - reflexivity.
  - cbn [hostMapOf existsb]. rewrite paths_of_host_cons. unfold contributes at 1, rule_paths.
    destruct (String.eqb_spec (Rule_Host rule) "") as [E|N].
    + rewrite IH.
      destruct (String.eqb_spec (Rule_Host rule) h) as [Eh|_]; [congruence|].
      reflexivity.
    + destruct (Rule_HTTP rule) as [http|].
      * rewrite IH.
        destruct (String.eqb_spec (Rule_Host rule) h) as [Eh|Nh].
        -- rewrite <- Eh in *. rewrite lookup_insert_eq. simpl.
           destruct (existsb (contributes (Rule_Host rule)) rest) eqn:Hex.
           ++ now rewrite app_assoc.
           ++ now rewrite (paths_of_host_none _ _ Hex), app_nil_r.
        -- rewrite lookup_insert_ne by exact Nh. reflexivity.
      * rewrite IH, andb_false_r. simpl.
        destruct (String.eqb (Rule_Host rule) h); reflexivity.
Qed.

Lemma contributes_exists (h : string) (rules : list IngressRule) :
  existsb (contributes h) rules = true <->
  exists rule, In rule rules /\ Rule_Host rule = h /\ Rule_HTTP rule <> None.
Proof.
  rewrite existsb_exists. unfold contributes.
  split; intros (rule & Hin & H); exists rule; (split; [exact Hin|]).
  - apply andb_true_iff in H as [Hh Hp]. apply String.eqb_eq in Hh.
    destruct (Rule_HTTP rule); [split; [exact Hh | discriminate] | discriminate].
  - destruct H as [-> Hp]. rewrite String.eqb_refl.
    destruct (Rule_HTTP rule); [reflexivity | contradiction].
Qed.

Lemma range_lookup (order : RangeOrder) (m : gmap string (list HTTPIngressPath))
    (h : string) (ps : list HTTPIngressPath) :
  range_ok order -> (In (h, ps) (order m) <-> m !! h = Some ps).
Proof.
  intros Hok. rewrite <- elem_of_map_to_list, list_elem_of_In.
  split; apply Permutation_in; [apply Hok | symmetry; apply Hok].
Qed.

(** On every value of the Go type: [collectHostPaths] records one
    [EmptyHost] warning per rule with an empty host and touches nothing else
    in the cluster; it returns one group per non-empty host that has a rule
    with an HTTP section, no host twice, no group for any other host, and the
    paths of a group are the paths of the rules of its host, rule after rule,
    each rule's paths in their order. *)
Lemma collectHostPaths_by_section (order : RangeOrder) (ing : Ingress) (c : Cluster) :
  range_ok order ->
  let groups := fst (collectHostPaths order ing c) in
  let c' := snd (collectHostPaths order ing c) in
  events c' = events c ++ map (fun _ => EmptyHostEvent ing)
                            (List.filter (fun rule => String.eqb (Rule_Host rule) "")
                                         (Ingress_Rules ing))
  /\ resources c' = resources c /\ calls c' = calls c
  /\ NoDup (map Group_Host groups)
  /\ (forall h, In h (map Group_Host groups) <->
                h <> "" /\ exists rule, In rule (Ingress_Rules ing)
                                        /\ Rule_Host rule = h /\ Rule_HTTP rule <> None)
  /\ (forall g, In g groups ->
                Group_Paths g = paths_of_host (Group_Host g) (Ingress_Rules ing)).
Proof.
  intros Hok. unfold collectHostPaths, bind. rewrite collectRules_run.
  cbn [fst snd ret].
  set (m := hostMapOf (Ingress_Rules ing) ∅).
  assert (Hm : forall h ps, m !! h = Some ps <->
                 h <> "" /\ existsb (contributes h) (Ingress_Rules ing) = true
                 /\ ps = paths_of_host h (Ingress_Rules ing)).
  { intros h ps. unfold m.
    destruct (String.eqb_spec h "") as [E|Hne].
    - rewrite E, hostMapOf_lookup_empty, lookup_empty.
      split; [discriminate | intros [H _]; contradiction].
    - rewrite (hostMapOf_lookup _ _ _ Hne), lookup_empty.
      destruct (existsb (contributes h) (Ingress_Rules ing)); simpl.
      + split; [intros [= <-]; auto | intros (_ & _ & ->); reflexivity].
      + split; [discriminate | intros (_ & H & _); discriminate]. }
  repeat split; try reflexivity.
  - rewrite map_map. cbn [Group_Host].
    assert (Hp : Permutation (map fst (order m)) ((map_to_list m).*1))
      by (apply (Permutation_map fst), Hok).
    change (NoDup (map fst (order m))). rewrite Hp. apply NoDup_fst_map_to_list.
  - rewrite map_map in H. cbn [Group_Host] in H.
    apply in_map_iff in H as ([h' ps] & <- & Hin).
    apply (range_lookup order m h' ps Hok), Hm in Hin. apply Hin.
  - rewrite map_map in H. cbn [Group_Host] in H.
    apply in_map_iff in H as ([h' ps] & <- & Hin).
    apply (range_lookup order m h' ps Hok), Hm in Hin as (_ & Hex & _).
    now apply contributes_exists.
  - intros [Hne Hex]. apply contributes_exists in Hex.
    rewrite map_map. cbn [Group_Host]. apply in_map_iff.
    exists (h, paths_of_host h (Ingress_Rules ing)). split; [reflexivity|].
    apply (range_lookup order m _ _ Hok), Hm. auto.
  - intros g Hin. apply in_map_iff in Hin as ([h ps] & <- & Hin). cbn [Group_Host Group_Paths fst snd].
    apply (range_lookup order m h ps Hok), Hm in Hin. apply Hin.
Qed.

Lemma range_ok_fwd : range_ok order_fwd.
Proof. intros m. reflexivity. Qed.

Lemma range_ok_rev : range_ok order_rev.
Proof. intros m. unfold order_rev. symmetry. apply Permutation_rev. Qed.

Lemma rule_paths_section (rules : list IngressRule) (rule : IngressRule) :
  sections_have_paths rules = true -> In rule rules ->
  (rule_paths rule <> [] <-> Rule_HTTP rule <> None).
Proof.
  intros Hall Hin. unfold sections_have_paths in Hall.
  rewrite forallb_forall in Hall. specialize (Hall rule Hin). unfold rule_paths.
  destruct (Rule_HTTP rule) as [http|].
  - split; [discriminate|]. intros _ E. rewrite E in Hall. discriminate Hall.
  - split; intros H; now contradiction H.
Qed.

Lemma paths_of_host_not_empty (h : string) (rules : list IngressRule) (rule : IngressRule) :
  In rule rules -> Rule_Host rule = h -> rule_paths rule <> [] ->
  paths_of_host h rules <> [].
Proof.
  intros Hin Hh Hne. destruct (rule_paths rule) as [|x l] eqn:E; [now contradiction Hne|].
  assert (Hx : In x (paths_of_host h rules)).
  { unfold paths_of_host. apply in_flat_map. exists rule. split.
    - apply filter_In. split; [exact Hin | now apply String.eqb_eq].
    - rewrite E. now left. }
  intros E'. rewrite E' in Hx. destruct Hx.
Qed.

(** C6. Take the rules of an Ingress as the API server holds them, every
    HTTP section with at least one path. [collectHostPaths] records one
    [EmptyHost] warning per rule with an empty host and touches nothing else
    in the cluster; no group has the empty host, so such a rule is merged
    into none. It returns exactly one group per non-empty host to which a
    rule contributed paths and no group for any other host; the paths of a
    group are the paths of the rules of its host, rule after rule, each
    rule's paths in their order, and there is at least one. This holds for
    every order in which [range] may visit the map. *)
Theorem collectHostPaths_groups (order : RangeOrder) (ing : Ingress) (c : Cluster) :
  range_ok order ->
  sections_have_paths (Ingress_Rules ing) = true ->
  let groups := fst (collectHostPaths order ing c) in
  let c' := snd (collectHostPaths order ing c) in
  events c' = events c ++ map (fun _ => EmptyHostEvent ing)
                            (List.filter (fun rule => String.eqb (Rule_Host rule) "")
                                         (Ingress_Rules ing))
  /\ resources c' = resources c /\ calls c' = calls c
  /\ NoDup (map Group_Host groups)
  /\ (forall h, In h (map Group_Host groups) <->
                h <> "" /\ exists rule, In rule (Ingress_Rules ing)
                                        /\ Rule_Host rule = h /\ rule_paths rule <> [])
  /\ (forall g, In g groups ->
                Group_Paths g = paths_of_host (Group_Host g) (Ingress_Rules ing)
                /\ Group_Paths g <> []).
Proof.
  intros Hok Hall groups c'.
  destruct (collectHostPaths_by_section order ing c Hok)
    as (Hev & Hres & Hcalls & Hnd & Hhosts & Hpaths).
  fold groups in Hnd, Hhosts, Hpaths. fold c' in Hev, Hres, Hcalls.
  assert (Hiff : forall h, In h (map Group_Host groups) <->
                   h <> "" /\ exists rule, In rule (Ingress_Rules ing)
                                           /\ Rule_Host rule = h /\ rule_paths rule <> []).
  { intros h. rewrite Hhosts. split; intros (Hne & rule & Hin & Hh & Hr);
      (split; [exact Hne|]); exists rule; (split; [exact Hin|]); (split; [exact Hh|]);
      now apply (rule_paths_section (Ingress_Rules ing) rule Hall Hin). }
  repeat split; try assumption; try (now apply Hiff).
  - now apply Hpaths.
  - rewrite (Hpaths g H).
    destruct (proj1 (Hiff (Group_Host g)) (in_map Group_Host groups g H))
      as (_ & rule & Hin & Hh & Hr).
    exact (paths_of_host_not_empty _ _ rule Hin Hh Hr).
Qed.

Lemma collectHostPaths_groups_witness :
  range_ok order_fwd
  /\ sections_have_paths (Ingress_Rules ingress_merge) = true
  /\ forall g,
       In g (fst (collectHostPaths order_fwd ingress_merge (cluster_of ingress_merge []))) ->
       Group_Paths g = paths_of_host (Group_Host g) (Ingress_Rules ingress_merge)
       /\ Group_Paths g <> [].
Proof.
  split; [intros m; reflexivity|]. split; [reflexivity|].
  exact (proj2 (proj2 (proj2 (proj2 (proj2
    (collectHostPaths_groups order_fwd ingress_merge (cluster_of ingress_merge [])
       (fun m => Permutation_refl _) eq_refl)))))).
Defined.

(** Outside the rules that an API server admits: an HTTP section without any
    path still enters its host in the map, and the host gets a group whose
    path list is empty. *)
Example collectHostPaths_empty_section :
  sections_have_paths (Ingress_Rules ingress_empty_section) = false
  /\ In {| Group_Host := "b.example.com"; Group_Paths := [] |}
        (fst (collectHostPaths order_fwd ingress_empty_section
                (cluster_of ingress_empty_section []))).
Proof. split; [reflexivity|]. vm_compute. tauto. Qed.

Example collectHostPaths_merge :
  fst (collectHostPaths order_fwd ingress_merge (cluster_of ingress_merge []))
  = [ {| Group_Host := "a.example.com";
         Group_Paths := [ service_path "/" "svc-a" 80; service_path "/x" "svc-x" 80;
                          service_path "/y" "svc-y" 80 ] |} ]
  /\ map Event_Reason (events (snd (collectHostPaths order_fwd ingress_merge
                                      (cluster_of ingress_merge []))))
     = ["EmptyHost"].
Proof. vm_compute. split; reflexivity. Qed.

(** C9 (code defect). The groups come out in the order in which [range]
    visits the map, and [collectHostPaths] does not sort them: on the same
    Ingress with two hosts, two visiting orders that the Go runtime may pick
    give the two groups in opposite sequence. *)
Theorem collectHostPaths_order_not_fixed :
  range_ok order_fwd /\ range_ok order_rev /\
  map Group_Host (fst (collectHostPaths order_fwd ingress_two_hosts
                         (cluster_of ingress_two_hosts [])))
    = ["api.example.com"; "app.example.com"] /\
  map Group_Host (fst (collectHostPaths order_rev ingress_two_hosts
                         (cluster_of ingress_two_hosts [])))
    = ["app.example.com"; "api.example.com"].
Proof.
  split; [exact range_ok_fwd|]. split; [exact range_ok_rev|].
  split; vm_compute; reflexivity.
Qed.

(** ** The target builder *)

Lemma buildTargets_nil (r : IngressReconciler) (ing : Ingress) (paths : list HTTPIngressPath) :
  buildTargets r ing paths = [] <->
  Forall (fun p => Backend_Service (Path_Backend p) = None) paths.
Proof.
  induction paths as [|p paths IH]; simpl.
  - split; [constructor | reflexivity].
  - destruct (Backend_Service (Path_Backend p)) eqn:Hs.
    + split; [discriminate|]. intros H. inversion H; subst. congruence.
    + rewrite IH. split; [now constructor|]. intros H. now inversion H.
Qed.

Lemma length_zero_nil {A} (l : list A) : Nat.eqb (length l) 0 = true <-> l = [].
Proof. destruct l; simpl; split; congruence. Qed.

(** The claim that the build fails only for want of targets does not hold:
    the wildcard host is refused although its path has a service backend. *)
Lemma build_fails_with_a_valid_backend :
  ~ Forall (fun p => Backend_Service (Path_Backend p) = None) [service_path "/" "svc-a" 80]
  /\ buildTargets reconciler0 ingress_two_hosts [service_path "/" "svc-a" 80] <> []
  /\ buildDesiredPangolinResource SplitHost_model reconciler0 ingress_two_hosts
       "*.example.com" [service_path "/" "svc-a" 80] "default" "pangolin-system"
     = inl (ErrInvalidHost "*.example.com" "wildcard hosts are not supported").
Proof.
  split; [|split]; [|discriminate | reflexivity].
  intros H. inversion H; subst. discriminate.
Qed.

(** C7, amended. [buildDesiredPangolinResource] fails exactly when
    [SplitHost] refuses the host or no path has a service backend; a resource
    that it returns has the targets of the paths, at least one; and for a
    group whose build failed [processHosts] records the [InvalidHost] warning
    and goes on to the next group: it reads and writes no resource. *)
Theorem buildDesired_error_iff
    (SplitHost : string -> string + (string * string)) (r : IngressReconciler)
    (ing : Ingress) (host : string) (paths : list HTTPIngressPath)
    (tunnelName tunnelNamespace : string) :
  ((exists err, buildDesiredPangolinResource SplitHost r ing host paths tunnelName
                  tunnelNamespace = inl err)
   <-> (exists cause, SplitHost host = inl cause)
       \/ Forall (fun p => Backend_Service (Path_Backend p) = None) paths)
  /\ (forall x, buildDesiredPangolinResource SplitHost r ing host paths tunnelName
                  tunnelNamespace = inr x ->
                Spec_Targets (Resource_Spec x) = buildTargets r ing paths
                /\ Spec_Targets (Resource_Spec x) <> [])
  /\ (forall err rest desiredNames c,
        buildDesiredPangolinResource SplitHost r ing host paths tunnelName
          tunnelNamespace = inl err ->
        processGroups SplitHost r ing tunnelName tunnelNamespace
          ({| Group_Host := host; Group_Paths := paths |} :: rest) desiredNames c
        = processGroups SplitHost r ing tunnelName tunnelNamespace rest desiredNames
            (add_events [ {| Event_Namespace := Ingress_Namespace ing;
                             Event_Ingress := Ingress_Name ing;
                             Event_Type := EventTypeWarning;
                             Event_Reason := "InvalidHost";
                             Event_Message := "Host " +:+ quote host +:+ ": " +:+ Error err |} ]
                        c)).
Proof.
  split; [|split].
  - rewrite <- (buildTargets_nil r ing). unfold buildDesiredPangolinResource.
    destruct (SplitHost host) as [cause|[subdomain domain]].
    + split; [intros _; left | intros _]; eexists; reflexivity.
    + destruct (Nat.eqb (length (buildTargets r ing paths)) 0) eqn:Hlen.
      * apply length_zero_nil in Hlen.
        split; [intros _; now right | intros _; eexists; reflexivity].
      * split; [intros [err H]; discriminate H|].
        intros [[cause H]|H]; [discriminate H|].
        apply length_zero_nil in H. congruence.
  - intros x. unfold buildDesiredPangolinResource.
    destruct (SplitHost host) as [cause|[subdomain domain]]; [discriminate|].
    destruct (Nat.eqb (length (buildTargets r ing paths)) 0) eqn:Hlen; [discriminate|].
    intros [= <-]. cbn [Resource_Spec Spec_Targets]. split; [reflexivity|].
    intros H. rewrite H in Hlen. discriminate Hlen.
  - intros err rest desiredNames c H.
    cbn [processGroups Group_Host Group_Paths]. rewrite H. reflexivity.
Qed.

Lemma buildDesired_error_iff_witness :
  buildDesiredPangolinResource SplitHost_model reconciler0 ingress_two_hosts
    "app.example.com" [service_path "/" "svc-a" 80] "default" "pangolin-system"
  = inr (resource_app)
  /\ Spec_Targets (Resource_Spec resource_app) <> [].
Proof.
  split; [reflexivity|].
  exact (proj2 (proj1 (proj2 (buildDesired_error_iff SplitHost_model reconciler0
           ingress_two_hosts "app.example.com" [service_path "/" "svc-a" 80]
           "default" "pangolin-system")) resource_app eq_refl)).
Defined.

(** ** The object store *)

Lemma find_app {A} (p : A -> bool) (l1 l2 : list A) :
  List.find p (l1 ++ l2)
  = match List.find p l1 with Some x => Some x | None => List.find p l2 end.
Proof.
  induction l1 as [|a l1 IH]; simpl; [reflexivity|]. destruct (p a); [reflexivity | exact IH].
Qed.

Lemma find_filter_keep {A} (p q : A -> bool) (l : list A) :
  (forall y, In y l -> p y = true -> q y = true) ->
  List.find p (List.filter q l) = List.find p l.
Proof.
  induction l as [|a l IH]; intros H; simpl; [reflexivity|].
  destruct (q a) eqn:Hq; simpl.
  - destruct (p a); [reflexivity|]. apply IH. intros y Hy. apply H. now right.
  - destruct (p a) eqn:Hp.
    + rewrite (H a (or_introl eq_refl) Hp) in Hq. discriminate Hq.
    + apply IH. intros y Hy. apply H. now right.
Qed.

Lemma find_map_other {A} (p : A -> bool) (f : A -> A) (l : list A) :
  (forall y, p (f y) = p y) -> (forall y, p y = true -> f y = y) ->
  List.find p (map f l) = List.find p l.
Proof.
  intros Hp Hf. induction l as [|a l IH]; simpl; [reflexivity|].
  rewrite Hp. destruct (p a) eqn:Ha; [now rewrite Hf | exact IH].
Qed.

Lemma find_map_replace {A} (p : A -> bool) (x' : A) (l : list A) :
  p x' = true ->
  List.find p (map (fun y => if p y then x' else y) l)
  = match List.find p l with Some _ => Some x' | None => None end.
Proof.
  intros Hx. induction l as [|a l IH]; simpl; [reflexivity|].
  destruct (p a) eqn:Ha; [now rewrite Hx | now rewrite Ha].
Qed.

Lemma filter_filter {A} (p q : A -> bool) (l : list A) :
  List.filter q (List.filter p l) = List.filter (fun y => p y && q y) l.
Proof.
  induction l as [|a l IH]; simpl; [reflexivity|].
  destruct (p a); simpl; [destruct (q a); now rewrite IH | exact IH].
Qed.

Lemma filter_find_none {A} (p : A -> bool) (l : list A) :
  List.find p l = None -> List.filter (fun y => negb (p y)) l = l.
Proof.
  induction l as [|a l IH]; simpl; [reflexivity|].
  destruct (p a); [discriminate|]. intros H. simpl. now rewrite IH.
Qed.

Lemma same_object_eq (namespace name : string) (x : PangolinResource) :
  same_object namespace name x = true <->
  Resource_Namespace x = namespace /\ Resource_Name x = name.
Proof. unfold same_object. now rewrite andb_true_iff, !String.eqb_eq. Qed.

Lemma same_object_self (x : PangolinResource) :
  same_object (Resource_Namespace x) (Resource_Name x) x = true.
Proof. now apply same_object_eq. Qed.

Lemma same_object_other (ns n ns' n' : string) (x : PangolinResource) :
  ns' <> ns \/ n' <> n -> same_object ns n x = true -> same_object ns' n' x = false.
Proof.
  intros Hne Hx. apply same_object_eq in Hx as [<- <-].
  apply not_true_is_false. rewrite same_object_eq. intros [E1 E2]. destruct Hne; congruence.
Qed.

Lemma lookup_resource_some (ns n : string) (l : list PangolinResource) (x : PangolinResource) :
  lookup_resource ns n l = Some x ->
  In x l /\ Resource_Namespace x = ns /\ Resource_Name x = n.
Proof.
  intros H. apply find_some in H as [Hin Hx]. now apply same_object_eq in Hx.
Qed.

Lemma Delete_run (x : PangolinResource) (c : Cluster) :
  exists err, Delete x c = (err, after_delete x c)
              /\ (err = None \/ err = Some ErrNotFound).
Proof.
  unfold Delete, bind, record_call, GetResource, set_resources, ret, after_delete. cbn [resources].
  destruct (lookup_resource (Resource_Namespace x) (Resource_Name x) (resources c)) eqn:Hl.
  - exists None. split; [reflexivity | now left].
  - exists (Some ErrNotFound). split; [|now right].
    unfold lookup_resource in Hl. rewrite (filter_find_none _ _ Hl). reflexivity.
Qed.

Lemma reconcile_noop (ing : Ingress) (d x : PangolinResource) (c : Cluster) :
  lookup_resource (Resource_Namespace d) (Resource_Name d) (resources c) = Some x ->
  specChanged (Resource_Spec x) (Resource_Spec d) = false ->
  reconcilePangolinResource ing d c = (None, c).
Proof.
  intros Hl Hs. unfold reconcilePangolinResource, bind, GetResource. now rewrite Hl, Hs.
Qed.

(** What [reconcilePangolinResource] leaves behind: no error, the object of
    the desired name is there with a spec that [specChanged] accepts, and
    the objects of other names are as they were. *)
Lemma reconcile_run (ing : Ingress) (d : PangolinResource) (c : Cluster) :
  exists c',
    reconcilePangolinResource ing d c = (None, c')
    /\ ingresses c' = ingresses c /\ tunnels c' = tunnels c
    /\ (exists x, lookup_resource (Resource_Namespace d) (Resource_Name d) (resources c')
                  = Some x
                  /\ specChanged (Resource_Spec x) (Resource_Spec d) = false)
    /\ (forall ns n, ns <> Resource_Namespace d \/ n <> Resource_Name d ->
                     lookup_resource ns n (resources c') = lookup_resource ns n (resources c)).
Proof.
  unfold reconcilePangolinResource, bind, GetResource.
  destruct (lookup_resource (Resource_Namespace d) (Resource_Name d) (resources c))
    as [x|] eqn:Hl.
  - destruct (specChanged (Resource_Spec x) (Resource_Spec d)) eqn:Hs.
    + (* Update *)
      apply lookup_resource_some in Hl as Hx. destruct Hx as (_ & Hns & Hn).
      unfold Update, bind, record_call, GetResource, set_resources, ret, RecordEvent.
      cbn [resources withSpec Resource_Namespace Resource_Name].
      rewrite Hns, Hn, Hl. eexists. split; [reflexivity|]. cbn [ingresses tunnels resources].
      split; [reflexivity|]. split; [reflexivity|]. split.
      * exists (withSpec x (Resource_Spec d)). split; [|apply specChanged_refl].
        unfold lookup_resource in *. rewrite find_map_replace, Hl; [reflexivity|].
        apply same_object_eq. now split.
      * intros ns n Hne. unfold lookup_resource. apply find_map_other.
        -- intros y. destruct (same_object _ _ y) eqn:Hy; [|reflexivity].
           rewrite (same_object_other _ _ _ _ y Hne Hy).
           apply (same_object_other (Resource_Namespace d) (Resource_Name d)); [exact Hne|].
           apply same_object_eq. now split.
        -- intros y Hy.
           destruct (same_object (Resource_Namespace d) (Resource_Name d) y) eqn:Hy';
             [|reflexivity].
           rewrite (same_object_other _ _ _ _ y Hne Hy') in Hy. discriminate Hy.
    + exists c. repeat split; try reflexivity. exists x. now split.
  - (* Create *)
    cbn [IsNotFound].
    unfold Create, bind, record_call, GetResource, set_resources, ret, RecordEvent.
    cbn [resources]. rewrite Hl. eexists. split; [reflexivity|].
    cbn [ingresses tunnels resources].
    split; [reflexivity|]. split; [reflexivity|]. split.
    + exists d. split; [|apply specChanged_refl].
      unfold lookup_resource in *. rewrite find_app, Hl. simpl.
      now rewrite same_object_self.
    + intros ns n Hne. unfold lookup_resource. rewrite find_app.
      destruct (List.find (same_object ns n) (resources c)); [reflexivity|]. simpl.
      now rewrite (same_object_other _ _ _ _ d Hne (same_object_self d)).
Qed.

(** ** Orphan cleanup *)

Lemma filter_all {A} (p : A -> bool) (l : list A) :
  (forall y, p y = true) -> List.filter p l = l.
Proof.
  intros H. induction l as [|a l IH]; simpl; [reflexivity|]. now rewrite H, IH.
Qed.

Lemma deleteOrphans_run (ing : Ingress) (desiredNames : gmap string bool)
    (items : list PangolinResource) (c : Cluster) :
  deleteOrphans ing desiredNames items c = (None, after_cleanup ing desiredNames items c).
Proof.
  revert c. induction items as [|x rest IH]; intros c.
  - unfold after_cleanup. simpl. rewrite filter_all by reflexivity.
    rewrite !app_nil_r. now destruct c.
  - cbn [deleteOrphans]. fold (is_orphan desiredNames x).
    destruct (is_orphan desiredNames x) eqn:Ho.
    + assert (Hgo : deleteOrphans ing desiredNames (x :: rest) c
                    = deleteOrphans ing desiredNames rest
                        (add_events [DeletedEvent ing x] (after_delete x c))).
      { cbn [deleteOrphans]. fold (is_orphan desiredNames x). rewrite Ho.
        unfold bind. destruct (Delete_run x c) as (err & -> & [->| ->]); reflexivity. }
      cbn [deleteOrphans] in Hgo. fold (is_orphan desiredNames x) in Hgo.
      rewrite Ho in Hgo. rewrite Hgo, IH.
      unfold after_cleanup, add_events, after_delete. cbn [ingresses tunnels resources calls events].
      f_equal. f_equal.
      * rewrite filter_filter. apply List.filter_ext. intros y. cbn [existsb].
        rewrite Ho. simpl. now rewrite negb_orb.
      * cbn [List.filter]. rewrite Ho. simpl. now rewrite <- app_assoc.
      * cbn [List.filter]. rewrite Ho. simpl. now rewrite <- app_assoc.
    + rewrite IH. unfold after_cleanup. cbn [List.filter existsb]. rewrite Ho. reflexivity.
Qed.

Lemma after_cleanup_noop (ing : Ingress) (desiredNames : gmap string bool)
    (items : list PangolinResource) (c : Cluster) :
  (forall x, In x items -> index_bool desiredNames (Resource_Name x) = true) ->
  after_cleanup ing desiredNames items c = c.
Proof.
  intros H.
  assert (Hnone : List.filter (is_orphan desiredNames) items = []).
  { induction items as [|x rest IH]; [reflexivity|]. simpl. unfold is_orphan at 1.
    rewrite (H x (or_introl eq_refl)). simpl. apply IH. intros y Hy. apply H. now right. }
  unfold after_cleanup. rewrite Hnone. simpl. rewrite !app_nil_r.
  rewrite filter_all; [now destruct c|].
  intros y. apply negb_true_iff, not_true_is_false. rewrite existsb_exists.
  intros (x & Hx & Hox). apply andb_true_iff in Hox as [Hox _].
  unfold is_orphan in Hox. rewrite (H x Hx) in Hox. discriminate Hox.
Qed.

(** After the cleanup no object that the Ingress owns has an undesired name. *)
Lemma cleanup_leaves_no_orphan (ing : Ingress) (desiredNames : gmap string bool) (c : Cluster)
    (y : PangolinResource) :
  let items := List.filter (owned_by (Ingress_Namespace ing) (Ingress_UID ing)) (resources c) in
  In y (resources (after_cleanup ing desiredNames items c)) ->
  owned_by (Ingress_Namespace ing) (Ingress_UID ing) y = true ->
  index_bool desiredNames (Resource_Name y) = true.
Proof.
  intros items Hin Hown. unfold after_cleanup in Hin. cbn [resources] in Hin.
  apply filter_In in Hin as [Hin Hkeep].
  destruct (index_bool desiredNames (Resource_Name y)) eqn:Hd; [reflexivity|].
  apply negb_true_iff in Hkeep. assert (Hex : existsb
    (fun x => is_orphan desiredNames x
              && same_object (Resource_Namespace x) (Resource_Name x) y) items = true).
  { apply existsb_exists. exists y. split.
    - apply filter_In. now split.
    - unfold is_orphan. now rewrite Hd, same_object_self. }
  rewrite Hex in Hkeep. discriminate Hkeep.
Qed.

(** The cleanup keeps every object whose name is desired. *)
Lemma cleanup_keeps_desired (ing : Ingress) (desiredNames : gmap string bool)
    (items : list PangolinResource) (c : Cluster) (ns n : string) :
  index_bool desiredNames n = true ->
  lookup_resource ns n (resources (after_cleanup ing desiredNames items c))
  = lookup_resource ns n (resources c).
Proof.
  intros Hd. unfold after_cleanup, lookup_resource. cbn [resources].
  apply find_filter_keep. intros y _ Hy. apply same_object_eq in Hy as [Hns Hn].
  apply negb_true_iff, not_true_is_false. rewrite existsb_exists.
  intros (x & _ & Hx). apply andb_true_iff in Hx as [Ho Hs].
  apply same_object_eq in Hs as [_ Hs]. unfold is_orphan in Ho.
  rewrite <- Hs, Hn, Hd in Ho. discriminate Ho.
Qed.

(** ** The loop over the host groups *)

Section Groups.

Variable SplitHost : string -> string + (string * string).
Variable r : IngressReconciler.
Variable ing : Ingress.
Variables tunnelName tunnelNamespace : string.

#[local] Abbreviation built := (built SplitHost r ing tunnelName tunnelNamespace).
#[local] Abbreviation builtOf := (builtOf SplitHost r ing tunnelName tunnelNamespace).
#[local] Abbreviation desiredNamesOf :=
  (desiredNamesOf SplitHost r ing tunnelName tunnelNamespace).

Lemma built_meta (g : HostPathGroup) (d : PangolinResource) :
  built g = Some d ->
  Resource_Namespace d = Ingress_Namespace ing
  /\ Resource_Name d = GenerateName (Ingress_Namespace ing) (Ingress_Name ing) (Group_Host g).
Proof.
  unfold built, buildDesiredPangolinResource.
  destruct (SplitHost (Group_Host g)) as [|[sub dom]]; [discriminate|].
  destruct (Nat.eqb _ 0); [discriminate|]. intros [= <-]. split; reflexivity.
Qed.

Lemma builtOf_In (gs : list HostPathGroup) (d : PangolinResource) :
  In d (builtOf gs) <-> exists g, In g gs /\ built g = Some d.
Proof.
  induction gs as [|g rest IH]; simpl.
  - split; [contradiction | intros (g & [] & _)].
  - destruct (built g) as [d'|] eqn:Hb; simpl; rewrite IH.
    + split.
      * intros [<-|(g' & Hin & Hg')]; [exists g; auto | exists g'; auto].
      * intros (g' & [<-|Hin] & Hg'); [left; congruence | right; eauto].
    + split.
      * intros (g' & Hin & Hg'). exists g'. auto.
      * intros (g' & [<-|Hin] & Hg'); [congruence | eauto].
Qed.

Lemma builtOf_namespace (gs : list HostPathGroup) (d : PangolinResource) :
  In d (builtOf gs) -> Resource_Namespace d = Ingress_Namespace ing.
Proof. rewrite builtOf_In. intros (g & _ & Hb). now apply built_meta in Hb. Qed.

Lemma builtOf_perm (gs gs' : list HostPathGroup) :
  Permutation gs gs' -> Permutation (builtOf gs) (builtOf gs').
Proof.
  induction 1 as [|g l l' _ IH|g g' l|l l' l'' _ IH1 _ IH2]; simpl.
  - constructor.
  - destruct (built g); [now constructor | exact IH].
  - destruct (built g), (built g'); try reflexivity. constructor.
  - now transitivity (builtOf l').
Qed.

Lemma index_bool_insert (m : gmap string bool) (k n : string) :
  index_bool (<[k := true]> m) n = true <-> n = k \/ index_bool m n = true.
Proof.
  unfold index_bool. destruct (decide (k = n)) as [->|Hne].
  - rewrite lookup_insert_eq. simpl. tauto.
  - rewrite lookup_insert_ne by exact Hne. split; [tauto | intros [->|H]; [contradiction | exact H]].
Qed.

Lemma desiredNamesOf_index (gs : list HostPathGroup) (desiredNames : gmap string bool)
    (n : string) :
  index_bool (desiredNamesOf gs desiredNames) n = true <->
  index_bool desiredNames n = true \/ In n (map Resource_Name (builtOf gs)).
Proof.
  revert desiredNames. induction gs as [|g rest IH]; intros desiredNames; simpl.
  - tauto.
  - destruct (built g) as [d|]; [|apply IH].
    rewrite IH, index_bool_insert. simpl. split; intros H; intuition congruence.
Qed.

Lemma processGroups_step_failed (g : HostPathGroup) (rest : list HostPathGroup)
    (desiredNames : gmap string bool) (c : Cluster) :
  built g = None ->
  exists ev,
    processGroups SplitHost r ing tunnelName tunnelNamespace (g :: rest) desiredNames c
    = processGroups SplitHost r ing tunnelName tunnelNamespace rest desiredNames
        (add_events [ev] c).
Proof.
  unfold built. cbn [processGroups].
  destruct (buildDesiredPangolinResource _ _ _ _ _ _ _) as [err|d]; [|discriminate].
  intros _. eexists. unfold bind. rewrite RecordEvent_add. reflexivity.
Qed.

Lemma processGroups_step_built (g : HostPathGroup) (rest : list HostPathGroup)
    (desiredNames : gmap string bool) (c : Cluster) (d : PangolinResource) :
  built g = Some d ->
  processGroups SplitHost r ing tunnelName tunnelNamespace (g :: rest) desiredNames c
  = (let (err, c') := reconcilePangolinResource ing d c in
     match err with
     | Some err => (<[Resource_Name d := true]> desiredNames, Some err, c')
     | None => processGroups SplitHost r ing tunnelName tunnelNamespace rest
                 (<[Resource_Name d := true]> desiredNames) c'
     end).
Proof.
  unfold built. cbn [processGroups].
  destruct (buildDesiredPangolinResource _ _ _ _ _ _ _) as [err|d0]; [discriminate|].
  intros [= <-]. unfold bind.
  destruct (reconcilePangolinResource ing (SetControllerReference ing d0) c) as [[err|] c'];
    reflexivity.
Qed.

(** A run of the loop on a cluster in which every object to reconcile is
    there already, with an accepted spec: events only. *)
Lemma processGroups_noop (gs : list HostPathGroup) (desiredNames : gmap string bool)
    (c : Cluster) :
  (forall d, In d (builtOf gs) ->
     exists x, lookup_resource (Resource_Namespace d) (Resource_Name d) (resources c) = Some x
               /\ specChanged (Resource_Spec x) (Resource_Spec d) = false) ->
  exists evs,
    processGroups SplitHost r ing tunnelName tunnelNamespace gs desiredNames c
    = (desiredNamesOf gs desiredNames, None, add_events evs c).
Proof.
  revert desiredNames c. induction gs as [|g rest IH]; intros desiredNames c H.
  - exists []. now rewrite add_events_nil.
  - cbn [builtOf desiredNamesOf] in *. destruct (built g) as [d|] eqn:Hb.
    + rewrite (processGroups_step_built _ _ _ _ _ Hb).
      destruct (H d (or_introl eq_refl)) as (x & Hl & Hs).
      rewrite (reconcile_noop ing d x c Hl Hs).
      apply IH. intros d' Hd'. apply H. now right.
    + destruct (processGroups_step_failed g rest desiredNames c Hb) as (ev & ->).
      destruct (IH desiredNames (add_events [ev] c)) as (evs & ->).
      * intros d' Hd'. apply (H d' Hd').
      * exists ([ev] ++ evs). now rewrite add_events_app.
Qed.

(** A run of the loop when no two groups are given the same object name. *)
Lemma processGroups_run (gs : list HostPathGroup) (desiredNames : gmap string bool)
    (c : Cluster) :
  NoDup (map Resource_Name (builtOf gs)) ->
  exists c',
    processGroups SplitHost r ing tunnelName tunnelNamespace gs desiredNames c
    = (desiredNamesOf gs desiredNames, None, c')
    /\ ingresses c' = ingresses c /\ tunnels c' = tunnels c
    /\ (forall d, In d (builtOf gs) ->
          exists x, lookup_resource (Resource_Namespace d) (Resource_Name d) (resources c')
                    = Some x
                    /\ specChanged (Resource_Spec x) (Resource_Spec d) = false)
    /\ (forall ns n, ns <> Ingress_Namespace ing \/ ~ In n (map Resource_Name (builtOf gs)) ->
          lookup_resource ns n (resources c') = lookup_resource ns n (resources c)).
Proof.
  revert desiredNames c. induction gs as [|g rest IH]; intros desiredNames c Hnd.
  - exists c. repeat split; try reflexivity. intros d [].
  - cbn [builtOf desiredNamesOf] in *. destruct (built g) as [d|] eqn:Hb.
    + cbn [map] in Hnd. apply NoDup_cons in Hnd as [Hfresh Hnd].
      rewrite list_elem_of_In in Hfresh.
      rewrite (processGroups_step_built _ _ _ _ _ Hb).
      destruct (reconcile_run ing d c) as (c1 & -> & Hi1 & Ht1 & Hd1 & Hother1).
      destruct (IH (<[Resource_Name d := true]> desiredNames) c1 Hnd)
        as (c' & -> & Hi & Ht & Hall & Hother).
      exists c'. split; [reflexivity|]. split; [congruence|]. split; [congruence|]. split.
      * intros d' [<-|Hd']; [|now apply Hall].
        rewrite Hother by (now right). exact Hd1.
      * intros ns n Hne. rewrite Hother, Hother1; [reflexivity | |].
        -- destruct (proj1 (built_meta g d Hb)).
           destruct Hne as [Hne|Hne]; [now left | right].
           intros ->. apply Hne. now left.
        -- destruct Hne as [Hne|Hne]; [now left | right].
           intros Hin. apply Hne. now right.
    + destruct (processGroups_step_failed g rest desiredNames c Hb) as (ev & ->).
      destruct (IH desiredNames (add_events [ev] c) Hnd) as (c' & -> & Hi & Ht & Hall & Hother).
      exists c'. repeat split; assumption.
Qed.

(** The loop always runs to its end, without error, in this store. *)
Lemma processGroups_total (gs : list HostPathGroup) (desiredNames : gmap string bool)
    (c : Cluster) :
  exists c',
    processGroups SplitHost r ing tunnelName tunnelNamespace gs desiredNames c
    = (desiredNamesOf gs desiredNames, None, c')
    /\ ingresses c' = ingresses c /\ tunnels c' = tunnels c.
Proof.
  revert desiredNames c. induction gs as [|g rest IH]; intros desiredNames c.
  - exists c. repeat split.
  - cbn [desiredNamesOf]. destruct (built g) as [d|] eqn:Hb.
    + rewrite (processGroups_step_built _ _ _ _ _ Hb).
      destruct (reconcile_run ing d c) as (c1 & -> & Hi1 & Ht1 & _).
      destruct (IH (<[Resource_Name d := true]> desiredNames) c1) as (c' & -> & Hi & Ht).
      exists c'. split; [reflexivity|]. split; congruence.
    + destruct (processGroups_step_failed g rest desiredNames c Hb) as (ev & ->).
      destruct (IH desiredNames (add_events [ev] c)) as (c' & -> & Hi & Ht).
      exists c'. repeat split; assumption.
Qed.

End Groups.

(** ** A whole pass, and a second one *)

Lemma collectHostPaths_run (order : RangeOrder) (ing : Ingress) (c : Cluster) :
  collectHostPaths order ing c
  = (groups_of (order (hostMapOf (Ingress_Rules ing) ∅)),
     add_events (map (fun _ => EmptyHostEvent ing) (emptyHostRules (Ingress_Rules ing))) c).
Proof. unfold collectHostPaths, bind. now rewrite collectRules_run. Qed.

Lemma groups_of_perm (order : RangeOrder) (ing : Ingress) :
  range_ok order ->
  Permutation (groups_of (order (hostMapOf (Ingress_Rules ing) ∅))) (hostGroupsOf ing).
Proof. intros Hok. apply Permutation_map, Hok. Qed.

Lemma built_names_tunnel (SplitHost : string -> string + (string * string))
    (r : IngressReconciler) (ing : Ingress) (tn tns tn' tns' : string)
    (gs : list HostPathGroup) :
  map Resource_Name (builtOf SplitHost r ing tn tns gs)
  = map Resource_Name (builtOf SplitHost r ing tn' tns' gs).
Proof.
  induction gs as [|g rest IH]; [reflexivity|]. cbn [builtOf].
  unfold built, buildDesiredPangolinResource.
  destruct (SplitHost (Group_Host g)) as [|[sub dom]]; [exact IH|].
  destruct (Nat.eqb _ 0); [exact IH|]. cbn [map]. now rewrite IH.
Qed.

Section Pass.

Variable SplitHost : string -> string + (string * string).
Variable r : IngressReconciler.
Variable ing : Ingress.
Variables tunnelName tunnelNamespace : string.

#[local] Abbreviation builtIn := (builtOf SplitHost r ing tunnelName tunnelNamespace).

Lemma processHosts_first (order : RangeOrder) (c : Cluster) :
  range_ok order ->
  NoDup (desired_names SplitHost r ing) ->
  exists c1,
    processHosts SplitHost order r ing tunnelName tunnelNamespace c
    = ({| Requeue := false |}, None, c1)
    /\ ingresses c1 = ingresses c /\ tunnels c1 = tunnels c
    /\ ((resources c1 = resources c /\ calls c1 = calls c
         /\ (Ingress_Rules ing = [] \/ hostGroupsOf ing = []))
        \/ settled SplitHost r ing tunnelName tunnelNamespace c1).
Proof.
  intros Hok Hnd. unfold processHosts.
  destruct (Ingress_Rules ing) as [|rule rules] eqn:Hrules.
  - cbn [length Nat.eqb]. unfold bind. rewrite RecordEvent_add. eexists.
    split; [reflexivity|]. repeat split; try reflexivity. left. repeat split. now left.
  - cbn [length Nat.eqb]. unfold bind at 1. rewrite collectHostPaths_run, Hrules.
    pose proof (groups_of_perm order ing Hok) as Hperm. rewrite Hrules in Hperm.
    set (gs := groups_of (order (hostMapOf (rule :: rules) ∅))) in *.
    set (c0 := add_events _ c).
    destruct gs as [|g gs'] eqn:Hgs.
    + cbn [length Nat.eqb]. exists c0. split; [reflexivity|].
      repeat split; try reflexivity. left. repeat split. right.
      now apply Permutation_nil.
    + cbn [length Nat.eqb]. unfold bind. rewrite <- Hgs in *. clear Hgs.
      assert (Hnd' : NoDup (map Resource_Name (builtIn gs))).
      { unfold desired_names in Hnd.
        rewrite (built_names_tunnel _ _ _ "" "" tunnelName tunnelNamespace) in Hnd.
        assert (Hp : Permutation (map Resource_Name (builtIn gs))
                       (map Resource_Name
                          (builtOf SplitHost r ing tunnelName tunnelNamespace
                             (hostGroupsOf ing))))
          by (apply Permutation_map, builtOf_perm; exact Hperm).
        now rewrite Hp. }
      destruct (processGroups_run SplitHost r ing tunnelName tunnelNamespace gs ∅ c0 Hnd')
        as (cb & -> & Hi & Ht & Hall & _).
      cbn [fst snd]. unfold cleanupOrphanedResources, bind, ListResources.
      rewrite deleteOrphans_run. eexists. split; [reflexivity|].
      split; [exact Hi|]. split; [exact Ht|]. right. split.
      * intros d Hd.
        assert (Hd' : In d (builtIn gs)).
        { eapply Permutation_in; [|exact Hd]. apply builtOf_perm. symmetry. exact Hperm. }
        rewrite cleanup_keeps_desired; [now apply Hall|].
        apply desiredNamesOf_index. right. now apply in_map.
      * intros y Hy Hown.
        pose proof (cleanup_leaves_no_orphan ing _ cb y Hy Hown) as Hdn.
        apply desiredNamesOf_index in Hdn as [Hdn|Hdn]; [discriminate Hdn|].
        eapply Permutation_in; [|exact Hdn].
        apply Permutation_map, builtOf_perm. exact Hperm.
Qed.

Lemma processHosts_again (order : RangeOrder) (c1 : Cluster) :
  range_ok order ->
  Ingress_Rules ing = [] \/ hostGroupsOf ing = []
  \/ settled SplitHost r ing tunnelName tunnelNamespace c1 ->
  exists evs,
    processHosts SplitHost order r ing tunnelName tunnelNamespace c1
    = ({| Requeue := false |}, None, add_events evs c1).
Proof.
  intros Hok Hcase. unfold processHosts.
  destruct (Ingress_Rules ing) as [|rule rules] eqn:Hrules.
  - cbn [length Nat.eqb]. unfold bind. rewrite RecordEvent_add. eexists. reflexivity.
  - cbn [length Nat.eqb]. unfold bind at 1. rewrite collectHostPaths_run, Hrules.
    pose proof (groups_of_perm order ing Hok) as Hperm. rewrite Hrules in Hperm.
    set (gs := groups_of (order (hostMapOf (rule :: rules) ∅))) in *.
    set (evs0 := map _ _).
    destruct gs as [|g gs'] eqn:Hgs.
    + cbn [length Nat.eqb]. exists evs0. reflexivity.
    + cbn [length Nat.eqb]. rewrite <- Hgs in *.
      destruct Hcase as [Hcase|[Hcase|[Hall Hown]]]; [discriminate Hcase | |].
      { rewrite Hcase in Hperm. symmetry in Hperm. apply Permutation_nil in Hperm.
        rewrite Hperm in Hgs. discriminate Hgs. }
      clear Hgs. unfold bind.
      destruct (processGroups_noop SplitHost r ing tunnelName tunnelNamespace gs ∅
                  (add_events evs0 c1)) as (evs & ->).
      { intros d Hd. apply Hall. eapply Permutation_in; [|exact Hd].
        apply builtOf_perm. exact Hperm. }
      cbn [fst snd]. unfold cleanupOrphanedResources, bind, ListResources.
      rewrite deleteOrphans_run, after_cleanup_noop, add_events_app.
      * eexists. reflexivity.
      * intros y Hy. apply filter_In in Hy as [Hy Hyown].
        apply desiredNamesOf_index. right.
        eapply Permutation_in; [|exact (Hown y Hy Hyown)].
        apply Permutation_map, builtOf_perm. symmetry. exact Hperm.
Qed.

(** When the pass gets as far as the cleanup, that is when the Ingress has a
    rule and a host group, the cleanup is complete: the pass returns no
    error, issues one Delete call and records one [Deleted] event per owned
    object whose name is not desired, and leaves no such object behind. *)
Lemma processHosts_cleanup (order : RangeOrder) (c : Cluster) :
  range_ok order ->
  Ingress_Rules ing <> [] -> hostGroupsOf ing <> [] ->
  exists cb,
    let desiredNames :=
      desiredNamesOf SplitHost r ing tunnelName tunnelNamespace
        (groups_of (order (hostMapOf (Ingress_Rules ing) ∅))) ∅ in
    let items := List.filter (owned_by (Ingress_Namespace ing) (Ingress_UID ing))
                             (resources cb) in
    processHosts SplitHost order r ing tunnelName tunnelNamespace c
    = ({| Requeue := false |}, None, after_cleanup ing desiredNames items cb)
    /\ forall y, In y (resources (after_cleanup ing desiredNames items cb)) ->
                 owned_by (Ingress_Namespace ing) (Ingress_UID ing) y = true ->
                 index_bool desiredNames (Resource_Name y) = true.
Proof.
  intros Hok Hrules Hgroups. unfold processHosts.
  destruct (Ingress_Rules ing) as [|rule rules] eqn:Hr; [contradiction|].
  cbn [length Nat.eqb]. unfold bind at 1. rewrite collectHostPaths_run, Hr.
  pose proof (groups_of_perm order ing Hok) as Hperm. rewrite Hr in Hperm.
  set (gs := groups_of (order (hostMapOf (rule :: rules) ∅))) in *.
  set (c0 := add_events _ c).
  destruct gs as [|g gs'] eqn:Hgs.
  { apply Permutation_nil in Hperm. contradiction. }
  cbn [length Nat.eqb]. unfold bind. rewrite <- Hgs. clear Hgs.
  destruct (processGroups_total SplitHost r ing tunnelName tunnelNamespace gs ∅ c0)
    as (cb & -> & _ & _).
  cbn [fst snd]. unfold cleanupOrphanedResources, bind, ListResources.
  rewrite deleteOrphans_run. exists cb. split; [reflexivity|].
  intros y Hy Hown. exact (cleanup_leaves_no_orphan ing _ cb y Hy Hown).
Qed.

End Pass.

Lemma GetIngress_run (namespace name : string) (c : Cluster) :
  GetIngress namespace name c = (fst (GetIngress namespace name c), c).
Proof. reflexivity. Qed.

Lemma GetIngress_same (namespace name : string) (c c' : Cluster) :
  ingresses c' = ingresses c ->
  fst (GetIngress namespace name c') = fst (GetIngress namespace name c).
Proof. intros H. unfold GetIngress. cbn [fst]. now rewrite H. Qed.

Lemma validateTunnel_run (tunnelName : string) (c : Cluster) :
  validateTunnel tunnelName c = (fst (validateTunnel tunnelName c), c).
Proof. reflexivity. Qed.

Lemma validateTunnel_same (tunnelName : string) (c c' : Cluster) :
  tunnels c' = tunnels c ->
  fst (validateTunnel tunnelName c') = fst (validateTunnel tunnelName c).
Proof.
  intros H. unfold validateTunnel, bind, ListTunnels, ret. cbn [fst]. now rewrite H.
Qed.

(** [Reconcile] on an Ingress that is there, is managed and has a tunnel name. *)
Lemma Reconcile_managed (SplitHost : string -> string + (string * string))
    (order : RangeOrder) (r : IngressReconciler) (namespace name : string)
    (c : Cluster) (ing : Ingress) (tunnelName : string) :
  fst (GetIngress namespace name c) = inr ing ->
  isManaged ing = true ->
  resolveTunnel r ing = inr tunnelName ->
  Reconcile SplitHost order r namespace name c
  = match fst (validateTunnel tunnelName c) with
    | inl _ => ({| Requeue := true |}, None, add_events [TunnelNotFoundEvent ing tunnelName] c)
    | inr tunnelNamespace => processHosts SplitHost order r ing tunnelName tunnelNamespace c
    end.
Proof.
  intros Hget Hman Hres. unfold Reconcile, bind.
  rewrite GetIngress_run, Hget, Hman, Hres. cbn [negb].
  pose proof (validateTunnel_run tunnelName c) as Hv.
  destruct (validateTunnel tunnelName c) as [a c']. cbn [fst] in *.
  injection Hv as ->. destruct a; reflexivity.
Qed.

(** Idempotence when the names are distinct. Take an Ingress that is
    managed, and suppose that no two of its hosts that yield a resource are
    given the same name. After a pass that returned no error, a second pass
    (whatever order the runtime picks for the host groups, in either pass)
    returns no error, leaves the stored PangolinResources as they are and
    issues no Create, Update or Delete. *)
Lemma Reconcile_second_pass_is_quiet
    (SplitHost : string -> string + (string * string)) (o1 o2 : RangeOrder)
    (r : IngressReconciler) (namespace name : string) (c : Cluster) (ing : Ingress) :
  range_ok o1 -> range_ok o2 ->
  fst (GetIngress namespace name c) = inr ing ->
  isManaged ing = true ->
  NoDup (desired_names SplitHost r ing) ->
  snd (fst (Reconcile SplitHost o1 r namespace name c)) = None ->
  snd (fst (Reconcile SplitHost o2 r namespace name
              (snd (Reconcile SplitHost o1 r namespace name c)))) = None
  /\ resources (snd (Reconcile SplitHost o2 r namespace name
                       (snd (Reconcile SplitHost o1 r namespace name c))))
     = resources (snd (Reconcile SplitHost o1 r namespace name c))
  /\ calls (snd (Reconcile SplitHost o2 r namespace name
                   (snd (Reconcile SplitHost o1 r namespace name c))))
     = calls (snd (Reconcile SplitHost o1 r namespace name c)).
Proof.
  intros Hok1 Hok2 Hget Hman Hnd Hsucc.
  destruct (resolveTunnel r ing) as [err|tunnelName] eqn:Hres.
  { unfold Reconcile, bind in Hsucc.
    rewrite GetIngress_run, Hget, Hman, Hres in Hsucc. discriminate Hsucc. }
  rewrite (Reconcile_managed SplitHost o1 r namespace name c ing tunnelName Hget Hman Hres)
    in *.
  destruct (fst (validateTunnel tunnelName c)) as [e|tunnelNamespace] eqn:Hval.
  - cbn [snd].
    rewrite (Reconcile_managed SplitHost o2 r namespace name _ ing tunnelName);
      [|rewrite <- Hget; now apply GetIngress_same | exact Hman | exact Hres].
    rewrite (validateTunnel_same tunnelName c) by reflexivity. rewrite Hval.
    repeat split.
  - destruct (processHosts_first SplitHost r ing tunnelName tunnelNamespace o1 c Hok1 Hnd)
      as (c1 & -> & Hi & Ht & Hpost).
    cbn [snd].
    rewrite (Reconcile_managed SplitHost o2 r namespace name c1 ing tunnelName);
      [|rewrite <- Hget; now apply GetIngress_same | exact Hman | exact Hres].
    rewrite (validateTunnel_same tunnelName c c1 Ht), Hval.
    destruct (processHosts_again SplitHost r ing tunnelName tunnelNamespace o2 c1 Hok2)
      as (evs & ->).
    + destruct Hpost as [(_ & _ & [H|H])|H]; auto.
    + repeat split.
Qed.

(** C1 (code defect). The hosts [h16510.example.com] and
    [h158137.example.com] of the managed Ingress [default/myapp] are given
    the one name [pic-default-myapp-74208192], although [GenerateName] is
    documented to give different hosts different names. The first pass
    returns no error and records no warning: it creates the object for one
    host and overwrites it with the other, so that two hosts are left with
    one PangolinResource. A second pass right after it is not a no-op: it
    writes again, in either visiting order. *)
Theorem second_pass_writes_on_name_collision :
  fst (GetIngress "default" "myapp" (cluster_of ingress_collision [])) = inr ingress_collision
  /\ isManaged ingress_collision = true
  /\ GenerateName "default" "myapp" "h16510.example.com"
     = GenerateName "default" "myapp" "h158137.example.com"
  /\ map Resource_Name (resources cluster_collision) = ["pic-default-myapp-74208192"]
  /\ map Event_Reason (events cluster_collision) = ["Created"; "Updated"]
  /\ fst (Reconcile SplitHost_model order_fwd reconciler0 "default" "myapp"
            (cluster_of ingress_collision []))
     = ({| Requeue := false |}, None)
  /\ calls cluster_collision
     = [ CallCreate "default" "pic-default-myapp-74208192";
         CallUpdate "default" "pic-default-myapp-74208192" ]
  /\ fst (Reconcile SplitHost_model order_fwd reconciler0 "default" "myapp" cluster_collision)
     = ({| Requeue := false |}, None)
  /\ calls (snd (Reconcile SplitHost_model order_fwd reconciler0 "default" "myapp"
                   cluster_collision))
     = calls cluster_collision
       ++ [ CallUpdate "default" "pic-default-myapp-74208192";
            CallUpdate "default" "pic-default-myapp-74208192" ]
  /\ calls (snd (Reconcile SplitHost_model order_rev reconciler0 "default" "myapp"
                   cluster_collision))
     = calls cluster_collision
       ++ [ CallUpdate "default" "pic-default-myapp-74208192" ].
Proof. vm_compute. repeat split. Qed.

Lemma Reconcile_second_pass_is_quiet_witness :
  range_ok order_fwd /\ range_ok order_rev
  /\ isManaged ingress_two_hosts = true
  /\ NoDup (desired_names SplitHost_model reconciler0 ingress_two_hosts)
  /\ calls (snd (Reconcile SplitHost_model order_rev reconciler0 "default" "myapp"
                   (snd (Reconcile SplitHost_model order_fwd reconciler0 "default" "myapp"
                           (cluster_of ingress_two_hosts [])))))
     = calls (snd (Reconcile SplitHost_model order_fwd reconciler0 "default" "myapp"
                     (cluster_of ingress_two_hosts []))).
Proof.
  assert (Hnd : NoDup (desired_names SplitHost_model reconciler0 ingress_two_hosts)).
  { apply (bool_decide_unpack _). vm_compute. exact I. }
  split; [intros m; reflexivity|]. split; [exact range_ok_rev|].
  split; [reflexivity|]. split; [exact Hnd|].
  exact (proj2 (proj2 (Reconcile_second_pass_is_quiet SplitHost_model order_fwd order_rev
           reconciler0 "default" "myapp" (cluster_of ingress_two_hosts []) ingress_two_hosts
           (fun m => Permutation_refl _) range_ok_rev eq_refl eq_refl Hnd
           ltac:(vm_compute; reflexivity)))).
Defined.

(** C4 (code defect). A pass over the Ingress with the host
    [app.example.com] creates an object that carries the UID label. When the
    Ingress then has no rule left, or only a rule without host, the pass
    returns no error and the object is still there: [processHosts] returns
    before the cleanup, without any Delete call and without a [Deleted]
    event. When the only host left is one that the build refuses, the cleanup
    does run and deletes the object. *)
Theorem orphan_survives_pass_without_hosts :
  resources (snd (Reconcile SplitHost_model order_fwd reconciler0 "default" "myapp"
                    (cluster_of ingress_one_host [])))
    = [owned_app]
  /\ owned_by "default" "uid-1" owned_app = true
  /\ isManaged ingress_no_rules = true /\ isManaged ingress_empty_hosts = true
  /\ Reconcile SplitHost_model order_fwd reconciler0 "default" "myapp"
       (cluster_of ingress_no_rules [owned_app])
     = ({| Requeue := false |}, None,
        add_events [NoRulesEvent ingress_no_rules] (cluster_of ingress_no_rules [owned_app]))
  /\ Reconcile SplitHost_model order_fwd reconciler0 "default" "myapp"
       (cluster_of ingress_empty_hosts [owned_app])
     = ({| Requeue := false |}, None,
        add_events [EmptyHostEvent ingress_empty_hosts]
          (cluster_of ingress_empty_hosts [owned_app]))
  /\ resources (snd (Reconcile SplitHost_model order_fwd reconciler0 "default" "myapp"
                       (cluster_of ingress_wildcard [owned_app])))
     = []
  /\ calls (snd (Reconcile SplitHost_model order_fwd reconciler0 "default" "myapp"
                   (cluster_of ingress_wildcard [owned_app])))
     = [CallDelete "default" "pic-default-myapp-a03c4624"].
Proof. vm_compute. repeat split. Qed.

(* ===================================================================== *)
(** * Further properties of the name generator                            *)
(* ===================================================================== *)

Lemma all_bytes_sanitized (s : string) :
  all_bytes name_byte_ok
    (map_bytes (fun r => if name_byte_ok r then r else "-"%char) s) = true.
Proof.
  induction s as [|c r IH]; [reflexivity|]. cbn [map_bytes all_bytes]. rewrite IH.
  destruct (name_byte_ok c) eqn:Hc; [now rewrite Hc | reflexivity].
Qed.

Lemma all_bytes_trim_left (f : ascii -> bool) (s : string) :
  all_bytes f s = true -> all_bytes f (trim_left_hyphen s) = true.
Proof.
  induction s as [|c r IH]; [reflexivity|]. cbn [all_bytes]. intros H.
  apply andb_true_iff in H as [Hc Hr]. cbn [trim_left_hyphen].
  destruct c as [[] [] [] [] [] [] [] []]; try (cbn [all_bytes]; now rewrite Hc, Hr).
  now apply IH.
Qed.

Lemma all_bytes_trim_right (f : ascii -> bool) (s : string) :
  all_bytes f s = true -> all_bytes f (trim_right_hyphen s) = true.
Proof.
  induction s as [|c r IH]; [reflexivity|]. cbn [all_bytes]. intros H.
  apply andb_true_iff in H as [Hc Hr]. cbn [trim_right_hyphen]. specialize (IH Hr).
  destruct (trim_right_hyphen r) as [|d r'].
  - destruct (Ascii.eqb c "-"); [reflexivity|]. cbn [all_bytes]. now rewrite Hc.
  - change (f c && all_bytes f (String d r') = true). now rewrite Hc, IH.
Qed.

Lemma all_bytes_replace (f : ascii -> bool) (s : string) (skip : nat) :
  f "-"%char = true -> all_bytes f s = true ->
  all_bytes f (replace_from "--" "-" s skip) = true.
Proof.
  intros Hh. revert skip. induction s as [|c r IH]; intros skip H; [reflexivity|].
  cbn [all_bytes] in H. apply andb_true_iff in H as [Hc Hr]. cbn [replace_from].
  destruct skip as [|k]; [|now apply IH].
  destruct (String.prefix "--" (String c r)).
  - change (f "-"%char && all_bytes f (replace_from "--" "-" r (String.length "--" - 1)) = true).
    now rewrite Hh, IH.
  - cbn [all_bytes]. now rewrite Hc, IH.
Qed.

Lemma all_bytes_collapse (f : ascii -> bool) (fuel : nat) (s : string) :
  f "-"%char = true -> all_bytes f s = true -> all_bytes f (collapse_hyphens fuel s) = true.
Proof.
  intros Hh. revert s. induction fuel as [|fuel IH]; intros s H; [exact H|].
  cbn [collapse_hyphens]. destruct (Contains s "--"); [|exact H].
  apply IH. now apply all_bytes_replace.
Qed.

Lemma head_trim_left (s : string) : head_hyphen (trim_left_hyphen s) = false.
Proof.
  induction s as [|c r IH]; [reflexivity|]. cbn [trim_left_hyphen].
  destruct c as [[] [] [] [] [] [] [] []]; try reflexivity. exact IH.
Qed.

Lemma head_trim_right (s : string) :
  head_hyphen s = false -> head_hyphen (trim_right_hyphen s) = false.
Proof.
  destruct s as [|c r]; [reflexivity|]. cbn [head_hyphen trim_right_hyphen]. intros Hc.
  destruct (trim_right_hyphen r); [now rewrite Hc | exact Hc].
Qed.

Lemma trim_right_ends (s : string) :
  trim_right_hyphen s = EmptyString \/ ends_well (trim_right_hyphen s) = true.
Proof.
  induction s as [|c r IH]; [now left|]. cbn [trim_right_hyphen].
  destruct (trim_right_hyphen r) as [|d r'].
  - destruct (Ascii.eqb c "-") eqn:Hc; [now left | right]. cbn [ends_well]. now rewrite Hc.
  - right. destruct IH as [IH|IH]; [discriminate IH | exact IH].
Qed.

Lemma ends_well_app (a : string) (x : ascii) :
  Ascii.eqb x "-" = false -> ends_well (a +:+ String x EmptyString) = true.
Proof.
  intros Hx. induction a as [|c a IH].
  { change (negb (Ascii.eqb x "-") = true). now rewrite Hx. }
  change (String c a +:+ String x EmptyString) with (String c (a +:+ String x EmptyString)).
  cbn [ends_well]. destruct (a +:+ String x EmptyString) eqn:E; [|exact IH].
  destruct a; discriminate E.
Qed.

Lemma ends_well_split (s : string) :
  ends_well s = true ->
  exists a x, s = a +:+ String x EmptyString /\ Ascii.eqb x "-" = false.
Proof.
  induction s as [|c r IH]; [discriminate|]. cbn [ends_well]. destruct r as [|d r'].
  - intros H. exists EmptyString, c. split; [reflexivity | now apply negb_true_iff].
  - intros H. destruct (IH H) as (a & x & -> & Hx). exists (String c a), x. now split.
Qed.

Lemma ok_not_hyphen_alnum (x : ascii) :
  name_byte_ok x = true -> Ascii.eqb x "-" = false -> lower_alnum x = true.
Proof.
  unfold name_byte_ok, lower_alnum. intros H Hx. rewrite Hx, orb_false_r in H. exact H.
Qed.

Lemma all_bytes_app (f : ascii -> bool) (a b : string) :
  all_bytes f (a +:+ b) = all_bytes f a && all_bytes f b.
Proof.
  induction a as [|c a IH]; [reflexivity|].
  change (String c a +:+ b) with (String c (a +:+ b)). cbn [all_bytes].
  now rewrite IH, andb_assoc.
Qed.

Lemma ends_well_replace (s : string) :
  all_bytes name_byte_ok s = true -> ends_well s = true ->
  ends_well (ReplaceAll s "--" "-") = true.
Proof.
  intros Hok He. destruct (ends_well_split s He) as (a & x & -> & Hx).
  rewrite all_bytes_app in Hok. apply andb_true_iff in Hok as [_ Hokx].
  cbn [all_bytes] in Hokx. rewrite andb_true_r in Hokx.
  unfold ReplaceAll. rewrite replace_keeps_suffix; [now apply ends_well_app | | lia].
  cbn [all_bytes]. now rewrite (ok_not_hyphen_alnum x Hokx Hx).
Qed.

Lemma head_replace (s : string) :
  head_hyphen s = false -> head_hyphen (ReplaceAll s "--" "-") = false.
Proof.
  unfold ReplaceAll. destruct s as [|c r]; [reflexivity|]. cbn [head_hyphen replace_from].
  intros Hc. rewrite prefix_cons, Ascii.eqb_sym, Hc. exact Hc.
Qed.

Lemma collapse_keeps_ends (fuel : nat) (s : string) :
  all_bytes name_byte_ok s = true -> head_hyphen s = false -> ends_well s = true ->
  head_hyphen (collapse_hyphens fuel s) = false
  /\ ends_well (collapse_hyphens fuel s) = true.
Proof.
  revert s. induction fuel as [|fuel IH]; intros s Hok Hh He; [now split|].
  cbn [collapse_hyphens]. destruct (Contains s "--"); [|now split].
  apply IH; [now apply all_bytes_replace | now apply head_replace | now apply ends_well_replace].
Qed.

(** A name of allowed bytes that has no hyphen at either end and no two
    hyphens in a row is a well-formed label. *)
Lemma label_intro (b : bool) (s : string) :
  all_bytes name_byte_ok s = true -> Contains s "--" = false ->
  ends_well s = true -> (b = true -> head_hyphen s = false) ->
  label_from b s = true.
Proof.
  revert b. induction s as [|c r IH]; intros b Hok Hdd He Hb; [discriminate He|].
  cbn [all_bytes] in Hok. apply andb_true_iff in Hok as [Hc Hr].
  rewrite Contains_cons in Hdd. apply orb_false_elim in Hdd as [Hp Hdd].
  cbn [label_from]. destruct (lower_alnum c) eqn:Hal.
  - destruct r as [|d r']; [reflexivity|]. apply IH; try assumption; discriminate.
  - assert (Hcy : Ascii.eqb c "-" = true).
    { unfold name_byte_ok in Hc. unfold lower_alnum in Hal. now rewrite Hal in Hc. }
    rewrite Hcy. cbn [head_hyphen] in Hb. destruct b; [rewrite Hb in Hcy; [discriminate | reflexivity]|].
    cbn [negb andb]. destruct r as [|d r'].
    + cbn [ends_well] in He. rewrite Hcy in He. discriminate He.
    + apply IH; try assumption. intros _. cbn [head_hyphen].
      rewrite prefix_cons, Ascii.eqb_sym, Hcy in Hp. cbn [andb] in Hp.
      rewrite prefix_cons in Hp. apply andb_false_iff in Hp as [Hp|Hp];
        [now rewrite Ascii.eqb_sym | now destruct r'].
Qed.

Lemma sanitizeName_result (s : string) :
  sanitizeName s = EmptyString \/ is_label (sanitizeName s) = true.
Proof.
  unfold sanitizeName, TrimHyphen.
  set (t := map_bytes _ (ToLower s)).
  assert (Hok : all_bytes name_byte_ok (trim_right_hyphen (trim_left_hyphen t)) = true)
    by (apply all_bytes_trim_right, all_bytes_trim_left, all_bytes_sanitized).
  assert (Hh : head_hyphen (trim_right_hyphen (trim_left_hyphen t)) = false)
    by (apply head_trim_right, head_trim_left).
  destruct (trim_right_ends (trim_left_hyphen t)) as [E|He].
  - left. rewrite E. reflexivity.
  - right. set (u := trim_right_hyphen (trim_left_hyphen t)) in *.
    destruct (collapse_keeps_ends (String.length u) u Hok Hh He) as [Hh' He'].
    apply label_intro; [now apply all_bytes_collapse | | exact He' | intros _; exact Hh'].
    apply collapse_hyphens_done. lia.
Qed.

(** X1. For a namespace and an Ingress name of 7-bit bytes and any host,
    the generated name is at most 63 bytes long, starts with [pic] and ends
    with the whole 8-digit fingerprint, truncated or not. *)
Theorem GenerateName_always_bounded (ns ing host : string) :
  is_ascii ns = true -> is_ascii ing = true ->
  (len (GenerateName ns ing host) <= 63)%Z
  /\ String.length (shortHash ns ing host) = 8%nat
  /\ exists middle, GenerateName ns ing host = "pic" +:+ middle +:+ shortHash ns ing host.
Proof.
  intros _ _. destruct (GenerateName_shape ns ing host) as [Hlen Hshape].
  split; [exact Hlen|]. split; [apply shortHash_length | exact Hshape].
Qed.

Lemma GenerateName_always_bounded_witness :
  is_ascii "My_Namespace" = true /\ is_ascii dotted_ingress_name = true
  /\ (len (GenerateName "My_Namespace" dotted_ingress_name "h") <= 63)%Z.
Proof.
  split; [reflexivity|]. split; [reflexivity|].
  exact (proj1 (GenerateName_always_bounded "My_Namespace" dotted_ingress_name "h"
                  eq_refl eq_refl)).
Defined.

(** X2. For a name of 7-bit bytes, what [sanitizeName] returns is either
    empty or a well-formed label: lower-case alphanumerics and hyphens only,
    no hyphen at either end, no two hyphens in a row. *)
Theorem sanitizeName_valid (s : string) :
  is_ascii s = true ->
  sanitizeName s = EmptyString \/ is_label (sanitizeName s) = true.
Proof. intros _. apply sanitizeName_result. Qed.

Lemma sanitizeName_valid_witness :
  is_ascii "--Foo__bar---baz.Q-" = true
  /\ (sanitizeName "--Foo__bar---baz.Q-" = EmptyString
      \/ is_label (sanitizeName "--Foo__bar---baz.Q-") = true).
Proof.
  split; [reflexivity|]. exact (sanitizeName_valid "--Foo__bar---baz.Q-" eq_refl).
Defined.

(** X3. [sanitizeName] is idempotent on names of 7-bit bytes: a name that
    it returned is left as it is by a second call. *)
Theorem sanitizeName_idempotent (s : string) :
  is_ascii s = true -> sanitizeName (sanitizeName s) = sanitizeName s.
Proof.
  intros _. destruct (sanitizeName_result s) as [E|H].
  - rewrite E. reflexivity.
  - now apply sanitizeName_label.
Qed.

Lemma sanitizeName_idempotent_witness :
  is_ascii "--Foo__bar---baz.Q-" = true
  /\ sanitizeName (sanitizeName "--Foo__bar---baz.Q-") = sanitizeName "--Foo__bar---baz.Q-".
Proof.
  split; [reflexivity|]. exact (sanitizeName_idempotent "--Foo__bar---baz.Q-" eq_refl).
Defined.

Lemma full_name_length (ns ing host : string) :
  len ("pic-" +:+ ns +:+ "-" +:+ ing +:+ "-" +:+ shortHash ns ing host)
  = (len ns + len ing + 14)%Z.
Proof.
  unfold len. rewrite !length_append, shortHash_length.
  change (String.length "pic-") with 4%nat. change (String.length "-") with 1%nat. lia.
Qed.

Lemma sanitized_name_not_empty (ns ing host : string) :
  sanitizeName ("pic-" +:+ ns +:+ "-" +:+ ing +:+ "-" +:+ shortHash ns ing host)
  <> EmptyString.
Proof.
  replace ("pic-" +:+ ns +:+ "-" +:+ ing +:+ "-" +:+ shortHash ns ing host)
    with ("pic-" +:+ (ns +:+ "-" +:+ ing) +:+ "-" +:+ shortHash ns ing host)
    by (rewrite !append_assoc; reflexivity).
  destruct (sanitizeName_keeps_shape (ns +:+ "-" +:+ ing) (shortHash ns ing host)
              (shortHash_alnum ns ing host) (shortHash_not_empty ns ing host)) as [t ->].
  discriminate.
Qed.

(** X4. Whenever the sanitized full name fits in 63 bytes, whatever 7-bit
    bytes the namespace and the Ingress name are made of, [GenerateName]
    returns that sanitized name, and it is a well-formed label. *)
Theorem GenerateName_untruncated_valid (ns ing host : string) :
  is_ascii ns = true -> is_ascii ing = true ->
  (len (sanitizeName ("pic-" +:+ ns +:+ "-" +:+ ing +:+ "-" +:+ shortHash ns ing host))
   <= 63)%Z ->
  GenerateName ns ing host
    = sanitizeName ("pic-" +:+ ns +:+ "-" +:+ ing +:+ "-" +:+ shortHash ns ing host)
  /\ is_label (GenerateName ns ing host) = true.
Proof.
  intros _ _ Hfit.
  assert (E : GenerateName ns ing host
              = sanitizeName ("pic-" +:+ ns +:+ "-" +:+ ing +:+ "-" +:+ shortHash ns ing host)).
  { unfold GenerateName, MaxNameLength, NamePrefix. cbv zeta.
    change ("pic" +:+ "-" +:+ ns +:+ "-" +:+ ing +:+ "-" +:+ shortHash ns ing host)
      with ("pic-" +:+ ns +:+ "-" +:+ ing +:+ "-" +:+ shortHash ns ing host).
    destruct (Z.gtb_spec
                (len (sanitizeName
                        ("pic-" +:+ ns +:+ "-" +:+ ing +:+ "-" +:+ shortHash ns ing host))) 63);
      [lia | reflexivity]. }
  split; [exact E|]. rewrite E.
  destruct (sanitizeName_result
              ("pic-" +:+ ns +:+ "-" +:+ ing +:+ "-" +:+ shortHash ns ing host)) as [H|H];
    [|exact H].
  now apply sanitized_name_not_empty in H.
Qed.

Lemma GenerateName_untruncated_valid_witness :
  is_label (GenerateName "Team_A" "My.App" "app.example.com") = true.
Proof.
  exact (proj2 (GenerateName_untruncated_valid "Team_A" "My.App" "app.example.com"
                  eq_refl eq_refl ltac:(vm_compute; discriminate))).
Defined.

(** X5. Truncation. For a namespace and an Ingress name that are
    well-formed labels, with a namespace shorter than 49 bytes and more than
    49 bytes in both together, the Ingress name is cut to its first
    [49 - len namespace] bytes and the result is exactly 63 bytes long. *)
Theorem GenerateName_truncates_ingress (ns ing host : string) :
  is_label ns = true -> is_label ing = true ->
  (len ns < 49)%Z -> (49 < len ns + len ing)%Z ->
  GenerateName ns ing host
    = "pic-" +:+ ns +:+ "-" +:+ substring 0 (Z.to_nat (49 - len ns)) ing
        +:+ "-" +:+ shortHash ns ing host
  /\ len (GenerateName ns ing host) = 63%Z.
Proof.
  intros Hns Hing Hlt Hgt.
  assert (E : GenerateName ns ing host
              = "pic-" +:+ ns +:+ "-" +:+ substring 0 (Z.to_nat (49 - len ns)) ing
                  +:+ "-" +:+ shortHash ns ing host).
  { unfold GenerateName, MaxNameLength, NamePrefix. cbv zeta.
    change ("pic" +:+ "-" +:+ ns +:+ "-" +:+ ing +:+ "-" +:+ shortHash ns ing host)
      with ("pic-" +:+ ns +:+ "-" +:+ ing +:+ "-" +:+ shortHash ns ing host).
    rewrite (sanitizeName_label _ (full_name_label ns ing host Hns Hing)), full_name_length.
    replace (len (shortHash ns ing host)) with 8%Z
      by (unfold len; now rewrite shortHash_length).
    change (len "pic") with 3%Z.
    replace (63 - (3 + 1 + len ns + 1) - (8 + 1))%Z with (49 - len ns)%Z by lia.
    destruct (Z.gtb_spec (len ns + len ing + 14) 63); [|lia].
    destruct (Z.gtb_spec (49 - len ns) 0); [|lia].
    destruct (Z.gtb_spec (len ing) (49 - len ns)); [reflexivity | lia]. }
  split; [exact E|]. rewrite E. unfold len in *.
  rewrite !length_append, shortHash_length, substring_length by lia.
  change (String.length "pic-") with 4%nat. change (String.length "-") with 1%nat. lia.
Qed.

Lemma GenerateName_truncates_ingress_witness :
  len (GenerateName "a" hyphen_ingress_name "h") = 63%Z.
Proof.
  exact (proj2 (GenerateName_truncates_ingress "a" hyphen_ingress_name "h"
                  eq_refl eq_refl eq_refl eq_refl)).
Defined.

(** X6. The extreme case. For a namespace of 49 bytes or more (namespace
    and Ingress name well-formed labels) neither of the two appears in the
    name: it is [pic-] followed by the fingerprint, 12 bytes in all. *)
Theorem GenerateName_long_namespace (ns ing host : string) :
  is_label ns = true -> is_label ing = true -> (49 <= len ns)%Z ->
  GenerateName ns ing host = "pic-" +:+ shortHash ns ing host.
Proof.
  intros Hns Hing Hge.
  assert (Hne : (0 < len ing)%Z).
  { unfold len. destruct ing; [discriminate Hing | cbn [String.length]; lia]. }
  unfold GenerateName, MaxNameLength, NamePrefix. cbv zeta.
  change ("pic" +:+ "-" +:+ ns +:+ "-" +:+ ing +:+ "-" +:+ shortHash ns ing host)
    with ("pic-" +:+ ns +:+ "-" +:+ ing +:+ "-" +:+ shortHash ns ing host).
  rewrite (sanitizeName_label _ (full_name_label ns ing host Hns Hing)), full_name_length.
  replace (len (shortHash ns ing host)) with 8%Z
    by (unfold len; now rewrite shortHash_length).
  change (len "pic") with 3%Z.
  destruct (Z.gtb_spec (len ns + len ing + 14) 63); [|lia].
  destruct (Z.gtb_spec (63 - (3 + 1 + len ns + 1) - (8 + 1)) 0); [lia | reflexivity].
Qed.

Lemma GenerateName_long_namespace_witness :
  GenerateName (repeat_byte 49 "n") "myapp" "app.example.com" = "pic-e3b04340".
Proof.
  rewrite (GenerateName_long_namespace (repeat_byte 49 "n") "myapp" "app.example.com"
             eq_refl eq_refl ltac:(vm_compute; discriminate)).
  vm_compute. reflexivity.
Defined.

Lemma append_same_tail (a a' h h' : string) :
  String.length h = String.length h' -> a +:+ h = a' +:+ h' -> h = h'.
Proof.
  intros Hlen. revert a'. induction a as [|c a IH]; intros [|c' a'] E.
  - exact E.
  - change (h = String c' (a' +:+ h')) in E. apply (f_equal String.length) in E.
    cbn [String.length] in E. rewrite length_append in E. lia.
  - change (String c (a +:+ h) = h') in E. apply (f_equal String.length) in E.
    cbn [String.length] in E. rewrite length_append in E. lia.
  - change (String c (a +:+ h) = String c' (a' +:+ h')) in E.
    injection E as _ E. exact (IH a' E).
Qed.

(** X7. Names collide only through the fingerprint. If two triples of
    7-bit namespace and Ingress name get the same name, their fingerprints
    are equal; and two hosts of one Ingress get the same name exactly when
    their fingerprints are equal. *)
Theorem GenerateName_collides_on_fingerprint (ns ing host ns' ing' host' : string) :
  is_ascii ns = true -> is_ascii ing = true ->
  is_ascii ns' = true -> is_ascii ing' = true ->
  (GenerateName ns ing host = GenerateName ns' ing' host' ->
   shortHash ns ing host = shortHash ns' ing' host')
  /\ (GenerateName ns ing host = GenerateName ns ing host' <->
      shortHash ns ing host = shortHash ns ing host').
Proof.
  intros _ _ _ _.
  assert (Hto : forall n1 i1 h1 n2 i2 h2,
             GenerateName n1 i1 h1 = GenerateName n2 i2 h2 ->
             shortHash n1 i1 h1 = shortHash n2 i2 h2).
  { intros n1 i1 h1 n2 i2 h2 E.
    destruct (GenerateName_shape n1 i1 h1) as [_ [m1 E1]].
    destruct (GenerateName_shape n2 i2 h2) as [_ [m2 E2]].
    rewrite E1, E2, <- !append_assoc in E.
    apply (append_same_tail _ _ _ _ (eq_trans (shortHash_length n1 i1 h1)
                                       (eq_sym (shortHash_length n2 i2 h2))) E). }
  split; [apply Hto|]. split; [apply Hto|].
  intros E. unfold GenerateName. rewrite E. reflexivity.
Qed.

Lemma GenerateName_collides_on_fingerprint_witness :
  GenerateName "default" "myapp" "h16510.example.com"
    = GenerateName "default" "myapp" "h158137.example.com"
  <-> shortHash "default" "myapp" "h16510.example.com"
      = shortHash "default" "myapp" "h158137.example.com".
Proof.
  exact (proj2 (GenerateName_collides_on_fingerprint
                  "default" "myapp" "h16510.example.com"
                  "default" "myapp" "h158137.example.com"
                  eq_refl eq_refl eq_refl eq_refl)).
Defined.

(* ===================================================================== *)
(** * Further properties of the controller                                *)
(* ===================================================================== *)

(** ** The spec differ and the target builder *)

(** X8. When both specs carry an HTTPConfig, as every spec that the
    controller builds does, [specChanged] misses nothing: it answers
    [false] exactly when the two specs are equal. *)
Theorem specChanged_complete_with_HTTPConfig (current desired : PangolinResourceSpec) :
  Spec_HTTPConfig current <> None -> Spec_HTTPConfig desired <> None ->
  (specChanged current desired = false <-> current = desired).
Proof.
  intros Hc Hd. split; [|intros ->; apply specChanged_refl].
  intros H. apply specChanged_false in H as (E1 & E2 & E3 & E4 & E5 & E6).
  destruct current as [n e p t h ts], desired as [n' e' p' t' h' ts']; cbn in *. subst.
  destruct h as [h|]; [|contradiction]. destruct h' as [h'|]; [|contradiction].
  now rewrite (E5 h h' eq_refl eq_refl).
Qed.

Lemma specChanged_complete_with_HTTPConfig_witness :
  specChanged (spec_with_http (Some http_app)) (spec_with_http (Some http_app)) = false
  <-> spec_with_http (Some http_app) = spec_with_http (Some http_app).
Proof.
  apply (specChanged_complete_with_HTTPConfig
           (spec_with_http (Some http_app)) (spec_with_http (Some http_app)));
    discriminate.
Defined.

(** X9. For paths of at most 214748354 bytes the priority lies between 100
    and 1000, a longer path never gets a lower priority than a shorter one,
    and every path of 90 bytes or more gets 1000. *)
Theorem pathPriority_range_and_order (p q : string) :
  (len p <= len q)%Z -> (len q <= 214748354)%Z ->
  (100 <= pathPriority p <= pathPriority q)%Z
  /\ (pathPriority q <= 1000)%Z
  /\ ((90 <= len p)%Z -> pathPriority p = 1000%Z).
Proof.
  intros Hpq Hq. pose proof (len_nonneg p) as H0.
  rewrite (pathPriority_formula p), (pathPriority_formula q) by lia. lia.
Qed.

Lemma pathPriority_range_and_order_witness :
  (100 <= pathPriority "/" <= pathPriority "/api/v1")%Z.
Proof.
  apply (pathPriority_range_and_order "/" "/api/v1"); vm_compute; discriminate.
Defined.

(** X10. The targets of a host are one per path that has a service
    backend, in the order of the paths; a path without one is dropped. Each
    target carries the service's port number as it is (zero for a port given
    by name), the configured scheme and the match type [exact] or [prefix]. *)
Theorem buildTargets_one_per_backend (r : IngressReconciler) (ing : Ingress)
    (paths : list HTTPIngressPath) :
  Forall2 (target_of r ing) (List.filter has_service paths) (buildTargets r ing paths).
Proof.
  induction paths as [|path rest IH]; [constructor|].
  cbn [List.filter buildTargets]. unfold has_service at 1.
  destruct (Backend_Service (Path_Backend path)) as [service|] eqn:Hs; [|exact IH].
  constructor; [|exact IH]. exists service. split; [exact Hs|].
  unfold buildTarget.
  cbn [Target_IP Target_Port Target_Method Target_Path Target_PathMatchType Target_Priority].
  repeat split.
  - destruct (Z.eqb_spec (Port_Number (Service_Port service)) 0) as [->|]; reflexivity.
  - destruct (Path_PathType path) as [ty|]; [|reflexivity].
    destruct (String.eqb ty PathTypeExact); [reflexivity|].
    destruct (String.eqb ty PathTypePrefix); [reflexivity|].
    destruct (String.eqb ty PathTypeImplementationSpecific); reflexivity.
Qed.

(** X11. A resource that [buildDesiredPangolinResource] returns is in the
    namespace of the Ingress, is named by [GenerateName] (at most 63 bytes),
    carries the UID label by which the cleanup and [handleUnmanaged] list the
    resources of the Ingress, refers to the tunnel it was given, is enabled,
    has protocol [http], an HTTPConfig and at least one target; the owner
    reference set on it is the controlling Ingress alone. *)
Theorem built_resource_is_owned (SplitHost : string -> string + (string * string))
    (r : IngressReconciler) (ing : Ingress) (host : string)
    (paths : list HTTPIngressPath) (tunnelName tunnelNamespace : string)
    (d : PangolinResource) :
  buildDesiredPangolinResource SplitHost r ing host paths tunnelName tunnelNamespace = inr d ->
  owned_by (Ingress_Namespace ing) (Ingress_UID ing) d = true
  /\ Resource_Namespace d = Ingress_Namespace ing
  /\ Resource_Name d = GenerateName (Ingress_Namespace ing) (Ingress_Name ing) host
  /\ (len (Resource_Name d) <= 63)%Z
  /\ Spec_Name (Resource_Spec d)
     = Ingress_Namespace ing +:+ "/" +:+ Ingress_Name ing +:+ "/" +:+ host
  /\ Spec_Enabled (Resource_Spec d) = true
  /\ Spec_Protocol (Resource_Spec d) = "http"
  /\ Spec_TunnelRef (Resource_Spec d)
     = {| TunnelRef_Name := tunnelName; TunnelRef_Namespace := tunnelNamespace |}
  /\ Spec_HTTPConfig (Resource_Spec d) <> None
  /\ Spec_Targets (Resource_Spec d) <> []
  /\ Resource_OwnerReferences (SetControllerReference ing d) = [ControllerRef ing]
  /\ owned_by (Ingress_Namespace ing) (Ingress_UID ing) (SetControllerReference ing d) = true.
Proof.
  unfold buildDesiredPangolinResource.
  destruct (SplitHost host) as [|[sub dom]]; [discriminate|].
  destruct (buildTargets r ing paths) as [|t ts] eqn:Ht; [discriminate|].
  cbn [length Nat.eqb]. intros [= <-].
  unfold owned_by, SetControllerReference.
  cbn [Resource_Namespace Resource_Name Resource_Labels Resource_Spec Resource_OwnerReferences
       Spec_Name Spec_Enabled Spec_Protocol Spec_TunnelRef Spec_HTTPConfig Spec_Targets].
  rewrite lookup_insert_eq, !String.eqb_refl.
  repeat split; try reflexivity; try discriminate. apply GenerateName_length.
Qed.

Lemma built_resource_is_owned_witness :
  owned_by "default" "uid-1" resource_app = true.
Proof.
  exact (proj1 (built_resource_is_owned SplitHost_model reconciler0 ingress_one_host
                  "app.example.com" [service_path "/" "svc-a" 80] "default" "pangolin-system"
                  resource_app ltac:(vm_compute; reflexivity))).
Defined.

(** X12. The HTTPConfig of a built resource. The domain and the subdomain
    are those of [SplitHost] unless the annotation is present and not empty,
    in which case the annotation wins; SSO and access blocking are on
    exactly when their annotation is the string [true]. *)
Theorem built_HTTPConfig (SplitHost : string -> string + (string * string))
    (r : IngressReconciler) (ing : Ingress) (host : string)
    (paths : list HTTPIngressPath) (tunnelName tunnelNamespace : string)
    (d : PangolinResource) (subdomain domain : string) :
  SplitHost host = inr (subdomain, domain) ->
  buildDesiredPangolinResource SplitHost r ing host paths tunnelName tunnelNamespace = inr d ->
  Spec_HTTPConfig (Resource_Spec d)
  = Some {| HTTPConfig_DomainName := annotation_or ing AnnotationDomainName domain;
            HTTPConfig_Subdomain := annotation_or ing AnnotationSubdomain subdomain;
            HTTPConfig_SSO :=
              String.eqb (index_string (Ingress_Annotations ing) AnnotationSSO) "true";
            HTTPConfig_BlockAccess :=
              String.eqb (index_string (Ingress_Annotations ing) AnnotationBlockAccess)
                         "true" |}.
Proof.
  intros Hsplit. unfold buildDesiredPangolinResource. rewrite Hsplit.
  destruct (Nat.eqb _ 0); [discriminate|]. intros [= <-].
  cbn [Resource_Spec Spec_HTTPConfig]. unfold annotation_or, index_string.
  destruct (Ingress_Annotations ing !! AnnotationDomainName) as [o1|];
    destruct (Ingress_Annotations ing !! AnnotationSubdomain) as [o2|];
    cbn [default id]; try destruct (String.eqb o1 ""); try destruct (String.eqb o2 "");
    reflexivity.
Qed.

Lemma built_HTTPConfig_witness :
  exists d,
    buildDesiredPangolinResource SplitHost_model reconciler0 ingress_overrides
      "app.example.com" [service_path "/" "svc-a" 80] "default" "pangolin-system" = inr d
    /\ Spec_HTTPConfig (Resource_Spec d)
       = Some {| HTTPConfig_DomainName := "corp.example.org"; HTTPConfig_Subdomain := "app";
                 HTTPConfig_SSO := false; HTTPConfig_BlockAccess := false |}.
Proof.
  eexists. split; [vm_compute; reflexivity|].
  rewrite (built_HTTPConfig SplitHost_model reconciler0 ingress_overrides
             "app.example.com" [service_path "/" "svc-a" 80] "default" "pangolin-system"
             _ "app" "example.com" eq_refl ltac:(vm_compute; reflexivity)).
  vm_compute. reflexivity.
Defined.

(** ** The tunnel of an Ingress *)

Lemma substring_all (s : string) : substring 0 (String.length s) s = s.
Proof. induction s as [|c s IH]; [reflexivity|]. cbn. now rewrite IH. Qed.

Lemma TrimPrefix_app (pre rest : string) : TrimPrefix (pre +:+ rest) pre = rest.
Proof.
  unfold TrimPrefix, HasPrefix.
  assert (Hp : String.prefix pre (pre +:+ rest) = true) by (apply prefix_app; now exists rest).
  rewrite Hp, length_append.
  replace (String.length pre + String.length rest - String.length pre)%nat
    with (String.length rest) by lia.
  induction pre as [|c pre IH]; [apply substring_all|].
  change (String c pre +:+ rest) with (String c (pre +:+ rest)).
  cbn [String.length substring]. apply IH. apply prefix_app. now exists rest.
Qed.

Lemma class_suffix_not_default (suffix : string) :
  String.eqb ("pangolin-" +:+ suffix) IngressClassPangolin = false.
Proof.
  apply String.eqb_neq. intros E. apply (f_equal String.length) in E.
  rewrite length_append in E. cbn in E. lia.
Qed.

Lemma resolveTunnel_accepts (r : IngressReconciler) (ing : Ingress) :
  isManaged ing = true -> exists tunnelName, resolveTunnel r ing = inr tunnelName.
Proof.
  unfold isManaged, resolveTunnel. intros H.
  destruct (Ingress_Annotations ing !! AnnotationTunnelName) as [[|c rest]|];
    try (eexists; reflexivity);
    destruct (match Ingress_Annotations ing !! AnnotationEnabled with
              | Some enabled => String.eqb (ToLower enabled) "false"
              | None => false
              end); try discriminate H;
    cbv zeta in *;
    destruct (String.eqb _ IngressClassPangolin); try (eexists; reflexivity);
    cbn [orb] in H; rewrite H;
    destruct (TunnelMapping (r_Config r) !! _); eexists; reflexivity.
Qed.

(** X13. The tunnel of a managed Ingress always resolves: [resolveTunnel]
    returns a tunnel name and no error on every Ingress that [isManaged]
    accepts, so the pass of a managed Ingress never stops at the tunnel
    resolution. *)
Theorem resolveTunnel_managed (r : IngressReconciler) (ing : Ingress) :
  isManaged ing = true ->
  (exists tunnelName, resolveTunnel r ing = inr tunnelName)
  /\ forall e, resolveTunnel r ing <> inl e.
Proof.
  intros H. destruct (resolveTunnel_accepts r ing H) as [tunnelName E].
  split; [now exists tunnelName|]. intros e. rewrite E. discriminate.
Qed.

Lemma resolveTunnel_managed_witness :
  isManaged ingress_edge = true /\ exists tunnelName,
    resolveTunnel reconciler0 ingress_edge = inr tunnelName.
Proof.
  split; [reflexivity|]. exact (proj1 (resolveTunnel_managed reconciler0 ingress_edge eq_refl)).
Defined.

(** X14. Which tunnel. A non-empty tunnel-name annotation wins over the
    class. Without it the class [pangolin] gives the default tunnel of the
    configuration, and a class [pangolin-<suffix>] gives the entry of the
    tunnel mapping for the suffix or, when there is none, the suffix itself
    (the empty name for the class [pangolin-]). *)
Theorem resolveTunnel_precedence (r : IngressReconciler) (ing : Ingress) :
  let annotation := index_string (Ingress_Annotations ing) AnnotationTunnelName in
  (annotation <> "" -> resolveTunnel r ing = inr annotation)
  /\ (annotation = "" -> Ingress_ClassName ing = Some "pangolin" ->
      resolveTunnel r ing = inr (DefaultTunnelName (r_Config r)))
  /\ (forall suffix, annotation = "" ->
        Ingress_ClassName ing = Some ("pangolin-" +:+ suffix) ->
        resolveTunnel r ing = inr (default suffix (TunnelMapping (r_Config r) !! suffix))).
Proof.
  unfold resolveTunnel, index_string. cbv zeta.
  destruct (Ingress_Annotations ing !! AnnotationTunnelName) as [[|c rest]|]; cbn [default].
  - split; [intros H; now contradiction H|]. split.
    + intros _ ->. reflexivity.
    + intros suffix _ ->. rewrite class_suffix_not_default.
      unfold IngressClassPrefix at 1, HasPrefix.
      rewrite (proj2 (prefix_app "pangolin-" _) (ex_intro _ suffix eq_refl)).
      unfold IngressClassPrefix. rewrite TrimPrefix_app.
      destruct (TunnelMapping (r_Config r) !! suffix); reflexivity.
  - split; [reflexivity|]. split; [discriminate|]. intros suffix E. discriminate E.
  - split; [intros H; now contradiction H|]. split.
    + intros _ ->. reflexivity.
    + intros suffix _ ->. rewrite class_suffix_not_default.
      unfold IngressClassPrefix at 1, HasPrefix.
      rewrite (proj2 (prefix_app "pangolin-" _) (ex_intro _ suffix eq_refl)).
      unfold IngressClassPrefix. rewrite TrimPrefix_app.
      destruct (TunnelMapping (r_Config r) !! suffix); reflexivity.
Qed.

Lemma resolveTunnel_precedence_witness :
  resolveTunnel reconciler0 ingress_edge = inr "edge".
Proof.
  exact (proj2 (proj2 (resolveTunnel_precedence reconciler0 ingress_edge))
           "edge" eq_refl eq_refl).
Defined.

(** ** Deleting what an Ingress owns *)

Lemma deleteAll_run (ing : Ingress) (items : list PangolinResource) (c : Cluster) :
  deleteAll ing items c = (None, after_unmanaged ing items c).
Proof.
  revert c. induction items as [|x rest IH]; intros c.
  - unfold after_unmanaged, listed_in. cbn. rewrite filter_all by reflexivity.
    rewrite !app_nil_r. now destruct c.
  - assert (Hgo : deleteAll ing (x :: rest) c
                  = deleteAll ing rest (add_events [UnmanagedEvent ing x] (after_delete x c))).
    { cbn [deleteAll]. unfold bind.
      destruct (Delete_run x c) as (err & -> & [->| ->]); reflexivity. }
    rewrite Hgo, IH.
    unfold after_unmanaged, add_events, after_delete, listed_in.
    cbn [ingresses tunnels resources calls events map existsb].
    f_equal. f_equal.
    + rewrite filter_filter. apply List.filter_ext. intros y. now rewrite negb_orb.
    + now rewrite <- app_assoc.
    + now rewrite <- app_assoc.
Qed.

Lemma owned_by_self (ing : Ingress) (x : PangolinResource) :
  owned_by (Ingress_Namespace ing) (Ingress_UID ing) x = true ->
  Resource_Namespace x = Ingress_Namespace ing.
Proof. unfold owned_by. intros H. apply andb_true_iff in H as [H _]. now apply String.eqb_eq. Qed.

Lemma handleUnmanaged_result (ing : Ingress) (c : Cluster) :
  fst (handleUnmanaged ing c) = ({| Requeue := false |}, None)
  /\ handleUnmanaged ing c
     = ({| Requeue := false |}, None,
        after_unmanaged ing
          (List.filter (owned_by (Ingress_Namespace ing) (Ingress_UID ing)) (resources c)) c).
Proof.
  unfold handleUnmanaged, bind, ListResources. rewrite deleteAll_run. now split.
Qed.

Lemma after_unmanaged_none_owned (ing : Ingress) (c : Cluster) (y : PangolinResource) :
  In y (resources (after_unmanaged ing
          (List.filter (owned_by (Ingress_Namespace ing) (Ingress_UID ing)) (resources c)) c)) ->
  owned_by (Ingress_Namespace ing) (Ingress_UID ing) y = false.
Proof.
  unfold after_unmanaged. cbn [resources]. rewrite filter_In, negb_true_iff.
  intros [Hy Hl].
  destruct (owned_by (Ingress_Namespace ing) (Ingress_UID ing) y) eqn:Ho; [|reflexivity].
  assert (Hex : listed_in (List.filter (owned_by (Ingress_Namespace ing) (Ingress_UID ing))
                                       (resources c)) y = true).
  { apply existsb_exists. exists y. split; [|apply same_object_self].
    apply filter_In. now split. }
  rewrite Hex in Hl. discriminate Hl.
Qed.

(** X15. [handleUnmanaged] never fails. It issues one Delete and records
    one [Deleted] event for each resource that carries the UID label of the
    Ingress in its namespace, in the order of the listing; afterwards the
    store holds no resource of the Ingress, every object that does not have
    the namespace and name of a listed one is still there, and a second run
    finds nothing to do. *)
Theorem handleUnmanaged_removes_owned (ing : Ingress) (c : Cluster) :
  let owned :=
    List.filter (owned_by (Ingress_Namespace ing) (Ingress_UID ing)) (resources c) in
  let c' := snd (handleUnmanaged ing c) in
  fst (handleUnmanaged ing c) = ({| Requeue := false |}, None)
  /\ ingresses c' = ingresses c /\ tunnels c' = tunnels c
  /\ calls c' = calls c ++ map CallDeleteOf owned
  /\ events c' = events c ++ map (UnmanagedEvent ing) owned
  /\ (forall y, In y (resources c') <->
                In y (resources c) /\ listed_in owned y = false)
  /\ (forall y, In y (resources c') ->
                owned_by (Ingress_Namespace ing) (Ingress_UID ing) y = false)
  /\ handleUnmanaged ing c' = ({| Requeue := false |}, None, c').
Proof.
  intros owned c'.
  assert (Hrun : forall k, handleUnmanaged ing k
            = ({| Requeue := false |}, None,
               after_unmanaged ing
                 (List.filter (owned_by (Ingress_Namespace ing) (Ingress_UID ing))
                              (resources k)) k)).
  { intros k. unfold handleUnmanaged, bind, ListResources. now rewrite deleteAll_run. }
  assert (Hc' : c' = after_unmanaged ing owned c) by (unfold c'; now rewrite Hrun).
  assert (Hin : forall y, In y (resources c') <->
                          In y (resources c) /\ listed_in owned y = false).
  { intros y. rewrite Hc'. unfold after_unmanaged. cbn [resources].
    rewrite filter_In, negb_true_iff. reflexivity. }
  assert (Hnone : forall y, In y (resources c') ->
                            owned_by (Ingress_Namespace ing) (Ingress_UID ing) y = false).
  { intros y. rewrite Hc'. apply after_unmanaged_none_owned. }
  rewrite Hrun. cbn [fst]. repeat split; try (rewrite Hc'; reflexivity).
  - now apply Hin.
  - now apply Hin.
  - intros [Hy Hl]. apply Hin. now split.
  - exact Hnone.
  - rewrite Hrun. f_equal.
    assert (Hempty : List.filter (owned_by (Ingress_Namespace ing) (Ingress_UID ing))
                                 (resources c') = []).
    { destruct (List.filter _ (resources c')) as [|y l] eqn:Hf; [reflexivity|].
      assert (Hy : In y (List.filter (owned_by (Ingress_Namespace ing) (Ingress_UID ing))
                                     (resources c'))) by (rewrite Hf; now left).
      apply filter_In in Hy as [Hy Ho]. rewrite (Hnone y Hy) in Ho. discriminate Ho. }
    rewrite Hempty. unfold after_unmanaged, listed_in. cbn.
    rewrite filter_all by reflexivity. rewrite !app_nil_r. now destruct c'.
Qed.

(** X16. [cleanupOrphanedResources] never fails. It issues one Delete and
    records one [Deleted] event for each listed resource of the Ingress whose
    name is not desired, in the order of the listing; afterwards no resource
    of the Ingress has an undesired name, and every object whose name is
    desired, or that lives in another namespace, is still there. *)
Theorem cleanupOrphanedResources_removes_orphans (ing : Ingress)
    (desiredNames : gmap string bool) (c : Cluster) :
  let orphans :=
    List.filter (is_orphan desiredNames)
      (List.filter (owned_by (Ingress_Namespace ing) (Ingress_UID ing)) (resources c)) in
  let c' := snd (cleanupOrphanedResources ing desiredNames c) in
  fst (cleanupOrphanedResources ing desiredNames c) = None
  /\ ingresses c' = ingresses c /\ tunnels c' = tunnels c
  /\ calls c' = calls c ++ map CallDeleteOf orphans
  /\ events c' = events c ++ map (DeletedEvent ing) orphans
  /\ (forall y, In y (resources c') -> In y (resources c))
  /\ (forall y, In y (resources c') ->
                owned_by (Ingress_Namespace ing) (Ingress_UID ing) y = true ->
                index_bool desiredNames (Resource_Name y) = true)
  /\ (forall y, In y (resources c) ->
                index_bool desiredNames (Resource_Name y) = true
                \/ Resource_Namespace y <> Ingress_Namespace ing ->
                In y (resources c')).
Proof.
  intros orphans c'.
  assert (Hrun : cleanupOrphanedResources ing desiredNames c
            = (None, after_cleanup ing desiredNames
                       (List.filter (owned_by (Ingress_Namespace ing) (Ingress_UID ing))
                                    (resources c)) c)).
  { unfold cleanupOrphanedResources, bind, ListResources. now rewrite deleteOrphans_run. }
  unfold c'. rewrite Hrun. cbn [fst snd].
  repeat split.
  - intros y Hy. unfold after_cleanup in Hy. cbn [resources] in Hy.
    now apply filter_In in Hy as [Hy _].
  - intros y Hy Ho. exact (cleanup_leaves_no_orphan ing desiredNames c y Hy Ho).
  - intros y Hy Hkeep. unfold after_cleanup. cbn [resources].
    apply filter_In. split; [exact Hy|].
    apply negb_true_iff, not_true_is_false. rewrite existsb_exists.
    intros (x & Hx & Hox). apply andb_true_iff in Hox as [Hox Hs].
    apply filter_In in Hx as [_ Hown]. apply owned_by_self in Hown.
    apply same_object_eq in Hs as [Hns Hn]. unfold is_orphan in Hox.
    destruct Hkeep as [Hd|Hother].
    + rewrite <- Hn, Hd in Hox. discriminate Hox.
    + congruence.
Qed.

(** ** Creating and updating *)

Lemma reconcile_create (ing : Ingress) (d : PangolinResource) (c : Cluster) :
  lookup_resource (Resource_Namespace d) (Resource_Name d) (resources c) = None ->
  reconcilePangolinResource ing d c
  = (None, after_write (resources c ++ [d])
             (CallCreate (Resource_Namespace d) (Resource_Name d))
             (WriteEvent ing "Created" d) c).
Proof.
  intros Hl. unfold reconcilePangolinResource, bind, GetResource. rewrite Hl.
  cbn [IsNotFound].
  unfold Create, bind, record_call, GetResource, set_resources, ret, RecordEvent.
  cbn [resources]. rewrite Hl. reflexivity.
Qed.

Lemma reconcile_update (ing : Ingress) (d x : PangolinResource) (c : Cluster) :
  lookup_resource (Resource_Namespace d) (Resource_Name d) (resources c) = Some x ->
  specChanged (Resource_Spec x) (Resource_Spec d) = true ->
  reconcilePangolinResource ing d c
  = (None, after_write
             (map (fun y => if same_object (Resource_Namespace d) (Resource_Name d) y
                            then withSpec x (Resource_Spec d) else y) (resources c))
             (CallUpdate (Resource_Namespace d) (Resource_Name d))
             (WriteEvent ing "Updated" d) c).
Proof.
  intros Hl Hs. unfold reconcilePangolinResource, bind, GetResource. rewrite Hl, Hs.
  apply lookup_resource_some in Hl as Hx. destruct Hx as (_ & Hns & Hn).
  unfold Update, bind, record_call, GetResource, set_resources, ret, RecordEvent.
  cbn [resources withSpec Resource_Namespace Resource_Name].
  rewrite Hns, Hn, Hl. reflexivity.
Qed.

(** X17. [reconcilePangolinResource] never fails and writes at most once.
    When the store has no object of the desired namespace and name, the
    desired object is created. When it has one whose spec differs for
    [specChanged], that object gets the desired spec and keeps its own labels
    and owner references, with one Update. Otherwise nothing is written and
    no event is recorded. *)
Theorem reconcilePangolinResource_cases (ing : Ingress) (d : PangolinResource) (c : Cluster) :
  let namespace := Resource_Namespace d in
  let name := Resource_Name d in
  match lookup_resource namespace name (resources c) with
  | None =>
      reconcilePangolinResource ing d c
      = (None, after_write (resources c ++ [d]) (CallCreate namespace name)
                 (WriteEvent ing "Created" d) c)
  | Some x =>
      if specChanged (Resource_Spec x) (Resource_Spec d) then
        reconcilePangolinResource ing d c
        = (None, after_write
                   (map (fun y => if same_object namespace name y
                                  then withSpec x (Resource_Spec d) else y) (resources c))
                   (CallUpdate namespace name) (WriteEvent ing "Updated" d) c)
      else reconcilePangolinResource ing d c = (None, c)
  end.
Proof.
  cbv zeta.
  destruct (lookup_resource (Resource_Namespace d) (Resource_Name d) (resources c))
    as [x|] eqn:Hl.
  - destruct (specChanged (Resource_Spec x) (Resource_Spec d)) eqn:Hs.
    + now apply reconcile_update.
    + now apply (reconcile_noop ing d x).
  - now apply reconcile_create.
Qed.

(** ** Whole passes *)

Lemma processHosts_result (SplitHost : string -> string + (string * string))
    (order : RangeOrder) (r : IngressReconciler) (ing : Ingress)
    (tunnelName tunnelNamespace : string) (c : Cluster) :
  fst (processHosts SplitHost order r ing tunnelName tunnelNamespace c)
  = ({| Requeue := false |}, None).
Proof.
  unfold processHosts.
  destruct (Nat.eqb (length (Ingress_Rules ing)) 0); [reflexivity|].
  unfold bind at 1. rewrite collectHostPaths_run.
  destruct (Nat.eqb (length _) 0); [reflexivity|]. unfold bind.
  destruct (processGroups_total SplitHost r ing tunnelName tunnelNamespace
              (groups_of (order (hostMapOf (Ingress_Rules ing) ∅))) ∅
              (add_events (map (fun _ => EmptyHostEvent ing)
                             (emptyHostRules (Ingress_Rules ing))) c))
    as (cb & -> & _ & _).
  cbn [fst snd]. unfold cleanupOrphanedResources, bind, ListResources.
  now rewrite deleteOrphans_run.
Qed.

Lemma validateTunnel_missing (tunnelName : string) (c : Cluster) :
  (forall t, In t (tunnels c) -> Tunnel_Name t <> tunnelName) <->
  fst (validateTunnel tunnelName c) = inl (ErrTunnelNotFound tunnelName).
Proof.
  unfold validateTunnel, bind, ListTunnels, ret. cbn [fst].
  destruct (List.find _ (tunnels c)) as [t|] eqn:Hf.
  - apply find_some in Hf as [Hin Ht]. apply String.eqb_eq in Ht.
    split; [intros H; now apply H in Hin | discriminate].
  - split; [reflexivity|]. intros _ t Hin Ht.
    apply (find_none _ _ Hf) in Hin. apply String.eqb_neq in Hin. contradiction.
Qed.

(** X18. A managed Ingress whose tunnel is in no namespace. The pass
    records one [TunnelNotFound] warning and asks for a requeue without an
    error; it issues no write and leaves every stored object as it is,
    whatever the rules of the Ingress are. *)
Theorem Reconcile_requeues_without_tunnel
    (SplitHost : string -> string + (string * string)) (order : RangeOrder)
    (r : IngressReconciler) (namespace name : string) (c : Cluster) (ing : Ingress)
    (tunnelName : string) :
  fst (GetIngress namespace name c) = inr ing ->
  isManaged ing = true ->
  resolveTunnel r ing = inr tunnelName ->
  (forall t, In t (tunnels c) -> Tunnel_Name t <> tunnelName) ->
  Reconcile SplitHost order r namespace name c
  = ({| Requeue := true |}, None, add_events [TunnelNotFoundEvent ing tunnelName] c).
Proof.
  intros Hget Hman Hres Hno.
  rewrite (Reconcile_managed SplitHost order r namespace name c ing tunnelName Hget Hman Hres).
  apply validateTunnel_missing in Hno. now rewrite Hno.
Qed.

Lemma Reconcile_requeues_without_tunnel_witness :
  Reconcile SplitHost_model order_fwd reconciler0 "default" "myapp"
    (cluster_of ingress_edge [owned_app])
  = ({| Requeue := true |}, None,
     add_events [TunnelNotFoundEvent ingress_edge "edge"]
       (cluster_of ingress_edge [owned_app])).
Proof.
  apply (Reconcile_requeues_without_tunnel SplitHost_model order_fwd reconciler0
           "default" "myapp" (cluster_of ingress_edge [owned_app]) ingress_edge "edge");
    try reflexivity.
  intros t [<-|[]]. discriminate.
Defined.

(** X19. Against a store that answers every request (the only failures it
    has are NotFound and AlreadyExists) [Reconcile] returns no error, for
    every request, cluster and order of the host groups; and it asks for a
    requeue exactly when the Ingress is there and managed and its tunnel is
    in no namespace. *)
Theorem Reconcile_returns_no_error
    (SplitHost : string -> string + (string * string)) (order : RangeOrder)
    (r : IngressReconciler) (namespace name : string) (c : Cluster) :
  snd (fst (Reconcile SplitHost order r namespace name c)) = None
  /\ (Requeue (fst (fst (Reconcile SplitHost order r namespace name c))) = true <->
      exists ing tunnelName,
        fst (GetIngress namespace name c) = inr ing
        /\ isManaged ing = true
        /\ resolveTunnel r ing = inr tunnelName
        /\ forall t, In t (tunnels c) -> Tunnel_Name t <> tunnelName).
Proof.
  destruct (fst (GetIngress namespace name c)) as [e|ing] eqn:Hget.
  - assert (He : e = ErrNotFound).
    { unfold GetIngress in Hget. cbn [fst] in Hget.
      destruct (List.find _ (ingresses c)); [discriminate | congruence]. }
    subst e. unfold Reconcile, bind. rewrite GetIngress_run, Hget. cbn.
    split; [reflexivity|]. split; [discriminate|]. intros (i & t & Hi & _). discriminate Hi.
  - destruct (isManaged ing) eqn:Hman.
    + destruct (resolveTunnel_accepts r ing Hman) as [tunnelName Hres].
      rewrite (Reconcile_managed SplitHost order r namespace name c ing tunnelName
                 Hget Hman Hres).
      destruct (fst (validateTunnel tunnelName c)) as [e|tunnelNamespace] eqn:Hv.
      * cbn [fst snd Requeue]. split; [reflexivity|]. split; [|reflexivity].
        intros _. exists ing, tunnelName. repeat split; try assumption.
        apply validateTunnel_missing. rewrite Hv. f_equal.
        unfold validateTunnel, bind, ListTunnels, ret in Hv. cbn [fst] in Hv.
        destruct (List.find _ (tunnels c)); [discriminate | congruence].
      * rewrite processHosts_result. cbn [fst snd Requeue].
        split; [reflexivity|]. split; [discriminate|].
        intros (i & t & Hi & _ & Ht & Hno). injection Hi as <-.
        rewrite Hres in Ht. injection Ht as <-.
        apply validateTunnel_missing in Hno. rewrite Hv in Hno. discriminate Hno.
    + assert (Hrun : fst (Reconcile SplitHost order r namespace name c)
                     = ({| Requeue := false |}, None)).
      { unfold Reconcile, bind. rewrite GetIngress_run, Hget, Hman. cbn [negb].
        exact (proj1 (handleUnmanaged_result ing c)). }
      rewrite Hrun. cbn [fst snd Requeue]. split; [reflexivity|]. split; [discriminate|].
      intros (i & t & Hi & Hm & _). injection Hi as <-. rewrite Hman in Hm. discriminate Hm.
Qed.

(** X20. An Ingress that is there and not managed (another class, or the
    enabled annotation set to false in any spelling). The pass returns no
    error and no requeue, issues one Delete per resource that carries the UID
    label of the Ingress and nothing else, and afterwards the store holds no
    resource of the Ingress. *)
Theorem Reconcile_unmanaged_removes_owned
    (SplitHost : string -> string + (string * string)) (order : RangeOrder)
    (r : IngressReconciler) (namespace name : string) (c : Cluster) (ing : Ingress) :
  fst (GetIngress namespace name c) = inr ing ->
  isManaged ing = false ->
  fst (Reconcile SplitHost order r namespace name c) = ({| Requeue := false |}, None)
  /\ calls (snd (Reconcile SplitHost order r namespace name c))
     = calls c ++ map CallDeleteOf
                    (List.filter (owned_by (Ingress_Namespace ing) (Ingress_UID ing))
                                 (resources c))
  /\ forall y, In y (resources (snd (Reconcile SplitHost order r namespace name c))) ->
               owned_by (Ingress_Namespace ing) (Ingress_UID ing) y = false.
Proof.
  intros Hget Hman.
  assert (Hrun : Reconcile SplitHost order r namespace name c = handleUnmanaged ing c).
  { unfold Reconcile, bind. now rewrite GetIngress_run, Hget, Hman. }
  rewrite Hrun, (proj2 (handleUnmanaged_result ing c)). cbn [fst snd].
  split; [reflexivity|]. split; [reflexivity|].
  intros y. apply after_unmanaged_none_owned.
Qed.

Lemma Reconcile_unmanaged_removes_owned_witness :
  isManaged ingress_disabled = false
  /\ calls (snd (Reconcile SplitHost_model order_fwd reconciler0 "default" "myapp"
                   (cluster_of ingress_disabled [owned_app])))
     = [CallDelete "default" "pic-default-myapp-a03c4624"].
Proof.
  split; [reflexivity|].
  rewrite (proj1 (proj2 (Reconcile_unmanaged_removes_owned SplitHost_model order_fwd
                           reconciler0 "default" "myapp"
                           (cluster_of ingress_disabled [owned_app]) ingress_disabled
                           eq_refl eq_refl))).
  vm_compute. reflexivity.
Defined.

Lemma hostGroupsOf_no_rules (ing : Ingress) :
  Ingress_Rules ing = [] -> hostGroupsOf ing = [].
Proof.
  intros H. unfold hostGroupsOf. rewrite H. cbn [hostMapOf].
  now rewrite map_to_list_empty.
Qed.

(** X21. One pass is enough. Take a managed Ingress whose tunnel exists,
    with at least one host that has an HTTP section, and suppose that no two
    of its hosts that yield a resource are given the same name. After the
    pass, whatever the store held before and in whatever order the hosts were
    visited, every host that can be built has its resource in the store with
    a spec that [specChanged] accepts, and every resource of the Ingress that
    is left belongs to one of these hosts; a host that cannot be built does
    not keep the others from being served. *)
Theorem Reconcile_settles
    (SplitHost : string -> string + (string * string)) (order : RangeOrder)
    (r : IngressReconciler) (namespace name : string) (c : Cluster) (ing : Ingress)
    (tunnelName tunnelNamespace : string) :
  range_ok order ->
  fst (GetIngress namespace name c) = inr ing ->
  isManaged ing = true ->
  resolveTunnel r ing = inr tunnelName ->
  fst (validateTunnel tunnelName c) = inr tunnelNamespace ->
  NoDup (desired_names SplitHost r ing) ->
  hostGroupsOf ing <> [] ->
  fst (Reconcile SplitHost order r namespace name c) = ({| Requeue := false |}, None)
  /\ settled SplitHost r ing tunnelName tunnelNamespace
       (snd (Reconcile SplitHost order r namespace name c)).
Proof.
  intros Hok Hget Hman Hres Hval Hnd Hgroups.
  rewrite (Reconcile_managed SplitHost order r namespace name c ing tunnelName Hget Hman Hres),
    Hval.
  destruct (processHosts_first SplitHost r ing tunnelName tunnelNamespace order c Hok Hnd)
    as (c1 & -> & _ & _ & [(_ & _ & [Hr|Hg])|Hs]).
  - now apply hostGroupsOf_no_rules in Hr.
  - contradiction.
  - split; [reflexivity | exact Hs].
Qed.

Lemma Reconcile_settles_witness :
  settled SplitHost_model reconciler0 ingress_two_hosts "default" "pangolin-system"
    (snd (Reconcile SplitHost_model order_rev reconciler0 "default" "myapp"
            (cluster_of ingress_two_hosts [owned_app]))).
Proof.
  assert (Hnd : NoDup (desired_names SplitHost_model reconciler0 ingress_two_hosts)).
  { apply (bool_decide_unpack _). vm_compute. exact I. }
  exact (proj2 (Reconcile_settles SplitHost_model order_rev reconciler0 "default" "myapp"
                  (cluster_of ingress_two_hosts [owned_app]) ingress_two_hosts
                  "default" "pangolin-system" range_ok_rev eq_refl eq_refl eq_refl eq_refl
                  Hnd ltac:(vm_compute; discriminate))).
Defined.

Lemma processGroups_creates (SplitHost : string -> string + (string * string))
    (r : IngressReconciler) (ing : Ingress) (tunnelName tunnelNamespace : string)
    (gs : list HostPathGroup) (desiredNames : gmap string bool) (c : Cluster) :
  NoDup (map Resource_Name (builtOf SplitHost r ing tunnelName tunnelNamespace gs)) ->
  (forall d, In d (builtOf SplitHost r ing tunnelName tunnelNamespace gs) ->
     lookup_resource (Resource_Namespace d) (Resource_Name d) (resources c) = None) ->
  exists c',
    processGroups SplitHost r ing tunnelName tunnelNamespace gs desiredNames c
    = (desiredNamesOf SplitHost r ing tunnelName tunnelNamespace gs desiredNames, None, c')
    /\ resources c'
       = resources c ++ builtOf SplitHost r ing tunnelName tunnelNamespace gs
    /\ calls c'
       = calls c ++ map CallCreateOf (builtOf SplitHost r ing tunnelName tunnelNamespace gs).
Proof.
  revert desiredNames c. induction gs as [|g rest IH]; intros desiredNames c Hnd Hnone.
  - exists c. cbn. now rewrite !app_nil_r.
  - cbn [builtOf desiredNamesOf] in *.
    destruct (built SplitHost r ing tunnelName tunnelNamespace g) as [d|] eqn:Hb.
    + rewrite (processGroups_step_built SplitHost r ing tunnelName tunnelNamespace
                 g rest desiredNames c d Hb).
      rewrite (reconcile_create ing d c (Hnone d (or_introl eq_refl))).
      cbn [map] in Hnd. apply NoDup_cons in Hnd as [Hfresh Hnd].
      destruct (IH (<[Resource_Name d := true]> desiredNames)
                  (after_write (resources c ++ [d])
                     (CallCreate (Resource_Namespace d) (Resource_Name d))
                     (WriteEvent ing "Created" d) c) Hnd) as (c' & -> & Hr & Hc).
      * intros d' Hd'. unfold after_write, lookup_resource. cbn [resources].
        rewrite find_app.
        pose proof (Hnone d' (or_intror Hd')) as Hl. unfold lookup_resource in Hl.
        rewrite Hl. cbn [List.find].
        destruct (same_object (Resource_Namespace d') (Resource_Name d') d) eqn:Hs;
          [|reflexivity].
        apply same_object_eq in Hs as [_ Hn]. exfalso. apply Hfresh.
        rewrite Hn. apply list_elem_of_In. now apply in_map.
      * exists c'. split; [reflexivity|]. rewrite Hr, Hc. unfold after_write.
        cbn [resources calls map]. now rewrite <- !app_assoc.
    + destruct (processGroups_step_failed SplitHost r ing tunnelName tunnelNamespace
                  g rest desiredNames c Hb) as (ev & ->).
      destruct (IH desiredNames (add_events [ev] c) Hnd Hnone) as (c' & -> & Hr & Hc).
      exists c'. split; [reflexivity|]. now split.
Qed.

(** X22. The first pass in a namespace that holds no PangolinResource yet.
    For a managed Ingress whose tunnel exists and whose hosts are given
    pairwise distinct names, the pass creates exactly one resource per host
    that can be built, in the order in which the hosts are visited, with one
    Create each; it issues no Update and no Delete and leaves the objects of
    other namespaces as they are. *)
Theorem Reconcile_first_pass_creates
    (SplitHost : string -> string + (string * string)) (order : RangeOrder)
    (r : IngressReconciler) (namespace name : string) (c : Cluster) (ing : Ingress)
    (tunnelName tunnelNamespace : string) :
  range_ok order ->
  fst (GetIngress namespace name c) = inr ing ->
  isManaged ing = true ->
  resolveTunnel r ing = inr tunnelName ->
  fst (validateTunnel tunnelName c) = inr tunnelNamespace ->
  NoDup (desired_names SplitHost r ing) ->
  (forall y, In y (resources c) -> Resource_Namespace y <> Ingress_Namespace ing) ->
  let created :=
    builtOf SplitHost r ing tunnelName tunnelNamespace
      (groups_of (order (hostMapOf (Ingress_Rules ing) ∅))) in
  fst (Reconcile SplitHost order r namespace name c) = ({| Requeue := false |}, None)
  /\ resources (snd (Reconcile SplitHost order r namespace name c))
     = resources c ++ created
  /\ calls (snd (Reconcile SplitHost order r namespace name c))
     = calls c ++ map CallCreateOf created.
Proof.
  intros Hok Hget Hman Hres Hval Hnd Hfree created.
  rewrite (Reconcile_managed SplitHost order r namespace name c ing tunnelName Hget Hman Hres),
    Hval.
  pose proof (groups_of_perm order ing Hok) as Hperm.
  assert (Hnd' : NoDup (map Resource_Name created)).
  { unfold desired_names in Hnd. subst created.
    rewrite (built_names_tunnel _ _ _ "" "" tunnelName tunnelNamespace) in Hnd.
    assert (Hp : Permutation
                   (map Resource_Name
                      (builtOf SplitHost r ing tunnelName tunnelNamespace
                         (groups_of (order (hostMapOf (Ingress_Rules ing) ∅)))))
                   (map Resource_Name
                      (builtOf SplitHost r ing tunnelName tunnelNamespace
                         (hostGroupsOf ing))))
      by (apply Permutation_map, builtOf_perm; exact Hperm).
    now rewrite Hp. }
  assert (Hin : forall d, In d created -> Resource_Namespace d = Ingress_Namespace ing).
  { intros d Hd. exact (builtOf_namespace SplitHost r ing tunnelName tunnelNamespace _ d Hd). }
  subst created.
  set (gs := groups_of (order (hostMapOf (Ingress_Rules ing) ∅))) in *.
  cut (exists c',
         processHosts SplitHost order r ing tunnelName tunnelNamespace c
         = ({| Requeue := false |}, None, c')
         /\ resources c'
            = resources c ++ builtOf SplitHost r ing tunnelName tunnelNamespace gs
         /\ calls c'
            = calls c
              ++ map CallCreateOf (builtOf SplitHost r ing tunnelName tunnelNamespace gs)).
  { intros (c' & -> & Hr & Hc). cbn [fst snd]. now split. }
  unfold processHosts.
  destruct (Nat.eqb (length (Ingress_Rules ing)) 0) eqn:Hrules.
  - assert (Hgs : gs = []).
    { apply Permutation_nil. symmetry. rewrite Hperm, hostGroupsOf_no_rules; [reflexivity|].
      destruct (Ingress_Rules ing); [reflexivity | discriminate Hrules]. }
    rewrite Hgs. unfold bind. rewrite RecordEvent_add. eexists. split; [reflexivity|].
    cbn. now rewrite !app_nil_r.
  - unfold bind at 1. rewrite collectHostPaths_run. fold gs.
    destruct (Nat.eqb (length gs) 0) eqn:Hlen.
    + destruct gs; [|discriminate Hlen]. eexists. split; [reflexivity|].
      cbn. now rewrite !app_nil_r.
    + unfold bind.
      destruct (processGroups_creates SplitHost r ing tunnelName tunnelNamespace gs ∅
                  (add_events (map (fun _ => EmptyHostEvent ing)
                                 (emptyHostRules (Ingress_Rules ing))) c) Hnd')
        as (cb & -> & Hr & Hc).
      { intros d Hd. cbn [add_events resources].
        destruct (lookup_resource _ _ (resources c)) as [x|] eqn:Hl; [|reflexivity].
        apply lookup_resource_some in Hl as (Hx & Hns & _).
        apply Hfree in Hx. rewrite Hns, (Hin d Hd) in Hx. contradiction. }
      cbn [fst snd]. unfold cleanupOrphanedResources, bind, ListResources.
      rewrite deleteOrphans_run, after_cleanup_noop.
      * exists cb. split; [reflexivity|]. now rewrite Hr, Hc.
      * intros y Hy. apply filter_In in Hy as [Hy Hown].
        apply desiredNamesOf_index. right. apply in_map.
        rewrite Hr in Hy. cbn [add_events resources] in Hy.
        apply in_app_or in Hy as [Hy|Hy]; [|exact Hy].
        apply owned_by_self in Hown. apply Hfree in Hy. contradiction.
Qed.

Lemma Reconcile_first_pass_creates_witness :
  map Resource_Name
    (resources (snd (Reconcile SplitHost_model order_rev reconciler0 "default" "myapp"
                       (cluster_of ingress_two_hosts []))))
  = map Resource_Name
      (builtOf SplitHost_model reconciler0 ingress_two_hosts "default" "pangolin-system"
         (groups_of (order_rev (hostMapOf (Ingress_Rules ingress_two_hosts) ∅)))).
Proof.
  assert (Hnd : NoDup (desired_names SplitHost_model reconciler0 ingress_two_hosts)).
  { apply (bool_decide_unpack _). vm_compute. exact I. }
  exact (f_equal (map Resource_Name)
           (proj1 (proj2 (Reconcile_first_pass_creates SplitHost_model order_rev reconciler0
                            "default" "myapp" (cluster_of ingress_two_hosts [])
                            ingress_two_hosts "default" "pangolin-system" range_ok_rev
                            eq_refl eq_refl eq_refl eq_refl Hnd
                            (fun y (H : In y []) => match H with end))))).
Defined.
